(** * Duplicate-review reconciliation engine of testpoint

    A shallow embedding of the review front end: the SimilarityGroupView
    component (frontend/components/Toast.tsx), the session store
    (frontend/lib/storage.ts) and the accessors of the file status context,
    followed by the properties of the range paginator, the selection
    reconciler, the submission coordinator and the session store.

    Conventions of the embedding.
    - A JavaScript [number] is a rational ([Q]) and arithmetic on it is
      exact, where the code computes on doubles and rounds each result.
      The two agree on comparisons and on sums of group counts; they can
      differ where a product or a difference is rounded
      ([roundedSimilarity], the steps of the manual range) and for
      integers beyond 2^53 ([fileNumOfName]).  No property below depends
      on the value such an operation yields, only on what is done with it.
    - A JavaScript object used as a dictionary is a [gmap]; property names
      inherited from [Object.prototype] are not modelled.
    - [Array.prototype.sort] is stable (ES2019); it is modelled by a stable
      insertion sort, which computes the one stably sorted arrangement.
    - React state is passed explicitly; a state updater given to a setter
      is a function from the previous state to the next. *)

From Stdlib Require Import QArith Qround Lqa ZArith Lia Ascii.
From stdpp Require Import gmap strings list fin_maps sorting.

Local Open Scope Z_scope.

(** ** JavaScript helpers *)

(** [a <= b], [a < b], [a >= b], [a > b] on numbers. *)
Definition Qleb (a b : Q) : bool := Qle_bool a b.
Definition Qltb (a b : Q) : bool := negb (Qle_bool b a).

(** [Math.round]: the nearest integer, ties towards plus infinity. *)
Definition Math_round (x : Q) : Z := Qfloor (x + (1 # 2))%Q.

(** [arr.sort(compareFn)], given [le a b := compareFn(a, b) <= 0]. *)
Fixpoint sort_insert {A} (le : A -> A -> bool) (x : A) (l : list A) : list A :=
  match l with
  | [] => [x]
  | y :: l' => if le x y then x :: y :: l' else y :: sort_insert le x l'
  end.

Fixpoint js_sort {A} (le : A -> A -> bool) (l : list A) : list A :=
  match l with
  | [] => []
  | x :: l' => sort_insert le x (js_sort le l')
  end.

(** [arr.indexOf(x)], with [-1] when [x] is absent. *)
Fixpoint indexOf (x : nat) (l : list nat) : Z :=
  match l with
  | [] => -1
  | y :: l' =>
      if decide (x = y) then 0
      else let r := indexOf x l' in if decide (r = -1) then -1 else r + 1
  end.

(** ** Data model *)

(** [interface Group] of SimilarityGroupView.tsx. *)
Record Similarity := {
  file1 : string;
  file2 : string;
  score : Q
}.

Record Group := {
  files : list string;
  max_similarity : Q;
  similarities : list Similarity
}.

(** [Math.round(group.max_similarity * 1000) / 10], on the exact product;
    the code rounds the product to a double before [Math.round], which
    moves a similarity that lies on a tie, such as 0.9275, to the next
    level. *)
Definition roundedSimilarity (g : Group) : Q :=
  (inject_Z (Math_round (max_similarity g * 1000)) / 10)%Q.

(** The [status] field of [FileStatus] (FileStatusContext.tsx). *)
Inductive Status := saved | removed | unknown.

#[global] Instance Status_eq_dec : EqDecision Status.
Proof. solve_decision. Defined.

Record FileStatus := {
  status : Status;
  checked : bool
}.

(** Entries of [mcqMetadata]. *)
Record McqMeta := {
  hasYear : bool;
  fileNum : Z
}.

(** ** Session store (frontend/lib/storage.ts) *)

Record SessionState := {
  subject : string;
  currentGroupIndex : nat;
  completedGroups : list nat;
  checkedFiles : gmap string bool;
  similarityRangeStart : option Q;
  similarityRangeEnd : option Q;
  maxGroupsPerPage : option Q;
  targetGroupsPerPage : option Q;
  isManualRange : option bool;
  mcqMetadata : option (gmap string McqMeta);
  lastUpdated : Z
}.

Definition STORAGE_KEY : string := "mcq_deduplication_session".

(** [localStorage]: the documents by key.  [JSON.parse (JSON.stringify d)]
    gives back [d] on a session document, so the document itself is kept.
    The [catch] branches (a store that refuses the write) are not modelled. *)
Abbreviation LocalStorage := (gmap string SessionState).

Definition stamp (now : Z) (s : SessionState) : SessionState :=
  {| subject := subject s;
     currentGroupIndex := currentGroupIndex s;
     completedGroups := completedGroups s;
     checkedFiles := checkedFiles s;
     similarityRangeStart := similarityRangeStart s;
     similarityRangeEnd := similarityRangeEnd s;
     maxGroupsPerPage := maxGroupsPerPage s;
     targetGroupsPerPage := targetGroupsPerPage s;
     isManualRange := isManualRange s;
     mcqMetadata := mcqMetadata s;
     lastUpdated := now |}.

(** [storage.saveSession(state)]; [now] is the value of [Date.now()]. *)
Definition saveSession (now : Z) (state : SessionState) (ls : LocalStorage)
  : LocalStorage :=
  <[STORAGE_KEY := stamp now state]> ls.

(** [storage.loadSession(subject)] *)
Definition loadSession (subj : string) (ls : LocalStorage)
  : option SessionState :=
  match ls !! STORAGE_KEY with
  | None => None
  | Some session =>
      if decide (subject session = subj) then Some session else None
  end.

(** [storage.clearSession(subject)]; [if (subject)] sends the empty
    string, like a missing argument, to the branch that clears all. *)
Definition clearSession (subj : option string) (ls : LocalStorage)
  : LocalStorage :=
  match subj with
  | Some sj =>
      if decide (sj = EmptyString) then delete STORAGE_KEY ls
      else
        match ls !! STORAGE_KEY with
        | Some session =>
            if decide (subject session = sj) then delete STORAGE_KEY ls
            else ls
        | None => ls
        end
  | None => delete STORAGE_KEY ls
  end.

Definition withCheckedFiles (cf : gmap string bool) (s : SessionState)
  : SessionState :=
  {| subject := subject s;
     currentGroupIndex := currentGroupIndex s;
     completedGroups := completedGroups s;
     checkedFiles := cf;
     similarityRangeStart := similarityRangeStart s;
     similarityRangeEnd := similarityRangeEnd s;
     maxGroupsPerPage := maxGroupsPerPage s;
     targetGroupsPerPage := targetGroupsPerPage s;
     isManualRange := isManualRange s;
     mcqMetadata := mcqMetadata s;
     lastUpdated := lastUpdated s |}.

(** [storage.updateCheckedFiles(subject, filename, checked)] *)
Definition updateCheckedFiles (now : Z) (subj filename : string) (chk : bool)
  (ls : LocalStorage) : LocalStorage :=
  match loadSession subj ls with
  | Some session =>
      saveSession now
        (withCheckedFiles (<[filename := chk]> (checkedFiles session)) session)
        ls
  | None => ls
  end.

(** The session created when none is stored (range-saving effect and the
    [update...] helpers of storage.ts). *)
Definition freshSession (subj : string) (now : Z) : SessionState :=
  {| subject := subj;
     currentGroupIndex := 0;
     completedGroups := [];
     checkedFiles := ∅;
     similarityRangeStart := None;
     similarityRangeEnd := None;
     maxGroupsPerPage := None;
     targetGroupsPerPage := None;
     isManualRange := None;
     mcqMetadata := None;
     lastUpdated := now |}.

(** ** Group index and range paginator (SimilarityGroupView.tsx) *)

(** [{ start, end }] *)
Record Range := {
  start : Q;
  end_ : Q
}.

(** The object [grouped] of [initializeGroups]: similarity level to the
    indices of the groups at that level.  Two numbers name the same
    property exactly when they are equal. *)
Abbreviation Grouped := (list (Q * list nat)).

(** [if (!grouped[key]) grouped[key] = []; grouped[key].push(index)] *)
Fixpoint pushIndex (key : Q) (index : nat) (grouped : Grouped) : Grouped :=
  match grouped with
  | [] => [(key, [index])]
  | (k, indices) :: rest =>
      if Qeq_bool k key then (k, indices ++ [index]) :: rest
      else (k, indices) :: pushIndex key index rest
  end.

(** [groups.forEach((group, index) => ...)] of [initializeGroups] *)
Fixpoint groupBySimilarity (gs : list Group) (index : nat) (grouped : Grouped)
  : Grouped :=
  match gs with
  | [] => grouped
  | group :: rest =>
      groupBySimilarity rest (S index)
        (pushIndex (roundedSimilarity group) index grouped)
  end.

(** [groupsBySimilarity[level] || []] *)
Fixpoint groupsInLevel (grouped : Grouped) (level : Q) : list nat :=
  match grouped with
  | [] => []
  | (k, indices) :: rest =>
      if Qeq_bool k level then indices else groupsInLevel rest level
  end.

(** [(a, b) => b - a], as [compareFn(a, b) <= 0] *)
Definition descending (a b : Q) : bool := Qleb (b - a) 0.

(** The part of the component state that [initializeGroups] derives from
    the group list. *)
Record GroupIndex := {
  similarityLevels : list Q;
  groupsBySimilarity : Grouped
}.

(** [initializeGroups]: the bucketing and the sorted levels.  The keys are
    pairwise different, so their sorted arrangement does not depend on the
    order in which [Object.keys] lists them. *)
Definition initializeGroups (groups : list Group) : GroupIndex :=
  let grouped := groupBySimilarity groups 0 [] in
  {| similarityLevels := js_sort descending (grouped.*1);
     groupsBySimilarity := grouped |}.

(** [limit && groupIndices.length >= limit] *)
Definition limitReached (limit : option Q) (groupIndices : list nat) : bool :=
  match limit with
  | None => false
  | Some l =>
      negb (Qeq_bool l 0) && Qleb l (inject_Z (Z.of_nat (length groupIndices)))
  end.

(** The loop of [calculateGroupsInRange], from group [index] on. *)
Fixpoint groupsInRangeFrom (start_ end_ : Q) (limit : option Q)
  (gs : list Group) (index : nat) (groupIndices : list nat) : list nat :=
  match gs with
  | [] => groupIndices
  | group :: rest =>
      let rounded := roundedSimilarity group in
      if Qleb rounded start_ && Qleb end_ rounded then
        let groupIndices' := groupIndices ++ [index] in
        if limitReached limit groupIndices' then groupIndices'
        else groupsInRangeFrom start_ end_ limit rest (S index) groupIndices'
      else groupsInRangeFrom start_ end_ limit rest (S index) groupIndices
  end.

(** [calculateGroupsInRange(start, end, limit?)] *)
Definition calculateGroupsInRange (groups : list Group) (start_ end_ : Q)
  (limit : option Q) : list nat :=
  groupsInRangeFrom start_ end_ limit groups 0 [].

(** [getGroupsForCurrentPage()] *)
Definition getGroupsForCurrentPage (groups : list Group)
  (similarityRangeStart similarityRangeEnd : Q) : list nat :=
  calculateGroupsInRange groups similarityRangeStart similarityRangeEnd None.

(** [similarityLevels[similarityLevels.length - 1]], read only where the
    list is not empty. *)
Definition lastLevel (levels : list Q) : Q := default 0%Q (last levels).

(** The first index [i] with [similarityLevels[i] <= startPoint]. *)
Fixpoint findStartIndex (startPoint : Q) (levels : list Q) (i : nat)
  : option nat :=
  match levels with
  | [] => None
  | level :: rest =>
      if Qleb level startPoint then Some i
      else findStartIndex startPoint rest (S i)
  end.

(** The expansion loop of [calculateRangeFromTargetGroups] over the levels
    from [startIndex] on; returns [(rangeEnd, totalGroups)]. *)
Fixpoint expandRange (grouped : Grouped) (targetGroups : Q)
  (levels : list Q) (rangeEnd : Q) (totalGroups : Z) : Q * Z :=
  match levels with
  | [] => (rangeEnd, totalGroups)
  | level :: rest =>
      let totalGroups' :=
        totalGroups + Z.of_nat (length (groupsInLevel grouped level)) in
      if Qleb (targetGroups * 0.8) (inject_Z totalGroups')
         && Qleb targetGroups (inject_Z totalGroups')
      then (level, totalGroups')
      else if Qltb (targetGroups * 1.5) (inject_Z totalGroups')
      then (level, totalGroups')
      else expandRange grouped targetGroups rest level totalGroups'
  end.

(** [calculateRangeFromTargetGroups(startPoint, targetGroups)] *)
Definition calculateRangeFromTargetGroups (groups : list Group)
  (idx : GroupIndex) (startPoint targetGroups : Q) : Range :=
  let levels := similarityLevels idx in
  if decide (length levels = 0%nat) then {| start := 100.0; end_ := 99.9 |}
  else
    match findStartIndex startPoint levels 0 with
    | None => {| start := lastLevel levels; end_ := lastLevel levels |}
    | Some startIndex =>
        let rangeStart := default 0%Q (levels !! startIndex) in
        let '(rangeEnd, totalGroups) :=
          expandRange (groupsBySimilarity idx) targetGroups
            (drop startIndex levels) rangeStart 0 in
        if Qltb (inject_Z totalGroups) (targetGroups * 0.5) then
          let minLevel := lastLevel levels in
          let allRemainingGroups :=
            length (calculateGroupsInRange groups rangeStart minLevel None) in
          if decide (0 < allRemainingGroups)%nat
          then {| start := rangeStart; end_ := minLevel |}
          else {| start := rangeStart; end_ := rangeEnd |}
        else {| start := rangeStart; end_ := rangeEnd |}
    end.

(** The search loop of [hasNextPage]: a group outside the current range
    whose level is below the end of the range. *)
Fixpoint lowerGroupOutside (currentPageGroupIndices : list nat)
  (similarityRangeEnd : Q) (gs : list Group) (i : nat) : bool :=
  match gs with
  | [] => false
  | group :: rest =>
      if negb (bool_decide (i ∈ currentPageGroupIndices))
         && Qltb (roundedSimilarity group) similarityRangeEnd
      then true
      else lowerGroupOutside currentPageGroupIndices similarityRangeEnd
             rest (S i)
  end.

(** [hasNextPage()] *)
Definition hasNextPage (groups : list Group) (idx : GroupIndex)
  (similarityRangeStart similarityRangeEnd : Q) : bool :=
  let levels := similarityLevels idx in
  if bool_decide (length levels = 0%nat) || bool_decide (length groups = 0%nat)
  then false
  else
    let minLevel := lastLevel levels in
    if Qltb minLevel similarityRangeEnd then true
    else
      let allGroupsInCurrentRange :=
        calculateGroupsInRange groups similarityRangeStart similarityRangeEnd
          None in
      lowerGroupOutside allGroupsInCurrentRange similarityRangeEnd groups 0.

(** *** Display order: [reorderGroupsByFileAppearances] *)

(** One step of the inner loop that fills [fileToGroups]. *)
Definition addFileGroup (groupIndex : nat) (fileToGroups : gmap string (list nat))
  (filename : string) : gmap string (list nat) :=
  let current := default [] (fileToGroups !! filename) in
  if decide (groupIndex ∈ current) then <[filename := current]> fileToGroups
  else <[filename := current ++ [groupIndex]]> fileToGroups.

(** [fileToGroups]: filename to the groups of the page that contain it. *)
Definition buildFileToGroups (groups : list Group) (groupIndices : list nat)
  : gmap string (list nat) :=
  foldl (fun fileToGroups groupIndex =>
           match groups !! groupIndex with
           | None => fileToGroups
           | Some group => foldl (addFileGroup groupIndex) fileToGroups (files group)
           end) ∅ groupIndices.

(** [fileToGroups[filename] && fileToGroups[filename].length > 1] *)
Definition appearsInSeveral (fileToGroups : gmap string (list nat))
  (filename : string) : bool :=
  match fileToGroups !! filename with
  | Some l => bool_decide (1 < length l)%nat
  | None => false
  end.

(** [multiAppearanceFiles], as the entries of [fileToGroups] it keeps. *)
Definition multiAppearanceFiles (fileToGroups : gmap string (list nat))
  : gmap string (list nat) :=
  filter (fun kv => (1 < length kv.2)%nat) fileToGroups.

(** [placedGroups] and [reordered]. *)
Record Placement := {
  placedGroups : gset nat;
  reordered : list nat
}.

(** [addGroup(groupIndex)] *)
Definition addGroup (p : Placement) (groupIndex : nat) : Placement :=
  if decide (groupIndex ∈ placedGroups p) then p
  else {| placedGroups := {[groupIndex]} ∪ placedGroups p;
          reordered := reordered p ++ [groupIndex] |}.

(** [relatedGroupsSet.add(relatedGroupIndex)]: a [Set] lists its members
    in the order of their first insertion. *)
Definition setAdd (s : list nat) (x : nat) : list nat :=
  if decide (x ∈ s) then s else s ++ [x].

(** The groups related to [groupIndex] through the given files. *)
Definition collectRelated (fileToGroups : gmap string (list nat))
  (placed : gset nat) (groupIndex : nat) (filenames : list string) : list nat :=
  foldl (fun relatedGroupsSet filename =>
           foldl (fun s relatedGroupIndex =>
                    if decide (relatedGroupIndex <> groupIndex
                               /\ relatedGroupIndex ∉ placed)
                    then setAdd s relatedGroupIndex else s)
                 relatedGroupsSet (default [] (fileToGroups !! filename)))
        [] filenames.

(** [(a, b) => groupIndices.indexOf(a) - groupIndices.indexOf(b)] *)
Definition byPosition (groupIndices : list nat) (a b : nat) : bool :=
  bool_decide (indexOf a groupIndices - indexOf b groupIndices <= 0).

(** The body of the main loop, for one [groupIndex]. *)
Definition placeGroup (groups : list Group)
  (fileToGroups : gmap string (list nat)) (groupIndices : list nat)
  (p : Placement) (groupIndex : nat) : Placement :=
  if decide (groupIndex ∈ placedGroups p) then p
  else
    match groups !! groupIndex with
    | None => addGroup p groupIndex
    | Some group =>
        let multiAppearanceFilesInGroup :=
          List.filter (appearsInSeveral fileToGroups) (files group) in
        if decide (0 < length multiAppearanceFilesInGroup)%nat then
          let p1 := addGroup p groupIndex in
          let relatedGroupsSet :=
            collectRelated fileToGroups (placedGroups p1) groupIndex
              multiAppearanceFilesInGroup in
          let relatedGroups :=
            js_sort (byPosition groupIndices) relatedGroupsSet in
          foldl addGroup p1 relatedGroups
        else addGroup p groupIndex
    end.

(** The closing loop: push what was not placed. *)
Definition pushUnplaced (p : Placement) (groupIndex : nat) : Placement :=
  if decide (groupIndex ∈ placedGroups p) then p
  else {| placedGroups := placedGroups p;
          reordered := reordered p ++ [groupIndex] |}.

(** [reorderGroupsByFileAppearances(groupIndices)] *)
Definition reorderGroupsByFileAppearances (groups : list Group)
  (groupIndices : list nat) : list nat :=
  if decide (length groupIndices = 0%nat) then groupIndices
  else
    let fileToGroups := buildFileToGroups groups groupIndices in
    if decide (multiAppearanceFiles fileToGroups = ∅) then groupIndices
    else
      let p0 := {| placedGroups := ∅; reordered := [] |} in
      let p1 := foldl (placeGroup groups fileToGroups groupIndices) p0
                  groupIndices in
      reordered (foldl pushUnplaced p1 groupIndices).

(** [getReorderedGroupsForPage()] *)
Definition getReorderedGroupsForPage (groups : list Group)
  (similarityRangeStart similarityRangeEnd : Q) : list nat :=
  reorderGroupsByFileAppearances groups
    (getGroupsForCurrentPage groups similarityRangeStart similarityRangeEnd).

(** ** Selection reconciler (SimilarityGroupView.tsx) *)

(** [fileStatusContext.getFileStatus(filename)?.status || 'unknown'] *)
Definition statusOf (fileStatuses : gmap string FileStatus) (filename : string)
  : Status :=
  match fileStatuses !! filename with
  | Some fileStatus => status fileStatus
  | None => unknown
  end.

(** [fileStatusContext.getFileChecked(filename)] *)
Definition getFileChecked (fileStatuses : gmap string FileStatus)
  (filename : string) : bool :=
  match fileStatuses !! filename with
  | Some fileStatus => checked fileStatus
  | None => false
  end.

Definition isDigit (c : ascii) : bool :=
  let n := nat_of_ascii c in (48 <=? n)%nat && (n <=? 57)%nat.

(** [filename.replace(/\D/g, '')], as the values of the digits kept. *)
Fixpoint digitsOf (s : string) : list Z :=
  match s with
  | EmptyString => []
  | String c rest =>
      if isDigit c then (Z.of_nat (nat_of_ascii c) - 48) :: digitsOf rest
      else digitsOf rest
  end.

(** [parseInt(filename.replace(/\D/g, '')) || 999999]: no digit gives NaN
    and NaN and 0 give the default.  The number is kept exact, where
    [parseInt] returns the nearest double (and [Infinity] for a very long
    run of digits), so that names of 16 digits or more can tie in the
    code and differ here. *)
Definition fileNumOfName (filename : string) : Z :=
  match digitsOf filename with
  | [] => 999999
  | ds =>
      let n := foldl (fun acc d => acc * 10 + d) 0 ds in
      if decide (n = 0) then 999999 else n
  end.

(** An entry [{ filename, hasYear, fileNum }] of [unknownFiles]. *)
Abbreviation UnknownFile := (string * McqMeta)%type.

(** The comparator given to [unknownFiles.sort]. *)
Definition priorityCompare (a b : UnknownFile) : Z :=
  if negb (eqb (hasYear a.2) (hasYear b.2))
  then (if hasYear a.2 then -1 else 1)
  else fileNum a.2 - fileNum b.2.

Definition byPriority (a b : UnknownFile) : bool :=
  bool_decide (priorityCompare a b <= 0).

(** Check-all mode: everything except removed files. *)
Definition checkAllSelections (fileStatuses : gmap string FileStatus)
  (files_ : list string) : gmap string bool :=
  foldl (fun selections filename =>
           <[filename :=
               negb (bool_decide (statusOf fileStatuses filename = removed))]>
             selections)
        ∅ files_.

(** Normal mode, the loop that separates the files by status. *)
Definition classifyFile (fileStatuses : gmap string FileStatus)
  (metadata : gmap string McqMeta)
  (st : gmap string bool * list UnknownFile) (filename : string)
  : gmap string bool * list UnknownFile :=
  let '(selections, unknownFiles) := st in
  match statusOf fileStatuses filename with
  | saved => (<[filename := true]> selections, unknownFiles)
  | removed => (<[filename := false]> selections, unknownFiles)
  | unknown =>
      let entry :=
        match metadata !! filename with
        | Some cached =>
            {| hasYear := hasYear cached; fileNum := fileNum cached |}
        | None =>
            {| hasYear := false; fileNum := fileNumOfName filename |}
        end in
      (<[filename := false]> selections, unknownFiles ++ [(filename, entry)])
  end.

(** [autoSelectBestMCQ(files, metadata, useCheckAllMode)] *)
Definition autoSelectBestMCQ (fileStatuses : gmap string FileStatus)
  (files_ : list string) (metadata : gmap string McqMeta)
  (useCheckAllMode : bool) : gmap string bool :=
  if decide (length files_ = 0%nat) then ∅
  else if useCheckAllMode then checkAllSelections fileStatuses files_
  else
    let '(selections, unknownFiles) :=
      foldl (classifyFile fileStatuses metadata) (∅, []) files_ in
    match js_sort byPriority unknownFiles with
    | [] => selections
    | first :: _ => <[first.1 := true]> selections
    end.

(** The selections of the page: group index to filename to checked. *)
Abbreviation Selections := (gmap nat (gmap string bool)).

(** The inner loop of the recomputation: apply the fresh selection of one
    file to [merged]. *)
Definition applyAutoSelection (fileStatuses : gmap string FileStatus)
  (groupSelections : gmap string bool) (merged : gmap string bool)
  (filename : string) : gmap string bool :=
  let st := statusOf fileStatuses filename in
  let newSelection := default false (groupSelections !! filename) in
  if bool_decide (st = saved) || bool_decide (st = removed)
  then <[filename := newSelection]> merged
  else if decide (is_Some (merged !! filename)) then merged
  else <[filename := newSelection]> merged.

(** The body of the recomputation for one group. *)
Definition reconcileGroup (fileStatuses : gmap string FileStatus)
  (metadata : gmap string McqMeta) (checkAllMode : bool)
  (userModifiedFiles : gset string) (existingSelections : gmap string bool)
  (groupFiles : list string) : gmap string bool :=
  let merged := existingSelections in
  let filesForAutoSelect :=
    List.filter (fun f => negb (bool_decide (f ∈ userModifiedFiles)))
      groupFiles in
  if decide (0 < length filesForAutoSelect)%nat then
    let groupSelections :=
      autoSelectBestMCQ fileStatuses filesForAutoSelect metadata checkAllMode in
    foldl (applyAutoSelection fileStatuses groupSelections) merged
      filesForAutoSelect
  else merged.

(** The loop over all groups, from group [groupIndex] on. *)
Fixpoint reconcileFrom (fileStatuses : gmap string FileStatus)
  (metadata : gmap string McqMeta) (checkAllMode : bool)
  (userModifiedFiles : gset string) (gs : list Group) (groupIndex : nat)
  (updated : Selections) : Selections :=
  match gs with
  | [] => updated
  | group :: rest =>
      let existingSelections := default ∅ (updated !! groupIndex) in
      let merged :=
        reconcileGroup fileStatuses metadata checkAllMode userModifiedFiles
          existingSelections (files group) in
      reconcileFrom fileStatuses metadata checkAllMode userModifiedFiles rest
        (S groupIndex) (<[groupIndex := merged]> updated)
  end.

(** The updater given to [setAutoSelections] by [initializeGroups] and by
    the effect that follows [checkAllMode] and the status context. *)
Definition recomputeSelections (fileStatuses : gmap string FileStatus)
  (metadata : gmap string McqMeta) (checkAllMode : bool)
  (userModifiedFiles : gset string) (groups : list Group) (prev : Selections)
  : Selections :=
  reconcileFrom fileStatuses metadata checkAllMode userModifiedFiles groups 0
    prev.


(** *** User toggles: [handleFileToggleAll] *)

(** The body of the loop over the groups of the page. *)
Definition toggleStep (groups : list Group) (filename : string) (chk : bool)
  (prev updated : Selections) (groupIndex : nat) : Selections :=
  match groups !! groupIndex with
  | None => updated
  | Some group =>
      if decide (filename ∈ files group) then
        let prevGroupSelections :=
          match updated !! groupIndex with
          | Some s => s
          | None => default ∅ (prev !! groupIndex)
          end in
        <[groupIndex := <[filename := chk]> prevGroupSelections]> updated
      else updated
  end.

(** The updater given to [setAutoSelections]; [groupsInPage] is
    [getGroupsForCurrentPage()]. *)
Definition toggleSelections (groups : list Group) (groupsInPage : list nat)
  (filename : string) (chk : bool) (prev : Selections) : Selections :=
  foldl (toggleStep groups filename chk prev) prev groupsInPage.

(** What [handleFileToggleAll] changes: the set of user-modified files, the
    selections and the stored session. *)
Record ReviewState := {
  userModifiedFiles : gset string;
  autoSelections : Selections;
  localStorage : LocalStorage
}.

(** [handleFileToggleAll(filename, checked)] *)
Definition handleFileToggleAll (now : Z) (subj : string) (groups : list Group)
  (similarityRangeStart similarityRangeEnd : Q) (filename : string)
  (chk : bool) (st : ReviewState) : ReviewState :=
  {| userModifiedFiles := {[filename]} ∪ userModifiedFiles st;
     autoSelections :=
       toggleSelections groups
         (getGroupsForCurrentPage groups similarityRangeStart
            similarityRangeEnd)
         filename chk (autoSelections st);
     localStorage := updateCheckedFiles now subj filename chk (localStorage st) |}.

(** The selection of a file in a group, if there is one. *)
Definition selectionOf (sel : Selections) (groupIndex : nat) (filename : string)
  : option bool :=
  match sel !! groupIndex with
  | Some s => s !! filename
  | None => None
  end.

(** The effect that saves the range: it creates the session when none is
    stored for the subject. *)
Definition saveRangeEffect (now : Z) (subj : string)
  (rangeStart rangeEnd target : Q) (manual : bool) (ls : LocalStorage)
  : LocalStorage :=
  let session :=
    match loadSession subj ls with
    | Some session => session
    | None => freshSession subj now
    end in
  saveSession now
    {| subject := subject session;
       currentGroupIndex := currentGroupIndex session;
       completedGroups := completedGroups session;
       checkedFiles := checkedFiles session;
       similarityRangeStart := Some rangeStart;
       similarityRangeEnd := Some rangeEnd;
       maxGroupsPerPage := maxGroupsPerPage session;
       targetGroupsPerPage := Some target;
       isManualRange := Some manual;
       mcqMetadata := mcqMetadata session;
       lastUpdated := lastUpdated session |}
    ls.

(** *** Conflict detection *)

(** The checked state the detection reads for a file of a group. *)
Definition isCheckedIn (fileStatuses : gmap string FileStatus)
  (selections : gmap string bool) (filename : string) : bool :=
  match selections !! filename with
  | Some b => b
  | None => getFileChecked fileStatuses filename
  end.

(** [fileStates[filename].add(isChecked)] *)
Definition addFileState (fileStatuses : gmap string FileStatus)
  (selections : gmap string bool) (fileStates : gmap string (gset bool))
  (filename : string) : gmap string (gset bool) :=
  let isChecked := isCheckedIn fileStatuses selections filename in
  <[filename := {[isChecked]} ∪ default ∅ (fileStates !! filename)]> fileStates.

(** The second pass of the effect, as far as [fileStates] goes. *)
Definition collectFileStates (groups : list Group)
  (fileStatuses : gmap string FileStatus) (autoSelections_ : Selections)
  (groupsInPage : list nat) : gmap string (gset bool) :=
  foldl (fun fileStates groupIndex =>
           match groups !! groupIndex with
           | None => fileStates
           | Some group =>
               let selections := default ∅ (autoSelections_ !! groupIndex) in
               foldl (addFileState fileStatuses selections) fileStates
                 (files group)
           end) ∅ groupsInPage.

(** [conflicts]: the files whose states hold both [true] and [false]. *)
Definition conflictsOf (fileStates : gmap string (gset bool)) : gset string :=
  dom (filter (fun kv => true ∈ kv.2 /\ false ∈ kv.2) fileStates).

(** The conflict part of the effect that runs when the page or the
    selections change; [conflictingFiles] is the state it may replace.
    The appearance counters computed alongside do not feed [conflicts]. *)
Definition detectConflictsEffect (groups : list Group)
  (fileStatuses : gmap string FileStatus) (autoSelections_ : Selections)
  (similarityRangeStart similarityRangeEnd : Q)
  (conflictingFiles : gset string) : gset string :=
  let groupsInPage :=
    getReorderedGroupsForPage groups similarityRangeStart similarityRangeEnd in
  if decide (length groupsInPage = 0%nat) then conflictingFiles
  else conflictsOf
         (collectFileStates groups fileStatuses autoSelections_ groupsInPage).

(** *** Readiness: [allGroupsHaveAutoSelections] *)

Definition groupHasAutoSelections (groups : list Group)
  (autoSelections_ : Selections) (groupIndex : nat) : bool :=
  match autoSelections_ !! groupIndex with
  | None => false
  | Some selections =>
      if decide (size selections = 0%nat) then false
      else
        match groups !! groupIndex with
        | None => true
        | Some group =>
            forallb (fun filename =>
                       bool_decide (is_Some (selections !! filename)))
              (files group)
        end
  end.

(** [allGroupsHaveAutoSelections()] *)
Definition allGroupsHaveAutoSelections (groups : list Group)
  (autoSelections_ : Selections) (similarityRangeStart similarityRangeEnd : Q)
  : bool :=
  let groupsInPage :=
    getGroupsForCurrentPage groups similarityRangeStart similarityRangeEnd in
  if decide (length groupsInPage = 0%nat) then false
  else forallb (groupHasAutoSelections groups autoSelections_) groupsInPage.

(** ** Submission coordinator: [handleConfirmSubmitAll] *)

(** First pass: every file of the page starts at [false].  Reading
    [groups[groupIndex].files] of a missing group throws; [None] stands
    for the exception. *)
Definition initFinalStates (groups : list Group) (groupsInPage : list nat)
  : option (gmap string bool) :=
  foldl (fun acc groupIndex =>
           fileFinalStates ← acc;
           group ← groups !! groupIndex;
           Some (foldl (fun m filename =>
                          if decide (is_Some (m !! filename)) then m
                          else <[filename := false]> m)
                       fileFinalStates (files group)))
        (Some ∅) groupsInPage.

(** Second pass: [true] for a file checked in any group. *)
Definition markChecked (groups : list Group) (autoSelections_ : Selections)
  (groupsInPage : list nat) (fileFinalStates0 : gmap string bool)
  : option (gmap string bool) :=
  foldl (fun acc groupIndex =>
           fileFinalStates ← acc;
           group ← groups !! groupIndex;
           let selections := default ∅ (autoSelections_ !! groupIndex) in
           Some (foldl (fun m filename =>
                          let isChecked := default false (selections !! filename) in
                          if isChecked then <[filename := true]> m else m)
                       fileFinalStates (files group)))
        (Some fileFinalStates0) groupsInPage.

(** [fileFinalStates] as [handleConfirmSubmitAll] computes it. *)
Definition computeFinalStates (groups : list Group)
  (autoSelections_ : Selections) (groupsInPage : list nat)
  : option (gmap string bool) :=
  fileFinalStates0 ← initFinalStates groups groupsInPage;
  markChecked groups autoSelections_ groupsInPage fileFinalStates0.

(** [checkedFiles] of [processGroup]: the files sent as kept. *)
Definition checkedFilesOf (fileFinalStates : gmap string bool) (group : Group)
  : list string :=
  List.filter (fun filename =>
                 bool_decide (fileFinalStates !! filename = Some true))
    (files group).

(** The call [api.submitGroup(subject, groupIndex, checkedFiles)]. *)
Record Submission := {
  sub_groupIndex : nat;
  sub_checkedFiles : list string
}.

(** The status written to the context after a group is submitted. *)
Definition submittedStatus (fileFinalStates : gmap string bool)
  (filename : string) : FileStatus :=
  let finalState := bool_decide (fileFinalStates !! filename = Some true) in
  {| status := if finalState then saved else removed;
     checked := finalState |}.

(** [processGroup(groupIndex)], up to the request it sends. *)
Definition processGroup (groups : list Group)
  (fileFinalStates : gmap string bool) (groupIndex : nat) : option Submission :=
  group ← groups !! groupIndex;
  Some {| sub_groupIndex := groupIndex;
          sub_checkedFiles := checkedFilesOf fileFinalStates group |}.

(** The requests of a page, in the order of its groups (the batches only
    bound how many are in flight together). *)
Definition submitPage (groups : list Group) (autoSelections_ : Selections)
  (similarityRangeStart similarityRangeEnd : Q)
  : option (gmap string bool * list Submission) :=
  let groupsInPage :=
    getGroupsForCurrentPage groups similarityRangeStart similarityRangeEnd in
  fileFinalStates ← computeFinalStates groups autoSelections_ groupsInPage;
  submissions ← mapM (processGroup groups fileFinalStates) groupsInPage;
  Some (fileFinalStates, submissions).

(** ** Vocabulary of the properties *)

(** The level of a group lies in the closed range. *)
Definition inRange (start_ end_ : Q) (g : Group) : Prop :=
  (end_ <= roundedSimilarity g)%Q /\ (roundedSimilarity g <= start_)%Q.


(** The number of groups at a level. *)
Definition groupsAt (groups : list Group) (level : Q) : nat :=
  length (List.filter (fun g => Qeq_bool (roundedSimilarity g) level) groups).

(** The groups counted over a list of levels. *)
Definition totalOver (count : Q -> nat) (levels : list Q) : Z :=
  foldr (fun level acc => Z.of_nat (count level) + acc) 0 levels.

(** The running total after the levels [i0], ..., [k] have been added. *)
Definition runningTotal (groups : list Group) (levels : list Q) (i0 k : nat)
  : Z :=
  totalOver (groupsAt groups) (take (S k - i0) (drop i0 levels)).

(** The stopping rule: the total is at least 0.8 x target and at least the
    target. *)
Definition reached (targetGroups : Q) (total : Z) : Prop :=
  (targetGroups * 0.8 <= inject_Z total)%Q /\ (targetGroups <= inject_Z total)%Q.

(** [i0] is the first index whose level is at most [startPoint], or the
    last index when every level is above [startPoint]. *)
Definition isStartIndex (startPoint : Q) (levels : list Q) (i0 : nat) : Prop :=
  (forall k level, (k < i0)%nat -> levels !! k = Some level ->
                   (startPoint < level)%Q)
  /\ ((exists level, levels !! i0 = Some level /\ (level <= startPoint)%Q)
      \/ (S i0 = length levels
          /\ forall level, level ∈ levels -> (startPoint < level)%Q)).

(** The invariant of the placement loop over the page [groupIndices]:
    [reordered] lists the placed groups, once each, all from the page. *)
Definition placementOk (groupIndices : list nat) (p : Placement) : Prop :=
  NoDup (reordered p)
  /\ (forall x, x ∈ placedGroups p <-> x ∈ reordered p)
  /\ (forall x, x ∈ reordered p -> x ∈ groupIndices).

(** Every entry of [fileToGroups] lists groups of the page. *)
Definition entriesFrom (groupIndices : list nat)
  (fileToGroups : gmap string (list nat)) : Prop :=
  forall filename l x,
    fileToGroups !! filename = Some l -> x ∈ l -> x ∈ groupIndices.

(** The record is a member of some group of the page. *)
Definition onPage (groups : list Group) (groupsInPage : list nat)
  (filename : string) : Prop :=
  exists gi g, gi ∈ groupsInPage /\ groups !! gi = Some g /\ filename ∈ files g.

(** The record is checked in some group of the page that contains it. *)
Definition checkedSomewhere (groups : list Group) (sel : Selections)
  (groupsInPage : list nat) (filename : string) : Prop :=
  exists gi g, gi ∈ groupsInPage /\ groups !! gi = Some g
    /\ filename ∈ files g /\ selectionOf sel gi filename = Some true.

(** The priority entry the heuristic gives an unknown file: its cached
    metadata, or no year and the number read from its name. *)
Definition priorityOf (metadata : gmap string McqMeta) (filename : string)
  : McqMeta :=
  match metadata !! filename with
  | Some cached => {| hasYear := hasYear cached; fileNum := fileNum cached |}
  | None => {| hasYear := false; fileNum := fileNumOfName filename |}
  end.

(** The rank key (hasYear descending, fileNum ascending): [a] is ranked at
    least as high as [b]. *)
Definition ranksAtLeast (a b : McqMeta) : Prop :=
  (hasYear a = true /\ hasYear b = false)
  \/ (hasYear a = hasYear b /\ fileNum a <= fileNum b).

(** The files of a call whose status is unknown, in the order of the call. *)
Definition unknownsOf (fileStatuses : gmap string FileStatus)
  (files_ : list string) : list string :=
  List.filter (fun f => bool_decide (statusOf fileStatuses f = unknown)) files_.

(** The record holds value [b] in some group of the page that contains it
    (its selection there, or the checked state of the status context when
    that group has no selection for it). *)
Definition holdsValue (groups : list Group)
  (fileStatuses : gmap string FileStatus) (sel : Selections)
  (groupsInPage : list nat) (filename : string) (b : bool) : Prop :=
  exists gi g, gi ∈ groupsInPage /\ groups !! gi = Some g
    /\ filename ∈ files g
    /\ isCheckedIn fileStatuses (default ∅ (sel !! gi)) filename = b.

(** The size of the bucket of a level. *)
Definition bucketSize (grouped : Grouped) (level : Q) : nat :=
  length (groupsInLevel grouped level).

(** [b] is among the states recorded for [f]. *)
Definition recorded (fileStates : gmap string (gset bool)) (f : string)
  (b : bool) : Prop :=
  exists states, fileStates !! f = Some states /\ b ∈ states.


(** ** Example data *)

Definition physicsSession : SessionState :=
  withCheckedFiles {[ "12.json" := true ]} (freshSession "physics" 1).

Definition chemistrySession : SessionState := freshSession "chemistry" 2.


Definition mkGroup (fs : list string) (sim : Q) : Group :=
  {| files := fs; max_similarity := sim; similarities := [] |}.

(** 50 groups at level 100.0 followed by 80 groups at level 99.9. *)
Definition groups_50_80 : list Group :=
  replicate 50 (mkGroup ["a.json"; "b.json"] 1)
  ++ replicate 80 (mkGroup ["c.json"; "d.json"] 0.999).

(** Four groups; the first and the third share a file. *)
Definition groups_shared : list Group :=
  [ mkGroup ["1.json"; "2.json"] 0.999;
    mkGroup ["3.json"; "4.json"] 0.999;
    mkGroup ["2.json"; "5.json"] 0.998;
    mkGroup ["6.json"; "7.json"] 0.998 ].

(** Selections for [groups_shared]: file 2.json is checked in group 2
    only, file 1.json nowhere. *)
Definition sel_shared : Selections :=
  {[ 0%nat := {[ "1.json" := false; "2.json" := false ]};
     1%nat := {[ "3.json" := true; "4.json" := false ]};
     2%nat := {[ "2.json" := true; "5.json" := false ]};
     3%nat := {[ "6.json" := true; "7.json" := false ]} ]}.

(** Three unknown files; only 3.json carries a year. *)
Definition files_three : list string := ["2.json"; "3.json"; "1.json"].

Definition metadata_three : gmap string McqMeta :=
  {[ "3.json" := {| hasYear := true; fileNum := 3 |};
     "1.json" := {| hasYear := false; fileNum := 1 |} ]}.

(** Statuses for [groups_shared]: 2.json is saved, 5.json is removed. *)
Definition statuses_shared : gmap string FileStatus :=
  {[ "2.json" := {| status := saved; checked := true |};
     "5.json" := {| status := removed; checked := false |} ]}.

(** A state of the review of [groups_shared] for subject "physics". *)
Definition state_shared : ReviewState :=
  {| userModifiedFiles := ∅;
     autoSelections := sel_shared;
     localStorage := saveSession 10 physicsSession ∅ |}.

(** * Further parts of the front end *)

(** ** Session store, continued (frontend/lib/storage.ts) *)

(** [storage.markGroupCompleted(subject, groupIndex)] *)
Definition markGroupCompleted (now : Z) (subj : string) (groupIndex : nat)
  (ls : LocalStorage) : LocalStorage :=
  match loadSession subj ls with
  | Some session =>
      let completed :=
        if decide (groupIndex ∈ completedGroups session)
        then completedGroups session
        else completedGroups session ++ [groupIndex] in
      saveSession now
        {| subject := subject session;
           currentGroupIndex := groupIndex + 1;
           completedGroups := completed;
           checkedFiles := checkedFiles session;
           similarityRangeStart := similarityRangeStart session;
           similarityRangeEnd := similarityRangeEnd session;
           maxGroupsPerPage := maxGroupsPerPage session;
           targetGroupsPerPage := targetGroupsPerPage session;
           isManualRange := isManualRange session;
           mcqMetadata := mcqMetadata session;
           lastUpdated := lastUpdated session |}
        ls
  | None => ls
  end.

(** [storage.updateMCQMetadata(subject, metadata)]: the spread
    [{ ...session.mcqMetadata, ...metadata }] lets the new entries win. *)
Definition updateMCQMetadata (now : Z) (subj : string)
  (metadata : gmap string McqMeta) (ls : LocalStorage) : LocalStorage :=
  let session :=
    match loadSession subj ls with
    | Some session => session
    | None => freshSession subj now
    end in
  saveSession now
    {| subject := subject session;
       currentGroupIndex := currentGroupIndex session;
       completedGroups := completedGroups session;
       checkedFiles := checkedFiles session;
       similarityRangeStart := similarityRangeStart session;
       similarityRangeEnd := similarityRangeEnd session;
       maxGroupsPerPage := maxGroupsPerPage session;
       targetGroupsPerPage := targetGroupsPerPage session;
       isManualRange := isManualRange session;
       mcqMetadata := Some (metadata ∪ default ∅ (mcqMetadata session));
       lastUpdated := lastUpdated session |}
    ls.

(** [session?.mcqMetadata || {}], as the recomputation effect reads it. *)
Definition storedMetadata (subj : string) (ls : LocalStorage)
  : gmap string McqMeta :=
  match loadSession subj ls with
  | Some session => default ∅ (mcqMetadata session)
  | None => ∅
  end.

(** ** Range state and navigation (SimilarityGroupView.tsx) *)

(** The result of [loadSavedRange()]. *)
Record SavedRange := {
  saved_start : Q;
  saved_end : Q;
  saved_isManual : bool;
  saved_targetGroups : Q;
  hasSaved : bool
}.

(** [loadSavedRange()] *)
Definition loadSavedRange (subj : string) (ls : LocalStorage) : SavedRange :=
  let fallback :=
    {| saved_start := 100.0; saved_end := 99.9; saved_isManual := false;
       saved_targetGroups := 100; hasSaved := false |} in
  match loadSession subj ls with
  | Some session =>
      match similarityRangeStart session, similarityRangeEnd session with
      | Some s, Some e =>
          {| saved_start := s; saved_end := e;
             saved_isManual := default false (isManualRange session);
             saved_targetGroups := default 100%Q (targetGroupsPerPage session);
             hasSaved := true |}
      | _, _ => fallback
      end
  | None => fallback
  end.

(** The range state of the component. *)
Record PageState := {
  rangeStart : Q;
  rangeEnd : Q;
  pageHistory : list Range;
  manualRange : bool;
  pageCompleted : bool
}.

(** [Math.abs] *)
Definition Math_abs (x : Q) : Q := if Qltb x 0 then (- x)%Q else x.

(** [Math.abs(a - b) < 0.01] *)
Definition nearlyEqual (a b : Q) : bool := Qltb (Math_abs (a - b)) 0.01.

(** The first level strictly below [bound], if any. *)
Fixpoint firstLevelBelow (bound : Q) (levels : list Q) : option Q :=
  match levels with
  | [] => None
  | level :: rest =>
      if Qltb level bound then Some level else firstLevelBelow bound rest
  end.

(** The search of [goToNextPage] for the lowest level of a group below the
    end of the range and below [minLevel]. *)
Fixpoint lowestAvailableLevel (similarityRangeEnd : Q) (gs : list Group)
  (nextAvailableLevel : Q) : Q :=
  match gs with
  | [] => nextAvailableLevel
  | group :: rest =>
      let rounded := roundedSimilarity group in
      if Qltb rounded similarityRangeEnd && Qltb rounded nextAvailableLevel
      then lowestAvailableLevel similarityRangeEnd rest rounded
      else lowestAvailableLevel similarityRangeEnd rest nextAvailableLevel
  end.

(** [hasPreviousPage()] *)
Definition hasPreviousPage (st : PageState) : bool :=
  bool_decide (0 < length (pageHistory st))%nat.

(** [goToNextPage()] *)
Definition goToNextPage (groups : list Group) (idx : GroupIndex)
  (target : Q) (st : PageState) : PageState :=
  if negb (hasNextPage groups idx (rangeStart st) (rangeEnd st)) then st
  else
    let levels := similarityLevels idx in
    let history :=
      pageHistory st ++ [{| start := rangeStart st; end_ := rangeEnd st |}] in
    let minLevel :=
      if bool_decide (0 < length levels)%nat then lastLevel levels else 85.0%Q in
    let nextStart1 :=
      if nearlyEqual (rangeStart st) (rangeEnd st)
      then default (rangeEnd st) (firstLevelBelow (rangeEnd st) levels)
      else rangeEnd st in
    let proceed (nextStart : Q) : PageState :=
      let nextRange :=
        calculateRangeFromTargetGroups groups idx nextStart target in
      let nextEnd :=
        if Qltb (end_ nextRange) minLevel then minLevel else end_ nextRange in
      {| rangeStart := start nextRange;
         rangeEnd := nextEnd;
         pageHistory := history;
         manualRange := false;
         pageCompleted := false |} in
    if nearlyEqual (rangeEnd st) minLevel then
      let nextAvailableLevel :=
        lowestAvailableLevel (rangeEnd st) groups minLevel in
      if Qltb nextAvailableLevel minLevel then proceed nextAvailableLevel
      else
        {| rangeStart := rangeStart st;
           rangeEnd := rangeEnd st;
           pageHistory := history;
           manualRange := manualRange st;
           pageCompleted := pageCompleted st |}
    else proceed nextStart1.

(** [goToPreviousPage()] *)
Definition goToPreviousPage (st : PageState) : PageState :=
  if negb (hasPreviousPage st) then st
  else
    match last (pageHistory st) with
    | None => st
    | Some previousPage =>
        {| rangeStart := start previousPage;
           rangeEnd := end_ previousPage;
           pageHistory := removelast (pageHistory st);
           manualRange := manualRange st;
           pageCompleted := false |}
    end.

(** The common body of [jumpToMin] and [jumpToMax]. *)
Definition jumpTo (groups : list Group) (idx : GroupIndex) (target : Q)
  (level : Q) (st : PageState) : PageState :=
  let range := calculateRangeFromTargetGroups groups idx level target in
  {| rangeStart := start range;
     rangeEnd := end_ range;
     pageHistory := [];
     manualRange := manualRange st;
     pageCompleted := false |}.

(** [jumpToMin()] *)
Definition jumpToMin (groups : list Group) (idx : GroupIndex) (target : Q)
  (st : PageState) : PageState :=
  if bool_decide (0 < length (similarityLevels idx))%nat
  then jumpTo groups idx target (lastLevel (similarityLevels idx)) st
  else st.

(** [jumpToMax()] *)
Definition jumpToMax (groups : list Group) (idx : GroupIndex) (target : Q)
  (st : PageState) : PageState :=
  match similarityLevels idx with
  | maxLevel :: _ => jumpTo groups idx target maxLevel st
  | [] => st
  end.

(** What every manual adjustment of the range does besides moving one
    end: [setIsManualRange(true); setPageHistory([]); setPageCompleted(false)]. *)
Definition manualEdit (newStart newEnd : Q) : PageState :=
  {| rangeStart := newStart;
     rangeEnd := newEnd;
     pageHistory := [];
     manualRange := true;
     pageCompleted := false |}.

(** [Math.max] and [Math.min] of two numbers. *)
Definition Math_max (a b : Q) : Q := if Qleb a b then b else a.
Definition Math_min (a b : Q) : Q := if Qleb a b then a else b.

(** The buttons that lower and raise the start ([delta] is 0.01 or 0.1).
    The sum and the difference are exact here and rounded to a double in
    the code (99.9 - 0.1 is 99.80000000000001 there); the bounds that
    [Math.max] and [Math.min] put on them are the same. *)
Definition decreaseStart (delta : Q) (st : PageState) : PageState :=
  manualEdit (Math_max (rangeEnd st) (rangeStart st - delta)) (rangeEnd st).

Definition increaseStart (idx : GroupIndex) (delta : Q) (st : PageState)
  : PageState :=
  manualEdit
    (Math_min (default 0%Q (similarityLevels idx !! 0%nat)) (rangeStart st + delta))
    (rangeEnd st).

(** The buttons that lower and raise the end. *)
Definition decreaseEnd (idx : GroupIndex) (delta : Q) (st : PageState)
  : PageState :=
  manualEdit (rangeStart st)
    (Math_max (lastLevel (similarityLevels idx)) (rangeEnd st - delta)).

Definition increaseEnd (delta : Q) (st : PageState) : PageState :=
  manualEdit (rangeStart st) (Math_min (rangeStart st) (rangeEnd st + delta)).

(** ** Preview of a submission: [calculateLiveCounts] *)

(** The single pass that determines the final state of each file; reading
    [groups[groupIndex].files] of a missing group throws ([None]). *)
Definition liveFinalStep (selections : gmap string bool)
  (fileFinalStates : gmap string bool) (filename : string)
  : gmap string bool :=
  let isChecked := default false (selections !! filename) in
  if isChecked then <[filename := true]> fileFinalStates
  else if decide (is_Some (fileFinalStates !! filename)) then fileFinalStates
  else <[filename := false]> fileFinalStates.

Definition liveFinalStates (groups : list Group) (autoSelections_ : Selections)
  (groupsInPage : list nat) : option (gmap string bool) :=
  foldl (fun acc groupIndex =>
           fileFinalStates ← acc;
           group ← groups !! groupIndex;
           let selections := default ∅ (autoSelections_ !! groupIndex) in
           Some (foldl (liveFinalStep selections) fileFinalStates
                   (files group)))
        (Some ∅) groupsInPage.

(** [{ willMoveToSaved, willMoveToRemoved }] *)
Record LiveCounts := {
  willMoveToSaved : nat;
  willMoveToRemoved : nat
}.

(** [filesToSave] and [filesToRemove] *)
Definition filesToSave (fileStatuses : gmap string FileStatus)
  (fileFinalStates : gmap string bool) : gset string :=
  dom (filter (fun kv => kv.2 = true /\ statusOf fileStatuses kv.1 = removed)
         fileFinalStates).

Definition filesToRemove (fileStatuses : gmap string FileStatus)
  (fileFinalStates : gmap string bool) : gset string :=
  dom (filter (fun kv => kv.2 = false /\ statusOf fileStatuses kv.1 = saved)
         fileFinalStates).

(** [calculateLiveCounts()] *)
Definition calculateLiveCounts (groups : list Group)
  (fileStatuses : gmap string FileStatus) (autoSelections_ : Selections)
  (similarityRangeStart similarityRangeEnd : Q) : option LiveCounts :=
  fileFinalStates ←
    liveFinalStates groups autoSelections_
      (getGroupsForCurrentPage groups similarityRangeStart similarityRangeEnd);
  Some {| willMoveToSaved := size (filesToSave fileStatuses fileFinalStates);
          willMoveToRemoved :=
            size (filesToRemove fileStatuses fileFinalStates) |}.

(** ** The status context after a submission *)

(** The updater of [setFileStatus(filename, { status, checked })]; the
    spread keeps the fields of the entry that are outside the model. *)
Definition setFileStatus (filename : string) (st : FileStatus)
  (fileStatuses : gmap string FileStatus) : gmap string FileStatus :=
  <[filename := st]> fileStatuses.

(** The updater of [setFileChecked(filename, checked)]: nothing for a file
    without an entry. *)
Definition setFileCheckedState (filename : string) (chk : bool)
  (fileStatuses : gmap string FileStatus) : gmap string FileStatus :=
  match fileStatuses !! filename with
  | None => fileStatuses
  | Some fileStatus =>
      <[filename := {| status := status fileStatus; checked := chk |}]>
        fileStatuses
  end.

(** The status context together with the store, which [setFileChecked]
    writes as well. *)
Record ContextState := {
  ctxStatuses : gmap string FileStatus;
  ctxStorage : LocalStorage
}.

(** [fileStatusContext.setFileChecked(filename, checked)] *)
Definition setFileChecked (now : Z) (subj : string) (filename : string)
  (chk : bool) (ctx : ContextState) : ContextState :=
  {| ctxStatuses := setFileCheckedState filename chk (ctxStatuses ctx);
     ctxStorage := updateCheckedFiles now subj filename chk (ctxStorage ctx) |}.

(** The loop of [processGroup] that follows a successful request; the
    final state of every file of a group of the page is defined. *)
Definition recordSubmitted (now : Z) (subj : string)
  (fileFinalStates : gmap string bool) (group : Group) (ctx : ContextState)
  : ContextState :=
  foldl (fun ctx filename =>
           let finalState :=
             bool_decide (fileFinalStates !! filename = Some true) in
           setFileChecked now subj filename finalState
             {| ctxStatuses :=
                  setFileStatus filename
                    (submittedStatus fileFinalStates filename)
                    (ctxStatuses ctx);
                ctxStorage := ctxStorage ctx |})
        ctx (files group).

(** The context after the groups listed in [order] have been submitted,
    in the order in which their requests completed. *)
Definition recordSubmissions (now : Z) (subj : string) (groups : list Group)
  (fileFinalStates : gmap string bool) (order : list nat)
  (ctx : ContextState) : ContextState :=
  foldl (fun ctx groupIndex =>
           match groups !! groupIndex with
           | Some group => recordSubmitted now subj fileFinalStates group ctx
           | None => ctx
           end) ctx order.

(** ** Batches of a submission *)

(** [totalGroups > 505 ? 30 : 5] *)
Definition batchSizeFor (totalGroups : nat) : nat :=
  if bool_decide (505 < totalGroups)%nat then 30%nat else 5%nat.

(** [for (let i = 0; i < groupsInPage.length; i += batchSize)] with
    [groupsInPage.slice(i, i + batchSize)]; [fuel] bounds the number of
    rounds. *)
Fixpoint batchesFrom (fuel : nat) (batchSize i : nat) (groupsInPage : list nat)
  : list (list nat) :=
  match fuel with
  | O => []
  | S fuel' =>
      if bool_decide (i < length groupsInPage)%nat
      then take batchSize (drop i groupsInPage)
           :: batchesFrom fuel' batchSize (i + batchSize) groupsInPage
      else []
  end.

(** The batches of [handleConfirmSubmitAll]; the loop makes at most one
    round per group. *)
Definition submissionBatches (groupsInPage : list nat) : list (list nat) :=
  batchesFrom (length groupsInPage) (batchSizeFor (length groupsInPage)) 0
    groupsInPage.

(** ** Vocabulary of the further properties *)

(** The indices grow strictly. *)
Definition increasing (l : list nat) : Prop :=
  StronglySorted (fun a b => (a < b)%nat) l.

(** The levels fall strictly. *)
Definition strictlyDescending (levels : list Q) : Prop :=
  StronglySorted (fun a b => (b < a)%Q) levels.

(** The range of a navigation state. *)
Definition rangeOf (st : PageState) : Range :=
  {| start := rangeStart st; end_ := rangeEnd st |}.

(** The range lies between the lowest and the highest level, with its end
    not above its start. *)
Definition withinLevels (levels : list Q) (st : PageState) : Prop :=
  (rangeEnd st <= rangeStart st)%Q
  /\ (lastLevel levels <= rangeEnd st)%Q
  /\ exists maxLevel,
       levels !! 0%nat = Some maxLevel /\ (rangeStart st <= maxLevel)%Q.

(** Some file is listed by both groups. *)
Definition shareFile (g1 g2 : Group) : Prop :=
  exists f, f ∈ files g1 /\ f ∈ files g2.

(** Example data: a stored session with a saved range. *)
Definition storage_with_range : LocalStorage :=
  saveRangeEffect 20 "physics" 99.5 98.7 200 true
    (saveSession 10 physicsSession ∅).

(** Example data: a navigation state over [groups_50_80]. *)
Definition state_first_page : PageState :=
  {| rangeStart := 100.0; rangeEnd := 100.0; pageHistory := [];
     manualRange := false; pageCompleted := true |}.

(** Example data: the status context over [statuses_shared] with a stored
    session, and final states for two files. *)
Definition context_shared : ContextState :=
  {| ctxStatuses := statuses_shared;
     ctxStorage := saveSession 10 physicsSession ∅ |}.

Definition final_two : gmap string bool :=
  {[ "2.json" := true; "5.json" := false ]}.
(** * Properties *)

(** ** Comparisons *)

Lemma Qleb_le a b : Qleb a b = true <-> (a <= b)%Q.
Proof. apply Qle_bool_iff. Qed.

Lemma Qleb_gt a b : Qleb a b = false <-> (b < a)%Q.
Proof.
  unfold Qleb. split; intros H.
  - apply Qnot_le_lt. intros Hle. apply Qle_bool_iff in Hle. congruence.
  - destruct (Qle_bool a b) eqn:E; [|done].
    apply Qle_bool_iff in E. lra.
Qed.

Lemma Qltb_lt a b : Qltb a b = true <-> (a < b)%Q.
Proof.
  unfold Qltb. rewrite negb_true_iff. apply Qleb_gt.
Qed.

Lemma Qltb_ge a b : Qltb a b = false <-> (b <= a)%Q.
Proof.
  unfold Qltb. rewrite negb_false_iff. apply Qle_bool_iff.
Qed.

(** ** Session store *)

Section SessionStore.

Lemma loadSession_subject subj ls s :
  loadSession subj ls = Some s -> subject s = subj.
Proof.
  unfold loadSession. destruct (ls !! STORAGE_KEY) as [session|]; [|done].
  case_decide; congruence.
Qed.

Lemma loadSession_saveSession now s ls :
  loadSession (subject s) (saveSession now s ls) = Some (stamp now s).
Proof.
  unfold loadSession, saveSession. rewrite lookup_insert_eq. simpl.
  case_decide; congruence.
Qed.

Lemma loadSession_saveSession_other now s ls subj :
  subj <> subject s -> loadSession subj (saveSession now s ls) = None.
Proof.
  intros Hne. unfold loadSession, saveSession. rewrite lookup_insert_eq.
  simpl. case_decide; congruence.
Qed.

End SessionStore.

(** *** C7: one slot, not one record per subject *)

(** C7 does not hold as stated: subject "physics" saves its session,
    then subject "chemistry" saves one; loading "physics" afterwards gives
    nothing, although it gave the saved session before. *)
Lemma C7_save_other_subject_loses_session :
  "physics" <> "chemistry"
  /\ loadSession "physics" (saveSession 10 physicsSession ∅)
     = Some (stamp 10 physicsSession)
  /\ loadSession "physics"
       (saveSession 20 chemistrySession (saveSession 10 physicsSession ∅))
     = None.
Proof. split; [discriminate | split; reflexivity]. Qed.

(** C7, amended: the store holds a single session.  After a save for
    subject B, loading B returns the saved session (stamped with the time
    of the save), loading any other subject A returns nothing whatever was
    stored before, and a load never returns a session of another subject. *)
Theorem C7_single_slot_store :
  forall (now : Z) (sB : SessionState) (ls : LocalStorage) (A : string),
    loadSession (subject sB) (saveSession now sB ls) = Some (stamp now sB)
    /\ (A <> subject sB -> loadSession A (saveSession now sB ls) = None)
    /\ (forall s, loadSession A ls = Some s -> subject s = A).
Proof.
  intros now sB ls A. split; [|split].
  - apply loadSession_saveSession.
  - apply loadSession_saveSession_other.
  - intros s. apply loadSession_subject.
Qed.

Lemma C7_single_slot_store_witness :
  loadSession "physics" (saveSession 20 chemistrySession ∅) = None
  /\ subject (stamp 10 physicsSession) = "physics".
Proof.
  destruct (C7_single_slot_store 20 chemistrySession
              (saveSession 10 physicsSession ∅) "physics") as (_ & Hother & Hown).
  split.
  - apply (C7_single_slot_store 20 chemistrySession ∅ "physics").
    discriminate.
  - apply Hown. reflexivity.
Defined.

(** ** Sorting *)

Section Sorting.

Context {A : Type} (le : A -> A -> bool).

Lemma sort_insert_perm x l : sort_insert le x l ≡ₚ x :: l.
Proof.
  induction l as [|y l IH]; simpl; [done|].
  destruct (le x y); [done|].
  rewrite IH. apply Permutation_swap.
Qed.

Lemma js_sort_perm l : js_sort le l ≡ₚ l.
Proof.
  induction l as [|x l IH]; simpl; [done|].
  rewrite sort_insert_perm. by rewrite IH.
Qed.

Lemma js_sort_length l : length (js_sort le l) = length l.
Proof. apply Permutation_length, js_sort_perm. Qed.

Lemma elem_of_js_sort x l : x ∈ js_sort le l <-> x ∈ l.
Proof. by rewrite js_sort_perm. Qed.

Hypothesis le_total : forall a b, le a b = true \/ le b a = true.
Hypothesis le_trans : forall a b c, le a b = true -> le b c = true -> le a c = true.

Lemma sort_insert_sorted x l :
  StronglySorted (fun a b => le a b = true) l ->
  StronglySorted (fun a b => le a b = true) (sort_insert le x l).
Proof.
  induction 1 as [|y l Hs IH Hall]; simpl.
  - repeat constructor.
  - destruct (le x y) eqn:E.
    + constructor; [by constructor|].
      constructor; [done|].
      eapply Forall_impl; [exact Hall|]. intros z Hz. by eapply le_trans.
    + constructor; [done|].
      rewrite sort_insert_perm. constructor; [|done].
      destruct (le_total x y); congruence.
Qed.

Lemma js_sort_sorted l :
  StronglySorted (fun a b => le a b = true) (js_sort le l).
Proof.
  induction l as [|x l IH]; simpl; [constructor|].
  by apply sort_insert_sorted.
Qed.

End Sorting.

Lemma sorted_last_least {A} (R : A -> A -> Prop) (l : list A) (m x : A) :
  StronglySorted R l -> last l = Some m -> x ∈ l -> x = m \/ R x m.
Proof.
  induction 1 as [|y l Hs IH Hall]; intros Hlast Hin; [by inversion Hin|].
  destruct l as [|z l'].
  - simpl in Hlast. inversion Hlast; subst.
    apply list_elem_of_singleton in Hin. by left.
  - rewrite last_cons_cons in Hlast.
    apply elem_of_cons in Hin as [->|Hin]; [|by apply IH].
    right. rewrite Forall_forall in Hall. apply Hall.
    apply last_Some_elem_of in Hlast. done.
Qed.

Lemma descending_total a b : descending a b = true \/ descending b a = true.
Proof.
  unfold descending. rewrite !Qleb_le.
  destruct (Qlt_le_dec a b); [right|left]; lra.
Qed.

Lemma descending_trans a b c :
  descending a b = true -> descending b c = true -> descending a c = true.
Proof. unfold descending. rewrite !Qleb_le. lra. Qed.

Lemma descending_le a b : descending a b = true <-> (b <= a)%Q.
Proof. unfold descending. rewrite Qleb_le. split; lra. Qed.

(** ** Group index *)

Lemma inRange_test start_ end_ g :
  Qleb (roundedSimilarity g) start_ && Qleb end_ (roundedSimilarity g) = true
  <-> inRange start_ end_ g.
Proof.
  unfold inRange. rewrite andb_true_iff, !Qleb_le. tauto.
Qed.

Section GroupsInRange.

Variables start_ end_ : Q.

Lemma elem_of_groupsInRangeFrom gs i acc x :
  x ∈ groupsInRangeFrom start_ end_ None gs i acc <->
  x ∈ acc \/ exists k g, gs !! k = Some g /\ x = (i + k)%nat
                         /\ inRange start_ end_ g.
Proof.
  revert i acc. induction gs as [|g gs IH]; intros i acc; simpl.
  - split; [by left|]. intros [H|(k & g & Hk & _)]; [done|].
    by rewrite lookup_nil in Hk.
  - destruct (Qleb (roundedSimilarity g) start_
              && Qleb end_ (roundedSimilarity g)) eqn:E; simpl.
    + apply inRange_test in E. rewrite IH, elem_of_app, list_elem_of_singleton.
      split.
      * intros [[H| ->]|(k & g' & Hk & -> & Hr)]; [by left| |].
        -- right. exists 0%nat, g. split; [done|]. split; [lia|done].
        -- right. exists (S k), g'. split; [done|]. split; [lia|done].
      * intros [H|(k & g' & Hk & -> & Hr)]; [by left; left|].
        destruct k as [|k]; simpl in Hk.
        -- left; right. lia.
        -- right. exists k, g'. split; [done|]. split; [lia|done].
    + rewrite IH. split.
      * intros [H|(k & g' & Hk & -> & Hr)]; [by left|].
        right. exists (S k), g'. split; [done|]. split; [lia|done].
      * intros [H|(k & g' & Hk & -> & Hr)]; [by left|].
        destruct k as [|k]; simpl in Hk.
        -- inversion Hk; subst. apply inRange_test in Hr. congruence.
        -- right. exists k, g'. split; [done|]. split; [lia|done].
Qed.

Lemma NoDup_groupsInRangeFrom gs i acc :
  NoDup acc -> (forall x, x ∈ acc -> (x < i)%nat) ->
  NoDup (groupsInRangeFrom start_ end_ None gs i acc).
Proof.
  revert i acc. induction gs as [|g gs IH]; intros i acc Hnd Hlt; simpl; [done|].
  destruct (Qleb (roundedSimilarity g) start_
            && Qleb end_ (roundedSimilarity g)); simpl.
  - apply IH.
    + apply NoDup_app. split; [done|]. split; [|apply NoDup_singleton].
      intros x Hx Hx'. apply list_elem_of_singleton in Hx' as ->.
      apply Hlt in Hx. lia.
    + intros x [Hx|Hx]%elem_of_app.
      * apply Hlt in Hx. lia.
      * apply list_elem_of_singleton in Hx. lia.
  - apply IH; [done|]. intros x Hx. apply Hlt in Hx. lia.
Qed.

Lemma elem_of_calculateGroupsInRange groups x :
  x ∈ calculateGroupsInRange groups start_ end_ None <->
  exists g, groups !! x = Some g /\ inRange start_ end_ g.
Proof.
  unfold calculateGroupsInRange. rewrite elem_of_groupsInRangeFrom. split.
  - intros [H|(k & g & Hk & -> & Hr)]; [by inversion H|]. by exists g.
  - intros (g & Hg & Hr). right. by exists x, g.
Qed.

Lemma NoDup_calculateGroupsInRange groups :
  NoDup (calculateGroupsInRange groups start_ end_ None).
Proof.
  apply NoDup_groupsInRangeFrom; [constructor|]. intros x H. by inversion H.
Qed.

End GroupsInRange.

Lemma elem_of_page groups start_ end_ x :
  x ∈ getGroupsForCurrentPage groups start_ end_ <->
  exists g, groups !! x = Some g /\ inRange start_ end_ g.
Proof. apply elem_of_calculateGroupsInRange. Qed.

Lemma NoDup_page groups start_ end_ :
  NoDup (getGroupsForCurrentPage groups start_ end_).
Proof. apply NoDup_calculateGroupsInRange. Qed.

Lemma page_lookup groups start_ end_ x :
  x ∈ getGroupsForCurrentPage groups start_ end_ -> is_Some (groups !! x).
Proof. intros (g & Hg & _)%elem_of_page. by exists g. Qed.

Lemma pushIndex_keys key index grouped k :
  k ∈ (pushIndex key index grouped).*1 -> k ∈ grouped.*1 \/ k = key.
Proof.
  induction grouped as [|[k' is'] rest IH]; simpl.
  - intros ->%list_elem_of_singleton. by right.
  - destruct (Qeq_bool k' key); simpl.
    + intros H. by left.
    + intros [->|H]%elem_of_cons; [left; by left|].
      destruct (IH H) as [H'|H']; [left; by right|by right].
Qed.

Lemma pushIndex_nonempty key index grouped : pushIndex key index grouped <> [].
Proof.
  destruct grouped as [|[k' is'] rest]; simpl; [done|].
  by destruct (Qeq_bool k' key).
Qed.

Lemma groupBySimilarity_keys gs index grouped k :
  k ∈ (groupBySimilarity gs index grouped).*1 ->
  k ∈ grouped.*1 \/ exists g, g ∈ gs /\ k = roundedSimilarity g.
Proof.
  revert index grouped. induction gs as [|g gs IH]; intros index grouped; simpl.
  - by left.
  - intros [H|(g' & Hg' & ->)]%IH.
    + apply pushIndex_keys in H as [H| ->]; [by left|].
      right. exists g. split; [by left|done].
    + right. exists g'. split; [by right|done].
Qed.

Lemma groupBySimilarity_nonempty gs index grouped :
  grouped <> [] -> groupBySimilarity gs index grouped <> [].
Proof.
  revert index grouped. induction gs as [|g gs IH]; intros index grouped H;
    simpl; [done|].
  apply IH, pushIndex_nonempty.
Qed.

Lemma levels_nonempty groups :
  groups <> [] -> similarityLevels (initializeGroups groups) <> [].
Proof.
  intros H. unfold initializeGroups. simpl.
  destruct groups as [|g gs]; [done|]. simpl.
  intros Hnil. apply (f_equal length) in Hnil.
  rewrite js_sort_length, length_fmap in Hnil. simpl in Hnil.
  apply length_zero_iff_nil in Hnil. revert Hnil.
  apply groupBySimilarity_nonempty. done.
Qed.

Lemma levels_of_groups groups level :
  level ∈ similarityLevels (initializeGroups groups) ->
  exists g, g ∈ groups /\ level = roundedSimilarity g.
Proof.
  unfold initializeGroups. simpl. rewrite elem_of_js_sort.
  intros [H|H]%groupBySimilarity_keys; [by inversion H|done].
Qed.

Lemma pushIndex_has_key key index grouped :
  exists k, k ∈ (pushIndex key index grouped).*1 /\ (k == key)%Q.
Proof.
  induction grouped as [|[k' is'] rest IH]; simpl.
  - exists key. split; [by left|reflexivity].
  - destruct (Qeq_bool k' key) eqn:E; simpl.
    + exists k'. split; [by left|]. by apply Qeq_bool_iff.
    + destruct IH as (k & Hk & Heq). exists k. split; [by right|done].
Qed.

Lemma pushIndex_keeps key index grouped k :
  k ∈ grouped.*1 -> k ∈ (pushIndex key index grouped).*1.
Proof.
  induction grouped as [|[k' is'] rest IH]; simpl; [by inversion 1|].
  destruct (Qeq_bool k' key); simpl; [done|].
  intros [->|H]%elem_of_cons; [by left|right; by apply IH].
Qed.

Lemma groupBySimilarity_keeps gs index grouped k :
  k ∈ grouped.*1 -> k ∈ (groupBySimilarity gs index grouped).*1.
Proof.
  revert index grouped. induction gs as [|g gs IH]; intros index grouped H;
    simpl; [done|].
  by apply IH, pushIndex_keeps.
Qed.

Lemma groupBySimilarity_has_key gs index grouped g :
  g ∈ gs ->
  exists k, k ∈ (groupBySimilarity gs index grouped).*1
            /\ (k == roundedSimilarity g)%Q.
Proof.
  revert index grouped. induction gs as [|g' gs IH]; intros index grouped;
    [by inversion 1|].
  intros [->|H]%elem_of_cons; simpl; [|by apply IH].
  destruct (pushIndex_has_key (roundedSimilarity g') index grouped)
    as (k & Hk & Heq).
  exists k. split; [|done]. by apply groupBySimilarity_keeps.
Qed.

Lemma levels_complete groups g :
  g ∈ groups ->
  exists level, level ∈ similarityLevels (initializeGroups groups)
                /\ (level == roundedSimilarity g)%Q.
Proof.
  intros H. unfold initializeGroups. simpl.
  destruct (groupBySimilarity_has_key groups 0 [] g H) as (k & Hk & Heq).
  exists k. split; [|done]. by apply elem_of_js_sort.
Qed.

Lemma levels_sorted groups :
  StronglySorted (fun a b => descending a b = true)
    (similarityLevels (initializeGroups groups)).
Proof.
  unfold initializeGroups. simpl.
  apply js_sort_sorted; [apply descending_total|apply descending_trans].
Qed.

Lemma lastLevel_last levels :
  levels <> [] -> last levels = Some (lastLevel levels).
Proof.
  intros H. unfold lastLevel. destruct (last levels) eqn:E; [done|].
  by apply last_None in E.
Qed.

(** The lowest level is the level of some group and lies below the level
    of every group. *)
Lemma lastLevel_is_level groups :
  groups <> [] ->
  exists g, g ∈ groups
    /\ lastLevel (similarityLevels (initializeGroups groups))
       = roundedSimilarity g.
Proof.
  intros H. apply levels_of_groups, last_Some_elem_of, lastLevel_last.
  by apply levels_nonempty.
Qed.

Lemma lastLevel_least groups g :
  g ∈ groups ->
  (lastLevel (similarityLevels (initializeGroups groups))
   <= roundedSimilarity g)%Q.
Proof.
  intros Hg.
  assert (Hne : groups <> []) by (intros ->; inversion Hg).
  destruct (levels_complete groups g Hg) as (level & Hin & Heq).
  pose proof (lastLevel_last _ (levels_nonempty groups Hne)) as Hlast.
  destruct (sorted_last_least _ _ _ level (levels_sorted groups) Hlast Hin)
    as [->|Hd].
  - rewrite Heq. apply Qle_refl.
  - apply descending_le in Hd. by rewrite <- Heq.
Qed.

(** ** C1: [hasNextPage] *)

Lemma lowerGroupOutside_true page end_ gs i :
  lowerGroupOutside page end_ gs i = true <->
  exists k g, gs !! k = Some g /\ ((i + k)%nat ∉ page)
              /\ (roundedSimilarity g < end_)%Q.
Proof.
  revert i. induction gs as [|g gs IH]; intros i; simpl.
  - split; [done|]. intros (k & g & Hk & _). by rewrite lookup_nil in Hk.
  - destruct (negb (bool_decide (i ∈ page))
              && Qltb (roundedSimilarity g) end_) eqn:E.
    + split; [|done]. intros _.
      apply andb_true_iff in E as [Hn Hlt].
      apply negb_true_iff, bool_decide_eq_false in Hn.
      apply Qltb_lt in Hlt.
      exists 0%nat, g. split; [done|]. split; [|done].
      by replace (i + 0)%nat with i by lia.
    + rewrite IH. split.
      * intros (k & g' & Hk & Hn & Hlt). exists (S k), g'.
        split; [done|]. split; [|done].
        by replace (i + S k)%nat with (S i + k)%nat by lia.
      * intros (k & g' & Hk & Hn & Hlt). destruct k as [|k]; simpl in Hk.
        -- inversion Hk; subst. replace (i + 0)%nat with i in Hn by lia.
           apply andb_false_iff in E as [E|E].
           ++ apply negb_false_iff, bool_decide_eq_true in E. done.
           ++ apply Qltb_ge in E. lra.
        -- exists k, g'. split; [done|]. split; [|done].
           by replace (S i + k)%nat with (i + S k)%nat by lia.
Qed.

(** A group below the end of the range gives a next page, whatever the
    levels held in the state, provided there is one. *)
Lemma hasNextPage_lower groups idx start_ end_ i g :
  similarityLevels idx <> [] ->
  groups !! i = Some g -> (roundedSimilarity g < end_)%Q ->
  hasNextPage groups idx start_ end_ = true.
Proof.
  intros Hlv Hi Hlt. unfold hasNextPage.
  rewrite (bool_decide_eq_false_2 (length (similarityLevels idx) = 0%nat)).
  2:{ intros H. by apply length_zero_iff_nil in H. }
  rewrite (bool_decide_eq_false_2 (length groups = 0%nat)).
  2:{ intros H. apply length_zero_iff_nil in H. subst.
      by rewrite lookup_nil in Hi. }
  simpl. destruct (Qltb _ end_); [done|].
  apply lowerGroupOutside_true. exists i, g. split; [done|]. split; [|done].
  simpl. intros (g' & Hg' & Hr)%elem_of_calculateGroupsInRange.
  rewrite Hi in Hg'. inversion Hg'; subst. destruct Hr. lra.
Qed.


(** [hasNextPage] answers exactly whether a group lies below the end of the
    range. *)
Lemma hasNextPage_iff groups start_ end_ :
  hasNextPage groups (initializeGroups groups) start_ end_ = true <->
  exists i g, groups !! i = Some g /\ (roundedSimilarity g < end_)%Q.
Proof.
  split.
  - unfold hasNextPage.
    destruct (bool_decide (length (similarityLevels _) = 0%nat)) eqn:E1;
      [done|].
    destruct (bool_decide (length groups = 0%nat)) eqn:E2; [done|]. simpl.
    apply bool_decide_eq_false in E2.
    assert (groups <> []) as Hne by (intros ->; by apply E2).
    destruct (Qltb _ end_) eqn:E3.
    + intros _. apply Qltb_lt in E3.
      destruct (lastLevel_is_level groups Hne) as (g & Hg & Heq).
      apply list_elem_of_lookup in Hg as [i Hi].
      exists i, g. split; [done|]. by rewrite <- Heq.
    + intros (k & g & Hk & _ & Hlt)%lowerGroupOutside_true. by exists k, g.
  - intros (i & g & Hi & Hlt). eapply hasNextPage_lower; [|done|done].
    apply levels_nonempty. intros ->. by rewrite lookup_nil in Hi.
Qed.

(** When the range ends at the lowest level there is no next page. *)
Lemma hasNextPage_at_lowest groups start_ :
  hasNextPage groups (initializeGroups groups) start_
    (lastLevel (similarityLevels (initializeGroups groups))) = false.
Proof.
  apply not_true_is_false. intros (i & g & Hi & Hlt)%hasNextPage_iff.
  apply list_elem_of_lookup_2 in Hi. apply lastLevel_least in Hi. lra.
Qed.

(** ** C6: [calculateRangeFromTargetGroups] *)

Lemma groupsInLevel_pushIndex key index grouped level :
  length (groupsInLevel (pushIndex key index grouped) level)
  = (length (groupsInLevel grouped level)
     + (if Qeq_bool key level then 1 else 0))%nat.
Proof.
  induction grouped as [|[k indices] rest IH]; simpl.
  - destruct (Qeq_bool key level); simpl; lia.
  - destruct (Qeq_bool k key) eqn:E; simpl.
    + apply Qeq_bool_iff in E.
      destruct (Qeq_bool k level) eqn:E1.
      * apply Qeq_bool_iff in E1.
        assert (Qeq_bool key level = true) as ->.
        { apply Qeq_bool_iff. by rewrite <- E. }
        rewrite length_app. simpl. lia.
      * assert (Qeq_bool key level = false) as ->; [|lia].
        apply not_true_is_false. intros E2%Qeq_bool_iff.
        apply not_true_iff_false in E1. apply E1, Qeq_bool_iff.
        by rewrite E.
    + destruct (Qeq_bool k level) eqn:E1; [|apply IH].
      assert (Qeq_bool key level = false) as ->; [|lia].
      apply not_true_is_false. intros E2%Qeq_bool_iff.
      apply Qeq_bool_iff in E1.
      apply not_true_iff_false in E. apply E, Qeq_bool_iff.
      by rewrite E1, E2.
Qed.

Lemma groupsInLevel_groupBySimilarity gs index grouped level :
  length (groupsInLevel (groupBySimilarity gs index grouped) level)
  = (length (groupsInLevel grouped level) + groupsAt gs level)%nat.
Proof.
  revert index grouped. induction gs as [|g gs IH]; intros index grouped;
    unfold groupsAt; simpl; [lia|].
  rewrite IH, groupsInLevel_pushIndex. unfold groupsAt.
  destruct (Qeq_bool (roundedSimilarity g) level); simpl; lia.
Qed.

(** The bucket of a level holds exactly the groups at that level. *)
Lemma groupsInLevel_count groups level :
  length (groupsInLevel (groupsBySimilarity (initializeGroups groups)) level)
  = groupsAt groups level.
Proof.
  unfold initializeGroups. simpl.
  by rewrite groupsInLevel_groupBySimilarity.
Qed.

Lemma totalOver_cons count level levels :
  totalOver count (level :: levels)
  = Z.of_nat (count level) + totalOver count levels.
Proof. reflexivity. Qed.

Lemma totalOver_nonneg count levels : 0 <= totalOver count levels.
Proof. induction levels as [|l ls IH]; simpl; lia. Qed.

Lemma totalOver_ext count1 count2 levels :
  (forall l, count1 l = count2 l) ->
  totalOver count1 levels = totalOver count2 levels.
Proof.
  intros H. induction levels as [|l ls IH]; simpl; [done|]. by rewrite H, IH.
Qed.

Lemma reached_of_exceeded t total :
  0 <= total -> (t * 1.5 < inject_Z total)%Q -> reached t total.
Proof.
  intros H0 H. unfold reached.
  assert (0 <= inject_Z total)%Q.
  { change 0%Q with (inject_Z 0). by rewrite <- Zle_Qle. }
  destruct (Qlt_le_dec t 0); split; lra.
Qed.

Lemma not_reached_of_half t total :
  0 <= total -> (inject_Z total < t * 0.5)%Q -> ~ reached t total.
Proof.
  intros H0 H [_ H2].
  assert (0 <= inject_Z total)%Q.
  { change 0%Q with (inject_Z 0). by rewrite <- Zle_Qle. }
  lra.
Qed.

Section ExpandRange.

Variable grouped : Grouped.
Variable t : Q.

Lemma expandRange_spec levels rangeEnd total :
  0 <= total -> levels <> [] ->
  exists j,
    (j < length levels)%nat
    /\ levels !! j = Some (expandRange grouped t levels rangeEnd total).1
    /\ (expandRange grouped t levels rangeEnd total).2
       = total + totalOver (bucketSize grouped) (take (S j) levels)
    /\ (forall k, (k < j)%nat ->
                  ~ reached t (total + totalOver (bucketSize grouped) (take (S k) levels)))
    /\ (reached t (expandRange grouped t levels rangeEnd total).2
        \/ S j = length levels).
Proof.
  revert rangeEnd total.
  induction levels as [|level rest IH]; intros rangeEnd total H0 Hne; [done|].
  simpl.
  set (total' := total + Z.of_nat (length (groupsInLevel grouped level))).
  assert (0 <= total') as H0' by (unfold total'; lia).
  destruct (Qleb (t * 0.8) (inject_Z total') && Qleb t (inject_Z total'))
    eqn:E1.
  { apply andb_true_iff in E1 as [Ha Hb]. apply Qleb_le in Ha, Hb.
    exists 0%nat. simpl. split; [lia|]. split; [done|].
    split; [unfold bucketSize, total'; rewrite ?take_0; simpl; lia|].
    split; [intros k Hk; lia|]. left. by split. }
  destruct (Qltb (t * 1.5) (inject_Z total')) eqn:E2.
  { apply Qltb_lt in E2.
    exists 0%nat. simpl. split; [lia|]. split; [done|].
    split; [unfold bucketSize, total'; rewrite ?take_0; simpl; lia|].
    split; [intros k Hk; lia|]. left. by apply reached_of_exceeded. }
  assert (~ reached t total') as Hnot.
  { intros [Ha Hb]. apply Qleb_le in Ha, Hb. rewrite Ha, Hb in E1. done. }
  destruct rest as [|level2 rest'].
  { exists 0%nat. simpl. split; [lia|]. split; [done|].
    split; [unfold bucketSize, total'; lia|].
    split; [intros k Hk; lia|]. by right. }
  destruct (IH level total' H0' ltac:(done)) as (j & Hj & Hlk & Htot & Hbefore & Hstop).
  exists (S j). split; [simpl in *; lia|]. split; [done|].
  split.
  { rewrite Htot. unfold total', bucketSize.
    change (take (S (S j)) (level :: level2 :: rest'))
      with (level :: take (S j) (level2 :: rest')).
    simpl. lia. }
  split; [|destruct Hstop as [H|H]; [by left|right; simpl in *; lia]].
  intros k Hk. destruct k as [|k].
  - simpl. rewrite ?take_0. simpl.
    replace (total + (Z.of_nat ((bucketSize grouped) level) + 0)) with total'
      by (unfold total', bucketSize; lia).
    done.
  - specialize (Hbefore k ltac:(lia)).
    change (take (S (S k)) (level :: level2 :: rest'))
      with (level :: take (S k) (level2 :: rest')).
    rewrite ?totalOver_cons.
    replace (total + (Z.of_nat ((bucketSize grouped) level)
                      + totalOver (bucketSize grouped) (take (S k) (level2 :: rest'))))
      with (total' + totalOver (bucketSize grouped) (take (S k) (level2 :: rest')))
      by (unfold total', bucketSize; lia).
    done.
Qed.

End ExpandRange.

Lemma findStartIndex_Some startPoint levels i n :
  findStartIndex startPoint levels i = Some n ->
  exists k level, n = (i + k)%nat /\ levels !! k = Some level
    /\ (level <= startPoint)%Q
    /\ forall k' level', (k' < k)%nat -> levels !! k' = Some level' ->
                         (startPoint < level')%Q.
Proof.
  revert i. induction levels as [|level rest IH]; intros i; simpl; [done|].
  destruct (Qleb level startPoint) eqn:E.
  - intros [= <-]. apply Qleb_le in E. exists 0%nat, level.
    split; [lia|]. split; [done|]. split; [done|]. intros k' ? Hk'. lia.
  - intros (k & level' & -> & Hk & Hle & Hbefore)%IH.
    apply Qleb_gt in E.
    exists (S k), level'. split; [lia|]. split; [done|]. split; [done|].
    intros [|k'] l' Hlt Hl'; simpl in Hl'.
    + by inversion Hl'; subst.
    + eapply Hbefore; [|done]. lia.
Qed.

Lemma findStartIndex_None startPoint levels i :
  findStartIndex startPoint levels i = None ->
  forall level, level ∈ levels -> (startPoint < level)%Q.
Proof.
  revert i. induction levels as [|level rest IH]; intros i; simpl.
  - intros _ l H. by inversion H.
  - destruct (Qleb level startPoint) eqn:E; [done|].
    intros H l [->|Hin]%elem_of_cons; [by apply Qleb_gt|by eapply IH].
Qed.

Lemma lastLevel_lookup levels i level :
  levels !! i = Some level -> S i = length levels -> lastLevel levels = level.
Proof.
  intros Hi Hlen. unfold lastLevel. rewrite last_lookup.
  replace (pred (length levels)) with i by lia. by rewrite Hi.
Qed.

Lemma lookup_lastLevel levels :
  levels <> [] -> levels !! (length levels - 1)%nat = Some (lastLevel levels).
Proof.
  intros H. rewrite <- (lastLevel_last levels H), last_lookup.
  f_equal. lia.
Qed.

(** The range computed for a loaded group list, in terms of the groups
    counted level by level. *)
Lemma calculateRange_spec groups startPoint t :
  groups <> [] ->
  let levels := similarityLevels (initializeGroups groups) in
  let r := calculateRangeFromTargetGroups groups (initializeGroups groups)
             startPoint t in
  exists i0 j,
    (i0 <= j < length levels)%nat
    /\ isStartIndex startPoint levels i0
    /\ levels !! i0 = Some (start r)
    /\ levels !! j = Some (end_ r)
    /\ (forall k, (i0 <= k < j)%nat ->
                  ~ reached t (runningTotal groups levels i0 k))
    /\ (reached t (runningTotal groups levels i0 j) \/ S j = length levels)
    /\ ((inject_Z (runningTotal groups levels i0 j) < t * 0.5)%Q ->
        end_ r = lastLevel levels).
Proof.
  intros Hne levels r.
  pose proof (levels_nonempty groups Hne) as Hlv. fold levels in Hlv.
  assert (0 < length levels)%nat as Hlen.
  { destruct levels; [done|simpl; lia]. }
  subst r. unfold calculateRangeFromTargetGroups. fold levels.
  destruct (decide (length levels = 0%nat)) as [Hz|_]; [lia|].
  destruct (findStartIndex startPoint levels 0) as [startIndex|] eqn:Hfind.
  2:{ pose proof (findStartIndex_None _ _ _ Hfind) as Habove.
      exists (length levels - 1)%nat, (length levels - 1)%nat. simpl.
      split; [lia|]. split.
      { split.
        - intros k level _ Hk. apply Habove. by eapply list_elem_of_lookup_2.
        - right. split; [lia|done]. }
      split; [by apply lookup_lastLevel|].
      split; [by apply lookup_lastLevel|].
      split; [intros k Hk; lia|]. split; [right; lia|done]. }
  apply findStartIndex_Some in Hfind
    as (k0 & level0 & -> & Hk0 & Hle0 & Hbefore). simpl.
  rewrite Hk0. simpl.
  assert (drop k0 levels <> []) as Hdrop.
  { intros Hnil. apply (f_equal (fun l => l !! 0%nat)) in Hnil.
    rewrite lookup_drop, Nat.add_0_r, Hk0 in Hnil. done. }
  destruct (expandRange_spec (groupsBySimilarity (initializeGroups groups)) t
              (drop k0 levels) level0 0 ltac:(lia) Hdrop)
    as (j & Hj & Hlk & Htot & Hearlier & Hstop).
  destruct (expandRange _ t (drop k0 levels) level0 0) as [rangeEnd total]
    eqn:Hloop.
  simpl in Hlk, Htot, Hstop.
  rewrite lookup_drop in Hlk. rewrite length_drop in Hj, Hstop.
  assert (Hrun : forall k', runningTotal groups levels k0 (k0 + k')
            = 0 + totalOver
                    (fun level => length (groupsInLevel
                       (groupsBySimilarity (initializeGroups groups)) level))
                    (take (S k') (drop k0 levels))).
  { intros k'. unfold runningTotal.
    replace (S (k0 + k') - k0)%nat with (S k') by lia.
    rewrite Z.add_0_l. apply totalOver_ext. intros l.
    by rewrite groupsInLevel_count. }
  assert (Hrj : runningTotal groups levels k0 (k0 + j) = total).
  { by rewrite Hrun, Htot. }
  assert (0 <= total) as Htot0.
  { rewrite Htot. apply Z.add_nonneg_nonneg; [lia|apply totalOver_nonneg]. }
  assert (Hbefore' : forall k, (k0 <= k < k0 + j)%nat ->
            ~ reached t (runningTotal groups levels k0 k)).
  { intros k Hk. replace k with (k0 + (k - k0))%nat by lia.
    rewrite Hrun. apply Hearlier. lia. }
  assert (Hstart : isStartIndex startPoint levels k0).
  { split.
    - intros k level Hk Hl. by eapply Hbefore.
    - left. by exists level0. }
  destruct (Qltb (inject_Z total) (t * 0.5)) eqn:Hhalf.
  - apply Qltb_lt in Hhalf.
    destruct Hstop as [Hr|Hlast];
      [by apply not_reached_of_half in Hhalf|].
    assert (lastLevel levels = rangeEnd) as Hend.
    { eapply lastLevel_lookup; [done|lia]. }
    exists k0, (k0 + j)%nat.
    split; [lia|]. split; [done|].
    destruct (decide (0 < length _)%nat); simpl.
    + split; [done|]. split; [by rewrite Hend|].
      split; [done|]. split; [right; lia|done].
    + split; [done|]. split; [done|].
      split; [done|]. split; [right; lia|done].
  - apply Qltb_ge in Hhalf.
    exists k0, (k0 + j)%nat. simpl.
    split; [lia|]. split; [done|]. split; [done|]. split; [done|].
    split; [done|]. split.
    + rewrite Hrj. destruct Hstop as [H|H]; [by left|right; lia].
    + rewrite Hrj. intros Hlt. lra.
Qed.

(** Once the range ends at the lowest level, every group at or below its
    start is inside it. *)
Lemma range_to_lowest_covers groups start_ i g :
  groups !! i = Some g -> (roundedSimilarity g <= start_)%Q ->
  i ∈ calculateGroupsInRange groups start_
        (lastLevel (similarityLevels (initializeGroups groups))) None.
Proof.
  intros Hi Hle. apply elem_of_calculateGroupsInRange. exists g.
  split; [done|]. split; [|done].
  apply lastLevel_least. by eapply list_elem_of_lookup_2.
Qed.




(** C6. For a loaded, non-empty group list and every target [t], the
    computed range starts at the first level at or below the starting
    point (the lowest level when there is none), adds whole levels
    downwards and ends at the first level at which the running total is at
    least [0.8 * t] and at least [t], or at the lowest level when no level
    reaches that; when the total down to the lowest level is below
    [0.5 * t] the range ends at the lowest level and holds every group at
    or below its start.  With [t = 100], 50 groups at 100.0 and 80 groups
    at 99.9 the range is [{start: 100.0, end: 99.9}] and covers 130
    groups. *)
Theorem C6_range_accumulates_whole_levels :
  (forall (groups : list Group) (startPoint t : Q),
      groups <> [] ->
      let levels := similarityLevels (initializeGroups groups) in
      let r := calculateRangeFromTargetGroups groups (initializeGroups groups)
                 startPoint t in
      exists i0 j,
        (i0 <= j < length levels)%nat
        /\ isStartIndex startPoint levels i0
        /\ levels !! i0 = Some (start r)
        /\ levels !! j = Some (end_ r)
        /\ (forall k, (i0 <= k < j)%nat ->
                      ~ reached t (runningTotal groups levels i0 k))
        /\ (reached t (runningTotal groups levels i0 j)
            \/ S j = length levels)
        /\ ((inject_Z (runningTotal groups levels i0 j) < t * 0.5)%Q ->
            end_ r = lastLevel levels
            /\ forall i g, groups !! i = Some g ->
                 (roundedSimilarity g <= start r)%Q ->
                 i ∈ calculateGroupsInRange groups (start r) (end_ r) None))
  /\ calculateRangeFromTargetGroups groups_50_80
       (initializeGroups groups_50_80) 100 100
     = {| start := 100.0; end_ := 99.9 |}
  /\ length (calculateGroupsInRange groups_50_80 100.0 99.9 None) = 130%nat.
Proof.
  split; [|split; vm_compute; reflexivity].
  intros groups startPoint t Hne levels r.
  destruct (calculateRange_spec groups startPoint t Hne)
    as (i0 & j & Hij & Hstart & Hi0 & Hj & Hbefore & Hstop & Hhalf).
  exists i0, j. repeat (split; [done|]).
  intros Hlt. specialize (Hhalf Hlt). split; [done|].
  intros i g Hi Hle.
  replace (end_ r) with (lastLevel levels) by (symmetry; exact Hhalf).
  by eapply range_to_lowest_covers.
Qed.

Lemma C6_range_accumulates_whole_levels_witness :
  groups_50_80 <> []
  /\ exists i0 j,
       similarityLevels (initializeGroups groups_50_80) !! i0
         = Some (start (calculateRangeFromTargetGroups groups_50_80
                          (initializeGroups groups_50_80) 100 100))
       /\ similarityLevels (initializeGroups groups_50_80) !! j
          = Some (end_ (calculateRangeFromTargetGroups groups_50_80
                          (initializeGroups groups_50_80) 100 100))
       /\ (reached 100 (runningTotal groups_50_80
                          (similarityLevels (initializeGroups groups_50_80))
                          i0 j)
           \/ S j = length (similarityLevels (initializeGroups groups_50_80))).
Proof.
  assert (groups_50_80 <> []) as Hne by discriminate.
  split; [exact Hne|].
  destruct (proj1 C6_range_accumulates_whole_levels groups_50_80 100%Q 100%Q Hne)
    as (i0 & j & _ & _ & Hi0 & Hj & _ & Hstop & _).
  exists i0, j. split; [exact Hi0|]. split; [exact Hj|exact Hstop].
Defined.

(** ** C10: the display order *)

Section Reorder.

Variable groups : list Group.
Variable groupIndices : list nat.

Lemma addFileGroup_entries gi m filename :
  gi ∈ groupIndices -> entriesFrom groupIndices m ->
  entriesFrom groupIndices (addFileGroup gi m filename).
Proof.
  intros Hgi Hm f l x. unfold addFileGroup.
  assert (Hcur : forall y, y ∈ default [] (m !! filename) -> y ∈ groupIndices).
  { intros y. destruct (m !! filename) as [l'|] eqn:E; simpl.
    - by apply (Hm filename l').
    - by inversion 1. }
  destruct (decide (gi ∈ default [] (m !! filename)));
    (destruct (decide (filename = f)) as [->|Hne];
     [rewrite lookup_insert_eq|rewrite lookup_insert_ne by done; apply Hm]).
  - intros [= <-]. apply Hcur.
  - intros [= <-] [Hx|Hx]%elem_of_app; [by apply Hcur|].
    by apply list_elem_of_singleton in Hx as ->.
Qed.

Lemma foldl_addFileGroup_entries gi m fs :
  gi ∈ groupIndices -> entriesFrom groupIndices m ->
  entriesFrom groupIndices (foldl (addFileGroup gi) m fs).
Proof.
  intros Hgi. revert m. induction fs as [|f fs IH]; intros m Hm; simpl; [done|].
  by apply IH, addFileGroup_entries.
Qed.

Lemma buildFileToGroups_entries :
  entriesFrom groupIndices (buildFileToGroups groups groupIndices).
Proof.
  unfold buildFileToGroups.
  assert (H : forall xs m, (forall x, x ∈ xs -> x ∈ groupIndices) ->
            entriesFrom groupIndices m ->
            entriesFrom groupIndices
              (foldl (fun fileToGroups groupIndex =>
                        match groups !! groupIndex with
                        | None => fileToGroups
                        | Some group =>
                            foldl (addFileGroup groupIndex) fileToGroups
                              (files group)
                        end) m xs)).
  { induction xs as [|x xs IH]; intros m Hxs Hm; simpl; [done|].
    apply IH; [intros y Hy; apply Hxs; by right|].
    destruct (groups !! x); [|done].
    apply foldl_addFileGroup_entries; [apply Hxs; by left|done]. }
  apply H; [done|]. intros f l x Hl. by rewrite lookup_empty in Hl.
Qed.

Lemma addGroup_ok p x :
  x ∈ groupIndices -> placementOk groupIndices p ->
  placementOk groupIndices (addGroup p x)
  /\ x ∈ placedGroups (addGroup p x)
  /\ placedGroups p ⊆ placedGroups (addGroup p x).
Proof.
  intros Hx Hok. unfold addGroup.
  destruct (decide (x ∈ placedGroups p)) as [Hp|Hp]; [done|].
  destruct Hok as (Hnd & Hpl & Hin). simpl.
  split; [|split].
  - split; [|split]; simpl.
    + apply NoDup_app. split; [done|]. split; [|apply NoDup_singleton].
      intros y Hy ->%list_elem_of_singleton. by apply Hp, Hpl.
    + intros y. rewrite elem_of_union, elem_of_singleton, elem_of_app,
        list_elem_of_singleton, Hpl. tauto.
    + intros y [Hy| ->%list_elem_of_singleton]%elem_of_app;
        [by apply Hin|done].
  - apply elem_of_union. left. by apply elem_of_singleton.
  - apply union_subseteq_r.
Qed.

Lemma foldl_addGroup_ok xs p :
  (forall x, x ∈ xs -> x ∈ groupIndices) -> placementOk groupIndices p ->
  placementOk groupIndices (foldl addGroup p xs)
  /\ placedGroups p ⊆ placedGroups (foldl addGroup p xs).
Proof.
  revert p. induction xs as [|x xs IH]; intros p Hxs Hp; simpl; [done|].
  destruct (addGroup_ok p x) as (Hok & _ & Hsub); [apply Hxs; by left|done|].
  destruct (IH (addGroup p x)) as (Hok' & Hsub');
    [intros y Hy; apply Hxs; by right|done|].
  split; [done|]. by transitivity (placedGroups (addGroup p x)).
Qed.

Lemma setAdd_from s x :
  x ∈ groupIndices -> (forall y, y ∈ s -> y ∈ groupIndices) ->
  forall y, y ∈ setAdd s x -> y ∈ groupIndices.
Proof.
  intros Hx Hs y. unfold setAdd. destruct (decide (x ∈ s)); [by apply Hs|].
  intros [Hy| ->%list_elem_of_singleton]%elem_of_app; [by apply Hs|done].
Qed.

Lemma collectRelated_from m placed gi fs :
  entriesFrom groupIndices m ->
  forall y, y ∈ collectRelated m placed gi fs -> y ∈ groupIndices.
Proof.
  intros Hm. unfold collectRelated.
  assert (Hinner : forall l s,
            (forall x, x ∈ l -> x ∈ groupIndices) ->
            (forall y, y ∈ s -> y ∈ groupIndices) ->
            forall y,
              y ∈ foldl (fun s r =>
                           if decide (r <> gi /\ r ∉ placed)
                           then setAdd s r else s) s l ->
              y ∈ groupIndices).
  { induction l as [|x l IH]; intros s Hl Hs; simpl; [done|].
    apply IH; [intros z Hz; apply Hl; by right|].
    destruct (decide (x <> gi /\ x ∉ placed)); [|done].
    apply setAdd_from; [apply Hl; by left|done]. }
  assert (Houter : forall s,
            (forall y, y ∈ s -> y ∈ groupIndices) ->
            forall y,
              y ∈ foldl (fun relatedGroupsSet filename =>
                           foldl (fun s r =>
                                    if decide (r <> gi /\ r ∉ placed)
                                    then setAdd s r else s)
                             relatedGroupsSet (default [] (m !! filename)))
                     s fs ->
              y ∈ groupIndices).
  { induction fs as [|f fs' IH]; intros s Hs; simpl; [done|].
    apply IH. apply Hinner; [|done].
    intros x. destruct (m !! f) as [l|] eqn:E; simpl.
    - by apply (Hm f l).
    - by inversion 1. }
  apply Houter. by inversion 1.
Qed.

Lemma placeGroup_ok m p x :
  entriesFrom groupIndices m ->
  x ∈ groupIndices -> placementOk groupIndices p ->
  placementOk groupIndices (placeGroup groups m groupIndices p x)
  /\ x ∈ placedGroups (placeGroup groups m groupIndices p x)
  /\ placedGroups p ⊆ placedGroups (placeGroup groups m groupIndices p x).
Proof.
  intros Hm Hx Hp. unfold placeGroup.
  destruct (decide (x ∈ placedGroups p)) as [Hin|Hin]; [done|].
  destruct (groups !! x) as [group|]; [|by apply addGroup_ok].
  destruct (decide (0 < length _)%nat); [|by apply addGroup_ok].
  destruct (addGroup_ok p x Hx Hp) as (Hok1 & Hx1 & Hsub1).
  match goal with
  | |- context [foldl addGroup ?p1 ?xs] =>
      destruct (foldl_addGroup_ok xs p1) as (Hok2 & Hsub2); [|done|]
  end.
  - intros y Hy%elem_of_js_sort. by eapply collectRelated_from.
  - split; [done|]. split; set_solver.
Qed.

Lemma foldl_placeGroup_ok m xs p :
  entriesFrom groupIndices m ->
  (forall x, x ∈ xs -> x ∈ groupIndices) -> placementOk groupIndices p ->
  placementOk groupIndices (foldl (placeGroup groups m groupIndices) p xs)
  /\ placedGroups p
     ⊆ placedGroups (foldl (placeGroup groups m groupIndices) p xs)
  /\ forall x, x ∈ xs ->
       x ∈ placedGroups (foldl (placeGroup groups m groupIndices) p xs).
Proof.
  intros Hm. revert p. induction xs as [|x xs IH]; intros p Hxs Hp; simpl.
  - split; [done|]. split; [done|]. by inversion 1.
  - destruct (placeGroup_ok m p x Hm) as (Hok & Hx & Hsub);
      [apply Hxs; by left|done|].
    destruct (IH (placeGroup groups m groupIndices p x))
      as (Hok' & Hsub' & Hall); [intros y Hy; apply Hxs; by right|done|].
    split; [done|].
    split; [by transitivity (placedGroups (placeGroup groups m groupIndices p x))|].
    intros y [->|Hy]%elem_of_cons; [|by apply Hall].
    eapply elem_of_weaken; [exact Hx|exact Hsub'].
Qed.

Lemma foldl_pushUnplaced_placed xs p :
  (forall x, x ∈ xs -> x ∈ placedGroups p) -> foldl pushUnplaced p xs = p.
Proof.
  induction xs as [|x xs IH]; intros Hxs; simpl; [done|].
  unfold pushUnplaced at 2.
  destruct (decide (x ∈ placedGroups p)) as [_|Hn].
  - apply IH. intros y Hy. apply Hxs. by right.
  - exfalso. apply Hn, Hxs. by left.
Qed.

(** The output lists exactly the members of the input, and lists each once
    as soon as some file is shared. *)
Lemma reorder_members x :
  x ∈ reorderGroupsByFileAppearances groups groupIndices <-> x ∈ groupIndices.
Proof.
  unfold reorderGroupsByFileAppearances.
  destruct (decide (length groupIndices = 0%nat)); [done|].
  destruct (decide (multiAppearanceFiles _ = ∅)); [done|].
  set (m := buildFileToGroups groups groupIndices).
  destruct (foldl_placeGroup_ok m groupIndices
              {| placedGroups := ∅; reordered := [] |})
    as ((Hnd & Hpl & Hin) & _ & Hall).
  - apply buildFileToGroups_entries.
  - done.
  - split; [constructor|]. split; [|by inversion 1].
    simpl. intros y. split; [set_solver|by inversion 1].
  - rewrite foldl_pushUnplaced_placed by done.
    split; [apply Hin|]. intros Hx. by apply Hpl, Hall.
Qed.

Lemma reorder_perm :
  NoDup groupIndices ->
  reorderGroupsByFileAppearances groups groupIndices ≡ₚ groupIndices.
Proof.
  intros Hnd. unfold reorderGroupsByFileAppearances.
  destruct (decide (length groupIndices = 0%nat)); [done|].
  destruct (decide (multiAppearanceFiles _ = ∅)); [done|].
  set (m := buildFileToGroups groups groupIndices).
  destruct (foldl_placeGroup_ok m groupIndices
              {| placedGroups := ∅; reordered := [] |})
    as ((Hnd' & Hpl & Hin) & _ & Hall).
  - apply buildFileToGroups_entries.
  - done.
  - split; [constructor|]. split; [|by inversion 1].
    simpl. intros y. split; [set_solver|by inversion 1].
  - rewrite foldl_pushUnplaced_placed by done.
    apply NoDup_Permutation; [done|done|].
    intros x. split; [apply Hin|]. intros Hx. by apply Hpl, Hall.
Qed.

End Reorder.

(** The displayed page is the computed page in another order. *)
Lemma reordered_page_perm groups start_ end_ :
  getReorderedGroupsForPage groups start_ end_
  ≡ₚ getGroupsForCurrentPage groups start_ end_.
Proof. apply reorder_perm, NoDup_page. Qed.

(** C10. The display reordering returns a permutation of the list of
    group indices it is given, which is the computed page: every index of
    the page appears in the displayed order exactly once and no other
    index appears, so the rendered page never drops or duplicates a group
    of the computed range and only changes the order.  The same holds of
    every list in which no index is repeated, as every page is. *)
Theorem C10_reorder_is_permutation :
  forall (groups : list Group) (start_ end_ : Q) (groupIndices : list nat),
    let page := getGroupsForCurrentPage groups start_ end_ in
    (getReorderedGroupsForPage groups start_ end_ ≡ₚ page
     /\ NoDup (getReorderedGroupsForPage groups start_ end_)
     /\ forall x, x ∈ getReorderedGroupsForPage groups start_ end_
                  <-> x ∈ page)
    /\ (NoDup groupIndices ->
        reorderGroupsByFileAppearances groups groupIndices ≡ₚ groupIndices
        /\ NoDup (reorderGroupsByFileAppearances groups groupIndices)
        /\ forall x, x ∈ reorderGroupsByFileAppearances groups groupIndices
                     <-> x ∈ groupIndices).
Proof.
  intros groups start_ end_ groupIndices page. split.
  - pose proof (reordered_page_perm groups start_ end_) as Hperm.
    fold page in Hperm. split; [done|]. split.
    + rewrite Hperm. apply NoDup_page.
    + intros x. by rewrite Hperm.
  - intros Hnd. pose proof (reorder_perm groups groupIndices Hnd) as Hperm.
    split; [done|]. split; [by rewrite Hperm|].
    intros x. apply reorder_members.
Qed.

Lemma C10_reorder_is_permutation_witness :
  NoDup [0; 1; 2; 3]%nat
  /\ reorderGroupsByFileAppearances groups_shared [0; 1; 2; 3]%nat
     ≡ₚ [0; 1; 2; 3]%nat.
Proof.
  assert (NoDup [0; 1; 2; 3]%nat) as Hnd.
  { repeat (constructor; [rewrite ?elem_of_cons, elem_of_nil; lia|]).
    constructor. }
  split; [exact Hnd|].
  destruct (C10_reorder_is_permutation groups_shared 100%Q 0%Q
              [0; 1; 2; 3]%nat) as [_ Hperm].
  exact (proj1 (Hperm Hnd)).
Defined.

(** ** C9: readiness of the page *)

Lemma groupHasAutoSelections_true groups sel gi :
  groupHasAutoSelections groups sel gi = true <->
  exists s, sel !! gi = Some s /\ s <> ∅
    /\ forall g f, groups !! gi = Some g -> f ∈ files g -> is_Some (s !! f).
Proof.
  unfold groupHasAutoSelections.
  destruct (sel !! gi) as [s|]; [|split; [done|by intros (s & ? & _)]].
  destruct (decide (size s = 0%nat)) as [Hz|Hz].
  - apply map_size_empty_iff in Hz. split; [done|].
    intros (s' & [= <-] & Hne & _). done.
  - assert (s <> ∅) as Hne.
    { intros Hs. apply Hz. by apply map_size_empty_iff. }
    destruct (groups !! gi) as [g|].
    + rewrite forallb_forall. split.
      * intros Hall. exists s. split; [done|]. split; [done|].
        intros g' f [= <-] Hf. apply list_elem_of_In, Hall in Hf.
        by apply bool_decide_eq_true in Hf.
      * intros (s' & [= <-] & _ & Hall) f Hf%list_elem_of_In.
        apply bool_decide_eq_true. by eapply Hall.
    + split; [|done]. intros _. exists s. split; [done|]. split; [done|].
      by intros g f.
Qed.

(** C9 does not hold as stated on a page without groups: every record
    of every group on the page has an entry (there is none to check), yet
    the page is not reported ready. *)
Lemma C9_empty_page_is_not_ready :
  getGroupsForCurrentPage groups_shared 50 40 = []
  /\ (forall gi g f,
        gi ∈ getGroupsForCurrentPage groups_shared 50 40 ->
        groups_shared !! gi = Some g -> f ∈ files g ->
        is_Some (selectionOf ∅ gi f))
  /\ allGroupsHaveAutoSelections groups_shared ∅ 50 40 = false.
Proof.
  split; [vm_compute; reflexivity|]. split; [|vm_compute; reflexivity].
  intros gi g f Hgi. vm_compute in Hgi. by inversion Hgi.
Qed.

(** C9, amended: the page is ready exactly when it has at least one group
    and every group on it has a non-empty selections entry that holds a
    value for every record of the group; a page without groups is never
    ready. *)
Theorem C9_ready_iff :
  forall (groups : list Group) (sel : Selections) (start_ end_ : Q),
    let groupsInPage := getGroupsForCurrentPage groups start_ end_ in
    (allGroupsHaveAutoSelections groups sel start_ end_ = true <->
     groupsInPage <> []
     /\ forall gi, gi ∈ groupsInPage ->
          exists s, sel !! gi = Some s /\ s <> ∅
            /\ forall g f, groups !! gi = Some g -> f ∈ files g ->
                           selectionOf sel gi f = s !! f
                           /\ is_Some (selectionOf sel gi f))
    /\ (groupsInPage = [] ->
        allGroupsHaveAutoSelections groups sel start_ end_ = false).
Proof.
  intros groups sel start_ end_ groupsInPage.
  unfold allGroupsHaveAutoSelections. fold groupsInPage.
  destruct (decide (length groupsInPage = 0%nat)) as [Hz|Hz].
  - apply length_zero_iff_nil in Hz. split; [|done].
    split; [done|]. by intros [Hne _].
  - assert (groupsInPage <> []) as Hne.
    { intros H. by rewrite H in Hz. }
    split; [|done]. rewrite forallb_forall. split.
    + intros Hall. split; [done|]. intros gi Hgi%list_elem_of_In.
      apply Hall, groupHasAutoSelections_true in Hgi
        as (s & Hs & Hnes & Hfiles).
      exists s. split; [done|]. split; [done|]. intros g f Hg Hf.
      unfold selectionOf. rewrite Hs. split; [done|]. by eapply Hfiles.
    + intros [_ Hall] gi Hgi%list_elem_of_In.
      apply groupHasAutoSelections_true.
      destruct (Hall gi Hgi) as (s & Hs & Hnes & Hfiles).
      exists s. split; [done|]. split; [done|]. intros g f Hg Hf.
      destruct (Hfiles g f Hg Hf) as [Heq Hsome]. by rewrite <- Heq.
Qed.

Lemma C9_ready_iff_witness :
  allGroupsHaveAutoSelections groups_shared ∅ 50 40 = false.
Proof.
  apply (C9_ready_iff groups_shared ∅ 50%Q 40%Q).
  vm_compute. reflexivity.
Defined.

(** ** C2: final states at submission *)

Section FinalStates.

Variable groups : list Group.
Variable sel : Selections.

Lemma onPage_cons gi page f :
  onPage groups (gi :: page) f <->
  (exists g, groups !! gi = Some g /\ f ∈ files g) \/ onPage groups page f.
Proof.
  unfold onPage. split.
  - intros (gi' & g & [->|Hin]%elem_of_cons & Hg & Hf).
    + left. by exists g.
    + right. by exists gi', g.
  - intros [(g & Hg & Hf)|(gi' & g & Hin & Hg & Hf)].
    + exists gi, g. split; [by left|done].
    + exists gi', g. split; [by right|done].
Qed.

Lemma checkedSomewhere_cons gi page f :
  checkedSomewhere groups sel (gi :: page) f <->
  (exists g, groups !! gi = Some g /\ f ∈ files g
             /\ selectionOf sel gi f = Some true)
  \/ checkedSomewhere groups sel page f.
Proof.
  unfold checkedSomewhere. split.
  - intros (gi' & g & [->|Hin]%elem_of_cons & Hg & Hf).
    + left. by exists g.
    + right. by exists gi', g.
  - intros [(g & Hg & Hf)|(gi' & g & Hin & Hg & Hf)].
    + exists gi, g. split; [by left|done].
    + exists gi', g. split; [by right|done].
Qed.

Lemma checkedSomewhere_onPage page f :
  checkedSomewhere groups sel page f -> onPage groups page f.
Proof. intros (gi & g & Hin & Hg & Hf & _). by exists gi, g. Qed.

Lemma init_files (m : gmap string bool) (fs : list string) (f : string) :
  let m' := foldl (fun m filename =>
                     if decide (is_Some (m !! filename)) then m
                     else <[filename := false]> m) m fs in
  (m' !! f = m !! f \/ (m !! f = None /\ m' !! f = Some false /\ f ∈ fs))
  /\ (f ∈ fs -> is_Some (m' !! f)).
Proof.
  revert m. induction fs as [|x fs IH]; intros m; simpl.
  - split; [by left|by inversion 1].
  - destruct (decide (is_Some (m !! x))) as [Hx|Hx].
    + destruct (IH m) as [H1 H2]. split.
      * destruct H1 as [H1|(Ha & Hb & Hc)]; [by left|].
        right. split; [done|]. split; [done|by right].
      * intros [->|Hin]%elem_of_cons; [|by apply H2].
        destruct H1 as [H1|(Ha & Hb & Hc)]; [by rewrite H1|by rewrite Hb].
    + destruct (IH (<[x := false]> m)) as [H1 H2].
      apply eq_None_not_Some in Hx.
      destruct (decide (x = f)) as [->|Hne].
      * rewrite lookup_insert_eq in H1.
        assert (foldl (fun m filename =>
                         if decide (is_Some (m !! filename)) then m
                         else <[filename := false]> m)
                      (<[f := false]> m) fs !! f = Some false) as Hf.
        { destruct H1 as [H1|(Ha & _)]; [done|done]. }
        split; [|by rewrite Hf].
        right. split; [done|]. split; [done|by left].
      * rewrite lookup_insert_ne in H1 by done. split.
        -- destruct H1 as [H1|(Ha & Hb & Hc)]; [by left|].
           right. split; [done|]. split; [done|by right].
        -- intros [->|Hin]%elem_of_cons; [done|by apply H2].
Qed.

Lemma init_groups (page : list nat) (m : gmap string bool) :
  (forall gi, gi ∈ page -> is_Some (groups !! gi)) ->
  exists m',
    foldl (fun acc groupIndex =>
             fileFinalStates ← acc;
             group ← groups !! groupIndex;
             Some (foldl (fun m filename =>
                            if decide (is_Some (m !! filename)) then m
                            else <[filename := false]> m)
                         fileFinalStates (files group)))
          (Some m) page = Some m'
    /\ forall f,
         (m' !! f = m !! f
          \/ (m !! f = None /\ m' !! f = Some false /\ onPage groups page f))
         /\ (onPage groups page f -> is_Some (m' !! f)).
Proof.
  revert m. induction page as [|gi page IH]; intros m Hvalid; simpl.
  - exists m. split; [done|]. intros f. split; [by left|].
    intros (gi & g & Hin & _). by inversion Hin.
  - destruct (Hvalid gi ltac:(by left)) as [g Hg]. rewrite Hg. simpl.
    set (m1 := foldl _ m (files g)).
    destruct (IH m1) as (m' & Hm' & Hspec).
    { intros gi' Hin. apply Hvalid. by right. }
    exists m'. split; [done|]. intros f.
    destruct (Hspec f) as [H1 H2].
    destruct (init_files m (files g) f) as [G1 G2]. fold m1 in G1, G2.
    split.
    + destruct H1 as [H1|(Ha & Hb & Hc)].
      * rewrite H1. destruct G1 as [G1|(Ga & Gb & Gc)]; [by left|].
        right. split; [done|]. split; [done|].
        apply onPage_cons. left. by exists g.
      * destruct G1 as [G1|(Ga & Gb & Gc)]; [|congruence].
        right. split; [congruence|]. split; [done|].
        apply onPage_cons. by right.
    + intros [(g' & Hg' & Hf)|Hon]%onPage_cons; [|by apply H2].
      rewrite Hg in Hg'. inversion Hg'; subst g'.
      specialize (G2 Hf).
      destruct H1 as [H1|(Ha & Hb & _)]; [by rewrite H1|by rewrite Hb].
Qed.

Lemma mark_files (s m : gmap string bool) (fs : list string) (f : string) :
  let m' := foldl (fun m filename =>
                     let isChecked := default false (s !! filename) in
                     if isChecked then <[filename := true]> m else m) m fs in
  (m' !! f = Some true <->
   m !! f = Some true \/ (f ∈ fs /\ s !! f = Some true))
  /\ (m' !! f = m !! f \/ m' !! f = Some true).
Proof.
  revert m. induction fs as [|x fs IH]; intros m; simpl.
  - split; [|by left]. split; [by left|]. intros [H|[H _]]; [done|by inversion H].
  - set (m1 := if default false (s !! x) then <[x := true]> m else m).
    destruct (IH m1) as [H1 H2]. cbv zeta in H1, H2 |- *. fold m1.
    assert (Hm1 : (m1 !! f = Some true <->
                   m !! f = Some true \/ (x = f /\ s !! f = Some true))
                  /\ (m1 !! f = m !! f \/ m1 !! f = Some true)).
    { unfold m1. destruct (s !! x) as [[|]|] eqn:E; simpl.
      - destruct (decide (x = f)) as [->|Hne].
        + rewrite lookup_insert_eq. split; [|by right].
          split; [intros _; by right|done].
        + rewrite lookup_insert_ne by done. split; [|by left].
          split; [by left|]. by intros [H|[H _]].
      - split; [|by left]. split; [by left|].
        intros [H|[-> H]]; [done|congruence].
      - split; [|by left]. split; [by left|].
        intros [H|[-> H]]; [done|congruence]. }
    destruct Hm1 as [M1 M2]. split.
    + rewrite H1, M1. split.
      * intros [[H|[-> H]]|[Hin Hs]]; [by left| |].
        -- right. split; [by left|done].
        -- right. split; [by right|done].
      * intros [H|[[->|Hin]%elem_of_cons Hs]]; [by left; left| |].
        -- left; right. done.
        -- right. done.
    + destruct H2 as [H2|H2]; [|by right].
      rewrite H2. done.
Qed.

Lemma mark_groups (page : list nat) (m : gmap string bool) :
  (forall gi, gi ∈ page -> is_Some (groups !! gi)) ->
  exists m',
    markChecked groups sel page m = Some m'
    /\ forall f,
         (m' !! f = Some true <->
          m !! f = Some true \/ checkedSomewhere groups sel page f)
         /\ (m' !! f = m !! f \/ m' !! f = Some true).
Proof.
  unfold markChecked.
  revert m. induction page as [|gi page IH]; intros m Hvalid; simpl.
  - exists m. split; [done|]. intros f. split; [|by left].
    split; [by left|]. intros [H|(gi & g & Hin & _)]; [done|by inversion Hin].
  - destruct (Hvalid gi ltac:(by left)) as [g Hg]. rewrite Hg. simpl.
    set (m1 := foldl _ m (files g)).
    destruct (IH m1) as (m' & Hm' & Hspec).
    { intros gi' Hin. apply Hvalid. by right. }
    exists m'. split; [done|]. intros f.
    destruct (Hspec f) as [H1 H2].
    assert (Hsel : default ∅ (sel !! gi) !! f = selectionOf sel gi f).
    { unfold selectionOf. by destruct (sel !! gi). }
    assert ((m1 !! f = Some true <->
             m !! f = Some true
             \/ (f ∈ files g /\ selectionOf sel gi f = Some true))
            /\ (m1 !! f = m !! f \/ m1 !! f = Some true)) as [G1 G2].
    { rewrite <- Hsel. apply (mark_files (default ∅ (sel !! gi))). }
    split.
    + rewrite H1, G1, checkedSomewhere_cons. split.
      * intros [[H|[Hf Hs]]|H]; [by left| |by right; right].
        right; left. by exists g.
      * intros [H|[(g' & Hg' & Hf & Hs)|H]]; [by left; left| |by right].
        left; right. rewrite Hg in Hg'. by inversion Hg'; subst.
    + destruct H2 as [H2|H2]; [|by right].
      rewrite H2. done.
Qed.

Lemma computeFinalStates_spec page :
  (forall gi, gi ∈ page -> is_Some (groups !! gi)) ->
  exists final,
    computeFinalStates groups sel page = Some final
    /\ forall f,
         (onPage groups page f ->
          (final !! f = Some true <-> checkedSomewhere groups sel page f)
          /\ (final !! f = Some false <->
              ~ checkedSomewhere groups sel page f))
         /\ (~ onPage groups page f -> final !! f = None).
Proof.
  intros Hvalid. unfold computeFinalStates, initFinalStates.
  destruct (init_groups page ∅ Hvalid) as (m0 & -> & Hinit). simpl.
  destruct (mark_groups page m0 Hvalid) as (final & -> & Hmark).
  exists final. split; [done|]. intros f.
  destruct (Hinit f) as [I1 I2]. destruct (Hmark f) as [M1 M2].
  rewrite lookup_empty in I1.
  split.
  - intros Hon. specialize (I2 Hon).
    assert (m0 !! f = Some false) as Hm0.
    { destruct I1 as [I1|(_ & I1 & _)]; [|done].
      rewrite I1 in I2. by destruct I2. }
    split.
    + rewrite M1, Hm0. split; [by intros [H|H]|by right].
    + split.
      * intros Hf Hc. assert (final !! f = Some true) by (apply M1; by right).
        congruence.
      * intros Hn. destruct M2 as [M2|M2]; [congruence|].
        apply M1 in M2 as [M2|M2]; [congruence|done].
  - intros Hn.
    assert (m0 !! f = None) as Hm0.
    { destruct I1 as [I1|(_ & _ & I1)]; [done|done]. }
    destruct M2 as [M2|M2]; [congruence|].
    apply M1 in M2 as [M2|M2]; [congruence|].
    by apply checkedSomewhere_onPage in M2.
Qed.

End FinalStates.

Lemma elem_of_checkedFilesOf final g f :
  f ∈ checkedFilesOf final g <-> f ∈ files g /\ final !! f = Some true.
Proof.
  unfold checkedFilesOf. rewrite !list_elem_of_In, filter_In.
  by rewrite bool_decide_eq_true.
Qed.

(** C2. At the submission of a page every record on the page gets final
    state [true] exactly when it is checked in at least one group of the
    page that contains it, and [false] otherwise; each group of the page
    is submitted once, with exactly those of its members whose final state
    is [true]. *)
Theorem C2_final_state_is_or_over_groups :
  forall (groups : list Group) (sel : Selections) (start_ end_ : Q),
    let page := getGroupsForCurrentPage groups start_ end_ in
    exists final submissions,
      submitPage groups sel start_ end_ = Some (final, submissions)
      /\ (forall R, onPage groups page R ->
            (final !! R = Some true <-> checkedSomewhere groups sel page R)
            /\ (final !! R = Some false <->
                ~ checkedSomewhere groups sel page R))
      /\ Forall2
           (fun gi submission =>
              sub_groupIndex submission = gi
              /\ exists g, groups !! gi = Some g
                   /\ forall R, R ∈ sub_checkedFiles submission <->
                                R ∈ files g /\ final !! R = Some true)
           page submissions.
Proof.
  intros groups sel start_ end_ page. unfold submitPage. fold page.
  assert (Hvalid : forall gi, gi ∈ page -> is_Some (groups !! gi)).
  { intros gi. apply page_lookup. }
  destruct (computeFinalStates_spec groups sel page Hvalid)
    as (final & -> & Hfinal). simpl.
  destruct (mapM (processGroup groups final) page) as [submissions|] eqn:Hsub.
  2:{ apply mapM_None, Exists_exists in Hsub as (gi & Hgi & Hnone).
      apply Hvalid in Hgi as [g Hg].
      unfold processGroup in Hnone. by rewrite Hg in Hnone. }
  exists final, submissions. simpl. split; [done|]. split.
  - intros R Hon. by apply Hfinal.
  - apply mapM_Some in Hsub.
    eapply Forall2_impl; [exact Hsub|]. simpl.
    intros gi submission Hp. unfold processGroup in Hp.
    destruct (groups !! gi) as [g|] eqn:Hg; [|done]. simpl in Hp.
    inversion Hp; subst submission. simpl. split; [done|].
    exists g. split; [done|]. intros R. apply elem_of_checkedFilesOf.
Qed.

Lemma C2_final_state_is_or_over_groups_witness :
  onPage groups_shared (getGroupsForCurrentPage groups_shared 100 0) "2.json"
  /\ exists final submissions,
       submitPage groups_shared sel_shared 100 0 = Some (final, submissions)
       /\ (final !! "2.json" = Some true <->
           checkedSomewhere groups_shared sel_shared
             (getGroupsForCurrentPage groups_shared 100 0) "2.json").
Proof.
  assert (onPage groups_shared (getGroupsForCurrentPage groups_shared 100 0)
            "2.json") as Hon.
  { exists 0%nat, (mkGroup ["1.json"; "2.json"] 0.999).
    split; [vm_compute; by left|]. split; [reflexivity|].
    right. by left. }
  split; [exact Hon|].
  destruct (C2_final_state_is_or_over_groups groups_shared sel_shared
              100%Q 0%Q) as (final & submissions & Hsub & Hfinal & _).
  exists final, submissions. split; [exact Hsub|].
  exact (proj1 (Hfinal "2.json" Hon)).
Defined.

(** ** The auto-selection heuristic *)

Lemma byPriority_ranks a b :
  byPriority a b = true <-> ranksAtLeast a.2 b.2.
Proof.
  unfold byPriority, priorityCompare, ranksAtLeast.
  rewrite bool_decide_eq_true.
  destruct (hasYear a.2), (hasYear b.2); simpl; split;
    try (intros [[? ?]|[? ?]]); try discriminate; try lia; intros;
    try (right; split; [done|lia]); try (by left); try lia.
Qed.

Lemma byPriority_total a b : byPriority a b = true \/ byPriority b a = true.
Proof.
  rewrite !byPriority_ranks. unfold ranksAtLeast.
  destruct (hasYear a.2), (hasYear b.2);
    try (left; left; done); try (right; left; done);
    destruct (decide (fileNum a.2 <= fileNum b.2));
    try (left; right; split; [done|lia]); right; right; split; try done; lia.
Qed.

Lemma byPriority_trans a b c :
  byPriority a b = true -> byPriority b c = true -> byPriority a c = true.
Proof.
  rewrite !byPriority_ranks. unfold ranksAtLeast.
  destruct (hasYear a.2), (hasYear b.2), (hasYear c.2);
    intros [[? ?]|[? ?]] [[? ?]|[? ?]]; try discriminate;
    try (left; done); right; split; try done; lia.
Qed.

(** The first element of a sorted array is ranked at least as high as
    every element. *)
Lemma js_sort_first_best {A} (le : A -> A -> bool) (l : list A) first rest :
  (forall a b, le a b = true \/ le b a = true) ->
  (forall a b c, le a b = true -> le b c = true -> le a c = true) ->
  js_sort le l = first :: rest ->
  first ∈ l /\ forall x, x ∈ l -> le first x = true.
Proof.
  intros Htotal Htrans Hsort.
  pose proof (js_sort_sorted le Htotal Htrans l) as Hs.
  pose proof (js_sort_perm le l) as Hp.
  rewrite Hsort in Hs, Hp. split.
  - rewrite <- Hp. by left.
  - intros x. rewrite <- Hp. intros [->|Hx]%elem_of_cons.
    + destruct (Htotal first first); done.
    + apply StronglySorted_inv in Hs as [_ Hall].
      rewrite Forall_forall in Hall. by apply Hall.
Qed.

Section AutoSelect.

Variable fileStatuses : gmap string FileStatus.
Variable metadata : gmap string McqMeta.

Lemma classify_fold files_ sel0 unk0 :
  exists sel,
    foldl (classifyFile fileStatuses metadata) (sel0, unk0) files_
    = (sel, unk0 ++ map (fun f => (f, priorityOf metadata f))
                      (unknownsOf fileStatuses files_))
    /\ forall f,
         sel !! f = if decide (f ∈ files_)
                    then Some (bool_decide (statusOf fileStatuses f = saved))
                    else sel0 !! f.
Proof.
  revert sel0 unk0. induction files_ as [|x fs IH]; intros sel0 unk0; simpl.
  - exists sel0. rewrite app_nil_r. split; [done|]. intros f.
    destruct (decide (f ∈ [])) as [H|_]; [by inversion H|done].
  - unfold unknownsOf. simpl. fold (unknownsOf fileStatuses fs).
    assert (Hstep : forall sel1 unk1 b,
              (forall f, sel1 !! f = if decide (f = x) then Some b
                                     else sel0 !! f) ->
              b = bool_decide (statusOf fileStatuses x = saved) ->
              exists sel,
                foldl (classifyFile fileStatuses metadata) (sel1, unk1) fs
                = (sel, unk1 ++ map (fun f => (f, priorityOf metadata f))
                                  (unknownsOf fileStatuses fs))
                /\ forall f,
                     sel !! f
                     = if decide (f ∈ x :: fs)
                       then Some (bool_decide (statusOf fileStatuses f = saved))
                       else sel0 !! f).
    { intros sel1 unk1 b Hsel1 Hb.
      destruct (IH sel1 unk1) as (sel & Hfold & Hsel).
      exists sel. split; [done|]. intros f. rewrite Hsel, Hsel1.
      destruct (decide (f ∈ fs)) as [Hin|Hnin].
      - rewrite decide_True by (by right). done.
      - destruct (decide (f = x)) as [->|Hne].
        + rewrite decide_True by (by left). by rewrite Hb.
        + rewrite decide_False; [done|].
          by intros [?|?]%elem_of_cons. }
    destruct (statusOf fileStatuses x) eqn:Hst; simpl.
    + apply (Hstep _ _ true); [|done]. intros f.
      destruct (decide (f = x)) as [->|Hne];
        [by rewrite lookup_insert_eq|by rewrite lookup_insert_ne].
    + apply (Hstep _ _ false); [|done]. intros f.
      destruct (decide (f = x)) as [->|Hne];
        [by rewrite lookup_insert_eq|by rewrite lookup_insert_ne].
    + destruct (Hstep (<[x := false]> sel0)
                  (unk0 ++ [(x, priorityOf metadata x)]) false)
        as (sel & Hfold & Hsel); [|done|].
      { intros f. destruct (decide (f = x)) as [->|Hne];
          [by rewrite lookup_insert_eq|by rewrite lookup_insert_ne]. }
      exists sel. split; [|done].
      unfold priorityOf in Hfold |- *. rewrite Hfold.
      by rewrite <- app_assoc.
Qed.

(** Normal mode: every file of the call is unchecked unless saved, and
    then the first of the sorted unknown files is checked. *)
Lemma autoSelect_normal files_ :
  files_ <> [] ->
  exists sel,
    (forall f, sel !! f
               = if decide (f ∈ files_)
                 then Some (bool_decide (statusOf fileStatuses f = saved))
                 else None)
    /\ autoSelectBestMCQ fileStatuses files_ metadata false
       = match js_sort byPriority
                 (map (fun f => (f, priorityOf metadata f))
                    (unknownsOf fileStatuses files_)) with
         | [] => sel
         | first :: _ => <[first.1 := true]> sel
         end.
Proof.
  intros Hne. unfold autoSelectBestMCQ.
  destruct (decide (length files_ = 0%nat)) as [Hz|_].
  { by apply length_zero_iff_nil in Hz. }
  destruct (classify_fold files_ ∅ []) as (sel & Hfold & Hsel).
  rewrite Hfold. simpl. exists sel. split; [|done].
  intros f. rewrite Hsel. by rewrite lookup_empty.
Qed.

Lemma checkAll_lookup (files_ : list string) (sel0 : gmap string bool) f :
  foldl (fun selections filename =>
           <[filename :=
               negb (bool_decide (statusOf fileStatuses filename = removed))]>
             selections) sel0 files_ !! f
  = if decide (f ∈ files_)
    then Some (negb (bool_decide (statusOf fileStatuses f = removed)))
    else sel0 !! f.
Proof.
  revert sel0. induction files_ as [|x fs IH]; intros sel0; simpl.
  - destruct (decide (f ∈ [])) as [H|_]; [by inversion H|done].
  - rewrite IH. destruct (decide (f ∈ fs)) as [Hin|Hnin].
    + by rewrite decide_True by (by right).
    + destruct (decide (f = x)) as [->|Hne].
      * rewrite decide_True by (by left). by rewrite lookup_insert_eq.
      * rewrite decide_False by (by intros [?|?]%elem_of_cons).
        by rewrite lookup_insert_ne.
Qed.

Lemma elem_of_unknownsOf files_ f :
  f ∈ unknownsOf fileStatuses files_ <->
  f ∈ files_ /\ statusOf fileStatuses f = unknown.
Proof.
  unfold unknownsOf. rewrite !list_elem_of_In, filter_In.
  by rewrite bool_decide_eq_true.
Qed.

(** In both modes a saved file of the call is checked and a removed one is
    not. *)
Lemma autoSelect_status files_ mode f :
  f ∈ files_ ->
  (statusOf fileStatuses f = saved ->
   autoSelectBestMCQ fileStatuses files_ metadata mode !! f = Some true)
  /\ (statusOf fileStatuses f = removed ->
      autoSelectBestMCQ fileStatuses files_ metadata mode !! f = Some false).
Proof.
  intros Hin.
  assert (files_ <> []) as Hne by (intros ->; inversion Hin).
  destruct mode.
  - unfold autoSelectBestMCQ.
    destruct (decide (length files_ = 0%nat)) as [Hz|_].
    { by apply length_zero_iff_nil in Hz. }
    unfold checkAllSelections. rewrite checkAll_lookup, decide_True by done.
    split; intros ->; done.
  - destruct (autoSelect_normal files_ Hne) as (sel & Hsel & ->).
    specialize (Hsel f). rewrite decide_True in Hsel by done.
    destruct (js_sort byPriority _) as [|first rest] eqn:Hsort.
    + rewrite Hsel. split; intros ->; done.
    + assert (first ∈ map (fun f => (f, priorityOf metadata f))
                        (unknownsOf fileStatuses files_)) as Hfirst.
      { rewrite <- (js_sort_perm byPriority), Hsort. by left. }
      apply list_elem_of_fmap in Hfirst as (u & -> & Hu). simpl.
      apply elem_of_unknownsOf in Hu as [_ Hu].
      split; intros Hst.
      * destruct (decide (u = f)) as [->|Hne'];
          [by rewrite lookup_insert_eq|].
        rewrite lookup_insert_ne, Hsel by done. by rewrite Hst.
      * assert (u <> f) as Hne' by (intros ->; congruence).
        rewrite lookup_insert_ne, Hsel by done. by rewrite Hst.
Qed.

End AutoSelect.

(** What normal mode gives an unknown file of the call: [true] exactly for
    the file of the first entry of the sorted unknown files. *)
Lemma autoSelect_unknown fileStatuses metadata files_ f :
  f ∈ unknownsOf fileStatuses files_ ->
  exists first rest,
    js_sort byPriority
      (map (fun f => (f, priorityOf metadata f))
         (unknownsOf fileStatuses files_)) = first :: rest
    /\ first.1 ∈ unknownsOf fileStatuses files_
    /\ first.2 = priorityOf metadata first.1
    /\ (forall x, x ∈ unknownsOf fileStatuses files_ ->
                  ranksAtLeast first.2 (priorityOf metadata x))
    /\ autoSelectBestMCQ fileStatuses files_ metadata false !! f
       = Some (bool_decide (first.1 = f)).
Proof.
  intros Hf.
  pose proof Hf as [Hin Hst]%elem_of_unknownsOf.
  assert (files_ <> []) as Hne by (intros ->; inversion Hin).
  destruct (autoSelect_normal fileStatuses metadata files_ Hne)
    as (sel & Hsel & ->).
  destruct (js_sort byPriority _) as [|first rest] eqn:Hsort.
  { apply (f_equal length) in Hsort.
    rewrite js_sort_length, length_map in Hsort.
    apply length_zero_iff_nil in Hsort. rewrite Hsort in Hf.
    by inversion Hf. }
  exists first, rest. split; [done|].
  destruct (js_sort_first_best byPriority _ first rest
              byPriority_total byPriority_trans Hsort) as [Hfirst Hbest].
  apply list_elem_of_fmap in Hfirst as (u & -> & Hu). simpl.
  split; [done|]. split; [done|]. split.
  - intros x Hx.
    specialize (Hbest (x, priorityOf metadata x)).
    apply byPriority_ranks in Hbest; [done|].
    apply list_elem_of_fmap. by exists x.
  - destruct (decide (u = f)) as [->|Hne'].
    + by rewrite lookup_insert_eq, bool_decide_eq_true_2.
    + rewrite lookup_insert_ne, Hsel, decide_True by done.
      rewrite Hst, (bool_decide_eq_false_2 (u = f)) by done. done.
Qed.

(** C4. In exhaustive mode, for every call whose files include a record
    of unknown status, exactly one unknown record is selected as keep, it
    is ranked at least as high as every unknown record of the call under
    the key (hasYear descending, fileNum ascending), and every other
    unknown record is set to discard.  Two calls whose unknown records
    are the same list with the same (hasYear, fileNum) select the same
    record; so do two calls whose unknown records are the same up to
    their order, when no two of them tie on the key. *)
Theorem C4_exhaustive_selects_single_top_ranked :
  (forall (fileStatuses : gmap string FileStatus)
          (metadata : gmap string McqMeta) (files_ : list string),
      unknownsOf fileStatuses files_ <> [] ->
      let sel := autoSelectBestMCQ fileStatuses files_ metadata false in
      exists best,
        best ∈ unknownsOf fileStatuses files_
        /\ sel !! best = Some true
        /\ (forall f, f ∈ unknownsOf fileStatuses files_ -> f <> best ->
                      sel !! f = Some false)
        /\ (forall f, f ∈ unknownsOf fileStatuses files_ ->
                      ranksAtLeast (priorityOf metadata best)
                        (priorityOf metadata f)))
  /\ (forall (fileStatuses1 fileStatuses2 : gmap string FileStatus)
             (metadata1 metadata2 : gmap string McqMeta)
             (files1 files2 : list string),
         unknownsOf fileStatuses1 files1 = unknownsOf fileStatuses2 files2 ->
         (forall f, f ∈ unknownsOf fileStatuses1 files1 ->
                    priorityOf metadata1 f = priorityOf metadata2 f) ->
         forall f, f ∈ unknownsOf fileStatuses1 files1 ->
           autoSelectBestMCQ fileStatuses1 files1 metadata1 false !! f
           = autoSelectBestMCQ fileStatuses2 files2 metadata2 false !! f)
  /\ (forall (fileStatuses1 fileStatuses2 : gmap string FileStatus)
             (metadata : gmap string McqMeta) (files1 files2 : list string),
         unknownsOf fileStatuses1 files1 ≡ₚ unknownsOf fileStatuses2 files2 ->
         (forall a b, a ∈ unknownsOf fileStatuses1 files1 ->
                      b ∈ unknownsOf fileStatuses1 files1 ->
                      ranksAtLeast (priorityOf metadata a)
                        (priorityOf metadata b) ->
                      ranksAtLeast (priorityOf metadata b)
                        (priorityOf metadata a) ->
                      a = b) ->
         forall f, f ∈ unknownsOf fileStatuses1 files1 ->
           autoSelectBestMCQ fileStatuses1 files1 metadata false !! f
           = autoSelectBestMCQ fileStatuses2 files2 metadata false !! f).
Proof.
  split; [|split].
  - intros fileStatuses metadata files_ Hne sel.
    destruct (unknownsOf fileStatuses files_) as [|u0 us] eqn:Hunk; [done|].
    destruct (autoSelect_unknown fileStatuses metadata files_ u0)
      as (first & rest & Hsort & Hin & Hprio & Hbest & _).
    { rewrite Hunk. by left. }
    rewrite Hunk in Hin, Hbest, Hsort.
    exists first.1. split; [done|]. split; [|split].
    + destruct (autoSelect_unknown fileStatuses metadata files_ first.1)
        as (first' & rest' & Hsort' & _ & _ & _ & Hlk); [by rewrite Hunk|].
      rewrite Hunk, Hsort in Hsort'. inversion Hsort'; subst first' rest'.
      subst sel. rewrite Hlk. by rewrite bool_decide_eq_true_2.
    + intros f Hf Hne'.
      destruct (autoSelect_unknown fileStatuses metadata files_ f)
        as (first' & rest' & Hsort' & _ & _ & _ & Hlk); [by rewrite Hunk|].
      rewrite Hunk, Hsort in Hsort'. inversion Hsort'; subst first' rest'.
      subst sel. rewrite Hlk. by rewrite bool_decide_eq_false_2.
    + intros f Hf. rewrite <- Hprio. by apply Hbest.
  - intros fs1 fs2 md1 md2 files1 files2 Hsame Hprio f Hf.
    destruct (autoSelect_unknown fs1 md1 files1 f Hf)
      as (first1 & rest1 & Hsort1 & _ & _ & _ & ->).
    destruct (autoSelect_unknown fs2 md2 files2 f)
      as (first2 & rest2 & Hsort2 & _ & _ & _ & ->); [by rewrite <- Hsame|].
    rewrite <- Hsame in Hsort2.
    assert (map (fun f => (f, priorityOf md1 f)) (unknownsOf fs1 files1)
            = map (fun f => (f, priorityOf md2 f)) (unknownsOf fs1 files1))
      as Hmap.
    { apply map_ext_in. intros x Hx%list_elem_of_In. by rewrite Hprio. }
    rewrite Hmap, Hsort2 in Hsort1. by inversion Hsort1.
  - intros fs1 fs2 md files1 files2 Hperm Hnotie f Hf.
    destruct (autoSelect_unknown fs1 md files1 f Hf)
      as (first1 & rest1 & _ & Hin1 & Hp1 & Hbest1 & ->).
    destruct (autoSelect_unknown fs2 md files2 f)
      as (first2 & rest2 & _ & Hin2 & Hp2 & Hbest2 & ->);
      [by rewrite <- Hperm|].
    rewrite <- Hperm in Hin2.
    assert (first1.1 = first2.1) as ->; [|done].
    apply Hnotie; [done|done| |].
    + rewrite <- Hp1. by apply Hbest1.
    + rewrite <- Hp2. apply Hbest2. by rewrite <- Hperm.
Qed.

Lemma C4_exhaustive_selects_single_top_ranked_witness :
  unknownsOf ∅ files_three <> []
  /\ exists best,
       best ∈ unknownsOf ∅ files_three
       /\ autoSelectBestMCQ ∅ files_three metadata_three false !! best
          = Some true
       /\ (forall f, f ∈ unknownsOf ∅ files_three -> f <> best ->
             autoSelectBestMCQ ∅ files_three metadata_three false !! f
             = Some false).
Proof.
  assert (unknownsOf ∅ files_three <> []) as Hne by discriminate.
  split; [exact Hne|].
  destruct (proj1 C4_exhaustive_selects_single_top_ranked ∅ metadata_three
              files_three Hne) as (best & Hin & Hbest & Hothers & _).
  exists best. split; [exact Hin|]. split; [exact Hbest|exact Hothers].
Defined.

(** ** Recomputation of the selections *)

Section Reconcile.

Variable fileStatuses : gmap string FileStatus.
Variable metadata : gmap string McqMeta.
Variable checkAllMode : bool.
Variable userModified : gset string.

Lemma applyAutoSelection_other groupSelections (merged : gmap string bool) x f :
  x <> f ->
  applyAutoSelection fileStatuses groupSelections merged x !! f = merged !! f.
Proof.
  intros Hne. unfold applyAutoSelection.
  destruct (bool_decide _ || bool_decide _); [by rewrite lookup_insert_ne|].
  destruct (decide (is_Some (merged !! x))); [done|].
  by rewrite lookup_insert_ne.
Qed.

Lemma apply_fold_other groupSelections l (merged : gmap string bool) f :
  f ∉ l ->
  foldl (applyAutoSelection fileStatuses groupSelections) merged l !! f
  = merged !! f.
Proof.
  revert merged. induction l as [|x l IH]; intros merged Hnin; simpl; [done|].
  rewrite IH by (intros H; apply Hnin; by right).
  apply applyAutoSelection_other. intros ->. apply Hnin. by left.
Qed.

Lemma apply_fold_status groupSelections l (merged : gmap string bool) f :
  f ∈ l ->
  statusOf fileStatuses f = saved \/ statusOf fileStatuses f = removed ->
  foldl (applyAutoSelection fileStatuses groupSelections) merged l !! f
  = Some (default false (groupSelections !! f)).
Proof.
  intros Hin Hst. revert merged Hin.
  induction l as [|x l IH]; intros merged Hin; simpl; [by inversion Hin|].
  destruct (decide (f ∈ l)) as [Hl|Hl]; [by apply IH|].
  apply elem_of_cons in Hin as [->|Hin]; [|done].
  rewrite apply_fold_other by done.
  unfold applyAutoSelection.
  assert (bool_decide (statusOf fileStatuses x = saved)
          || bool_decide (statusOf fileStatuses x = removed) = true) as ->.
  { apply orb_true_iff. destruct Hst as [H|H]; [left|right];
      by apply bool_decide_eq_true. }
  by rewrite lookup_insert_eq.
Qed.

Lemma elem_of_filesForAutoSelect groupFiles f :
  f ∈ List.filter (fun f => negb (bool_decide (f ∈ userModified))) groupFiles
  <-> f ∈ groupFiles /\ f ∉ userModified.
Proof.
  rewrite !list_elem_of_In, filter_In, negb_true_iff, bool_decide_eq_false.
  done.
Qed.

Lemma reconcileGroup_userModified existing groupFiles f :
  f ∈ userModified ->
  reconcileGroup fileStatuses metadata checkAllMode userModified existing
    groupFiles !! f = existing !! f.
Proof.
  intros Hf. unfold reconcileGroup.
  destruct (decide (0 < length _)%nat); [|done].
  apply apply_fold_other. intros [_ Hn]%elem_of_filesForAutoSelect. done.
Qed.

Lemma reconcileGroup_status existing groupFiles f :
  f ∈ groupFiles -> f ∉ userModified ->
  (statusOf fileStatuses f = saved ->
   reconcileGroup fileStatuses metadata checkAllMode userModified existing
     groupFiles !! f = Some true)
  /\ (statusOf fileStatuses f = removed ->
      reconcileGroup fileStatuses metadata checkAllMode userModified existing
        groupFiles !! f = Some false).
Proof.
  intros Hin Hnot. unfold reconcileGroup.
  set (filesForAutoSelect :=
         List.filter (fun f => negb (bool_decide (f ∈ userModified)))
           groupFiles).
  assert (f ∈ filesForAutoSelect) as Hauto.
  { by apply elem_of_filesForAutoSelect. }
  destruct (decide (0 < length filesForAutoSelect)%nat) as [_|Hz].
  2:{ destruct filesForAutoSelect; [by inversion Hauto|simpl in Hz; lia]. }
  destruct (autoSelect_status fileStatuses metadata filesForAutoSelect
              checkAllMode f Hauto) as [Hsaved Hremoved].
  split; intros Hst.
  - rewrite apply_fold_status by (done || by left). by rewrite Hsaved.
  - rewrite apply_fold_status by (done || by right). by rewrite Hremoved.
Qed.

Lemma reconcileFrom_lookup gs i (updated : Selections) gi :
  (forall g, (i <= gi)%nat -> gs !! (gi - i)%nat = Some g ->
     reconcileFrom fileStatuses metadata checkAllMode userModified gs i
       updated !! gi
     = Some (reconcileGroup fileStatuses metadata checkAllMode userModified
               (default ∅ (updated !! gi)) (files g)))
  /\ ((gi < i \/ i + length gs <= gi)%nat ->
      reconcileFrom fileStatuses metadata checkAllMode userModified gs i
        updated !! gi = updated !! gi).
Proof.
  revert i updated. induction gs as [|g0 rest IH]; intros i updated; simpl.
  - split; [|done]. intros g _ Hg. by rewrite lookup_nil in Hg.
  - set (merged := reconcileGroup _ _ _ _ _ (files g0)).
    destruct (IH (S i) (<[i := merged]> updated)) as [IH1 IH2].
    split.
    + intros g Hle Hg. destruct (decide (gi = i)) as [->|Hne].
      * rewrite Nat.sub_diag in Hg. simpl in Hg. inversion Hg; subst g.
        rewrite IH2 by lia. by rewrite lookup_insert_eq.
      * replace (gi - i)%nat with (S (gi - S i)) in Hg by lia. simpl in Hg.
        rewrite (IH1 g) by (lia || done).
        by rewrite lookup_insert_ne by done.
    + intros Hout. rewrite IH2 by lia. rewrite lookup_insert_ne by lia. done.
Qed.

Lemma recompute_lookup groups (prev : Selections) gi g :
  groups !! gi = Some g ->
  recomputeSelections fileStatuses metadata checkAllMode userModified groups
    prev !! gi
  = Some (reconcileGroup fileStatuses metadata checkAllMode userModified
            (default ∅ (prev !! gi)) (files g)).
Proof.
  intros Hg. unfold recomputeSelections.
  apply reconcileFrom_lookup; [lia|]. by rewrite Nat.sub_0_r.
Qed.

(** A recomputation leaves the selections of a user-modified file as they
    are, in every group. *)
Lemma recompute_keeps_userModified groups (prev : Selections) gi f :
  f ∈ userModified ->
  selectionOf
    (recomputeSelections fileStatuses metadata checkAllMode userModified
       groups prev) gi f
  = selectionOf prev gi f.
Proof.
  intros Hf. unfold selectionOf.
  destruct (groups !! gi) as [g|] eqn:Hg.
  - rewrite (recompute_lookup groups prev gi g Hg).
    rewrite reconcileGroup_userModified by done.
    destruct (prev !! gi); [done|]. simpl. by rewrite lookup_empty.
  - unfold recomputeSelections.
    destruct (reconcileFrom_lookup groups 0 prev gi) as [_ Hout].
    rewrite Hout; [done|]. right. apply lookup_ge_None in Hg. lia.
Qed.

End Reconcile.




(** ** C5: user toggles *)

Section Toggle.

Variable groups : list Group.
Variable filename : string.
Variable chk : bool.
Variable prev : Selections.

Lemma toggleStep_keeps updated x gi :
  selectionOf updated gi filename = Some chk ->
  selectionOf (toggleStep groups filename chk prev updated x) gi filename
  = Some chk.
Proof.
  intros H. unfold toggleStep.
  destruct (groups !! x) as [g|]; [|done].
  destruct (decide (filename ∈ files g)); [|done].
  unfold selectionOf. destruct (decide (x = gi)) as [->|Hne].
  - by rewrite !lookup_insert_eq.
  - by rewrite lookup_insert_ne.
Qed.

Lemma toggleStep_sets updated gi g :
  groups !! gi = Some g -> filename ∈ files g ->
  selectionOf (toggleStep groups filename chk prev updated gi) gi filename
  = Some chk.
Proof.
  intros Hg Hf. unfold toggleStep. rewrite Hg.
  rewrite decide_True by done.
  unfold selectionOf. by rewrite !lookup_insert_eq.
Qed.

Lemma toggle_fold_keeps xs updated gi :
  selectionOf updated gi filename = Some chk ->
  selectionOf (foldl (toggleStep groups filename chk prev) updated xs) gi
    filename = Some chk.
Proof.
  revert updated. induction xs as [|x xs IH]; intros updated H; simpl; [done|].
  by apply IH, toggleStep_keeps.
Qed.

Lemma toggle_fold_sets xs updated gi g :
  gi ∈ xs -> groups !! gi = Some g -> filename ∈ files g ->
  selectionOf (foldl (toggleStep groups filename chk prev) updated xs) gi
    filename = Some chk.
Proof.
  intros Hin Hg Hf. revert updated.
  induction xs as [|x xs IH]; intros updated; simpl; [by inversion Hin|].
  apply elem_of_cons in Hin as [<-|Hin]; [|by apply IH].
  by eapply toggle_fold_keeps, toggleStep_sets.
Qed.

End Toggle.

Lemma updateCheckedFiles_persists now subj filename chk ls session :
  loadSession subj ls = Some session ->
  exists session',
    loadSession subj (updateCheckedFiles now subj filename chk ls)
    = Some session'
    /\ checkedFiles session' = <[filename := chk]> (checkedFiles session)
    /\ subject session' = subj.
Proof.
  intros Hload. unfold updateCheckedFiles. rewrite Hload.
  pose proof (loadSession_subject _ _ _ Hload) as Hsubj.
  eexists. split; [|split].
  - rewrite <- Hsubj at 1.
    apply (loadSession_saveSession now
             (withCheckedFiles (<[filename := chk]> (checkedFiles session))
                session)).
  - done.
  - done.
Qed.

Lemma saveRangeEffect_creates now subj rangeStart rangeEnd target manual ls :
  exists session,
    loadSession subj (saveRangeEffect now subj rangeStart rangeEnd target
                        manual ls) = Some session.
Proof.
  unfold saveRangeEffect.
  destruct (loadSession subj ls) as [session|] eqn:Hload.
  - pose proof (loadSession_subject _ _ _ Hload) as Hsubj.
    eexists. rewrite <- Hsubj at 1.
    match goal with
    | |- loadSession _ (saveSession _ ?s _) = _ =>
        apply (loadSession_saveSession now s)
    end.
  - eexists.
    match goal with
    | |- loadSession _ (saveSession _ ?s _) = _ =>
        apply (loadSession_saveSession now s)
    end.
Qed.

(** C5. After the user toggles record [filename] to [chk]: its selection
    is [chk] in every group of the current page that contains it; it is
    marked user-modified, and a later recomputation of the selections, in
    any mode and under any statuses, leaves its selection unchanged in every
    group; and the override is written to the stored session of the
    subject, which exists once the range-saving effect has run. *)
Theorem C5_toggle_propagates_and_persists :
  forall (now : Z) (subj : string) (groups : list Group) (start_ end_ : Q)
         (filename : string) (chk : bool) (st : ReviewState),
    let page := getGroupsForCurrentPage groups start_ end_ in
    let st' := handleFileToggleAll now subj groups start_ end_ filename chk
                 st in
    (forall gi g, gi ∈ page -> groups !! gi = Some g -> filename ∈ files g ->
       selectionOf (autoSelections st') gi filename = Some chk)
    /\ filename ∈ userModifiedFiles st'
    /\ (forall fileStatuses metadata mode gi,
          selectionOf
            (recomputeSelections fileStatuses metadata mode
               (userModifiedFiles st') groups (autoSelections st'))
            gi filename
          = selectionOf (autoSelections st') gi filename)
    /\ (forall session,
          loadSession subj (localStorage st) = Some session ->
          exists session',
            loadSession subj (localStorage st') = Some session'
            /\ checkedFiles session' !! filename = Some chk)
    /\ (forall now0 rangeStart rangeEnd target manual ls,
          exists session',
            loadSession subj
              (updateCheckedFiles now subj filename chk
                 (saveRangeEffect now0 subj rangeStart rangeEnd target manual
                    ls))
            = Some session'
            /\ checkedFiles session' !! filename = Some chk).
Proof.
  intros now subj groups start_ end_ filename chk st page st'.
  split; [|split; [|split; [|split]]].
  - intros gi g Hin Hg Hf. subst st'. simpl. unfold toggleSelections.
    by eapply toggle_fold_sets.
  - subst st'. simpl. set_solver.
  - intros fileStatuses metadata mode gi.
    apply recompute_keeps_userModified. subst st'. simpl. set_solver.
  - intros session Hload. subst st'. simpl.
    destruct (updateCheckedFiles_persists now subj filename chk _ _ Hload)
      as (session' & Hload' & Hchecked & _).
    exists session'. split; [done|].
    by rewrite Hchecked, lookup_insert_eq.
  - intros now0 rangeStart rangeEnd target manual ls.
    destruct (saveRangeEffect_creates now0 subj rangeStart rangeEnd target
                manual ls) as (session & Hload).
    destruct (updateCheckedFiles_persists now subj filename chk _ _ Hload)
      as (session' & Hload' & Hchecked & _).
    exists session'. split; [done|].
    by rewrite Hchecked, lookup_insert_eq.
Qed.

Lemma C5_toggle_propagates_and_persists_witness :
  selectionOf
    (autoSelections
       (handleFileToggleAll 30 "physics" groups_shared 100 0 "2.json" true
          state_shared)) 0 "2.json" = Some true
  /\ exists session',
       loadSession "physics"
         (localStorage
            (handleFileToggleAll 30 "physics" groups_shared 100 0 "2.json"
               true state_shared)) = Some session'
       /\ checkedFiles session' !! "2.json" = Some true.
Proof.
  destruct (C5_toggle_propagates_and_persists 30 "physics" groups_shared
              100%Q 0%Q "2.json" true state_shared)
    as (Hsel & _ & _ & Hstore & _).
  split.
  - apply (Hsel 0%nat (mkGroup ["1.json"; "2.json"] 0.999)).
    + vm_compute. by left.
    + reflexivity.
    + by right; left.
  - apply (Hstore (stamp 10 physicsSession)). reflexivity.
Defined.

(** ** C8: conflict detection *)

Section Conflicts.

Variable groups : list Group.
Variable fileStatuses : gmap string FileStatus.
Variable sel : Selections.

Lemma holdsValue_cons gi page f b :
  holdsValue groups fileStatuses sel (gi :: page) f b <->
  (exists g, groups !! gi = Some g /\ f ∈ files g
             /\ isCheckedIn fileStatuses (default ∅ (sel !! gi)) f = b)
  \/ holdsValue groups fileStatuses sel page f b.
Proof.
  unfold holdsValue. split.
  - intros (gi' & g & [->|Hin]%elem_of_cons & Hg & Hf).
    + left. by exists g.
    + right. by exists gi', g.
  - intros [(g & Hg & Hf)|(gi' & g & Hin & Hg & Hf)].
    + exists gi, g. split; [by left|done].
    + exists gi', g. split; [by right|done].
Qed.

Lemma holdsValue_perm page page' f b :
  page ≡ₚ page' ->
  holdsValue groups fileStatuses sel page f b ->
  holdsValue groups fileStatuses sel page' f b.
Proof.
  intros Hperm (gi & g & Hin & H). exists gi, g. split; [|done].
  by rewrite <- Hperm.
Qed.

Lemma addFileState_recorded selections (fileStates : gmap string (gset bool))
  x f b :
  recorded (addFileState fileStatuses selections fileStates x) f b <->
  recorded fileStates f b
  \/ (x = f /\ isCheckedIn fileStatuses selections f = b).
Proof.
  unfold recorded, addFileState.
  destruct (decide (x = f)) as [->|Hne].
  - rewrite lookup_insert_eq. split.
    + intros (states & [= <-] & [Hb|Hb]%elem_of_union).
      * apply elem_of_singleton in Hb. right. by split.
      * left. destruct (fileStates !! f) as [s0|] eqn:E; simpl in Hb.
        -- by exists s0.
        -- set_solver.
    + intros [(states & Hs & Hb)|[_ Hb]].
      * eexists. split; [done|]. rewrite Hs. simpl. set_solver.
      * eexists. split; [done|]. set_solver.
  - rewrite lookup_insert_ne by done. split; [by left|].
    intros [H|[H _]]; [done|congruence].
Qed.

Lemma addFileState_fold selections fs (fileStates : gmap string (gset bool))
  f b :
  recorded (foldl (addFileState fileStatuses selections) fileStates fs) f b
  <-> recorded fileStates f b
      \/ (f ∈ fs /\ isCheckedIn fileStatuses selections f = b).
Proof.
  revert fileStates. induction fs as [|x fs IH]; intros fileStates; simpl.
  - split; [by left|]. intros [H|[H _]]; [done|by inversion H].
  - rewrite IH, addFileState_recorded. split.
    + intros [[H|[-> H]]|[Hin H]]; [by left| |].
      * right. split; [by left|done].
      * right. split; [by right|done].
    + intros [H|[[->|Hin]%elem_of_cons H]]; [by left; left| |].
      * left; right. done.
      * right. done.
Qed.

Lemma collect_fold page (fileStates : gmap string (gset bool)) f b :
  recorded
    (foldl (fun fileStates groupIndex =>
              match groups !! groupIndex with
              | None => fileStates
              | Some group =>
                  let selections := default ∅ (sel !! groupIndex) in
                  foldl (addFileState fileStatuses selections) fileStates
                    (files group)
              end) fileStates page) f b
  <-> recorded fileStates f b
      \/ holdsValue groups fileStatuses sel page f b.
Proof.
  revert fileStates. induction page as [|gi page IH]; intros fileStates; simpl.
  - split; [by left|]. intros [H|(gi & g & Hin & _)]; [done|by inversion Hin].
  - rewrite IH, holdsValue_cons.
    destruct (groups !! gi) as [g|] eqn:Hg.
    + cbv zeta. rewrite addFileState_fold. split.
      * intros [[H|[Hf Hb]]|H]; [by left| |by right; right].
        right; left. by exists g.
      * intros [H|[(g' & [= <-] & Hf & Hb)|H]];
          [by left; left|by left; right|by right].
    + split.
      * intros [H|H]; [by left|by right; right].
      * intros [H|[(g' & Hg' & _)|H]]; [by left|done|by right].
Qed.

Lemma elem_of_conflictsOf page f :
  f ∈ conflictsOf (collectFileStates groups fileStatuses sel page) <->
  holdsValue groups fileStatuses sel page f true
  /\ holdsValue groups fileStatuses sel page f false.
Proof.
  unfold conflictsOf, collectFileStates.
  rewrite elem_of_dom. unfold is_Some.
  setoid_rewrite map_lookup_filter_Some. simpl.
  pose proof (collect_fold page ∅ f) as Hrec. unfold recorded in Hrec.
  split.
  - intros (states & Hs & Ht & Hf).
    assert (Hb : forall b, b ∈ states ->
              holdsValue groups fileStatuses sel page f b).
    { intros b Hbin.
      destruct (proj1 (Hrec b)) as [(s0 & Hs0 & _)|H];
        [by exists states|by rewrite lookup_empty in Hs0|done]. }
    split; by apply Hb.
  - intros [Ht Hf].
    destruct (proj2 (Hrec true) (or_intror Ht)) as (s1 & Hs1 & Hb1).
    destruct (proj2 (Hrec false) (or_intror Hf)) as (s2 & Hs2 & Hb2).
    rewrite Hs1 in Hs2. inversion Hs2; subst s2.
    by exists s1.
Qed.

End Conflicts.

(** C8. For every record of a group on the current page, the record is in
    the conflict set the detection leaves exactly when, among the values
    it holds across the groups of the page that contain it, both [true]
    and [false] occur; on a page with at least one group this decides
    membership for every record, and the detection never adds a record
    that does not hold both values. *)
Theorem C8_conflict_iff_both_values :
  forall (groups : list Group) (fileStatuses : gmap string FileStatus)
         (sel : Selections) (start_ end_ : Q) (prev : gset string)
         (f : string),
    let page := getGroupsForCurrentPage groups start_ end_ in
    let conflicts :=
      detectConflictsEffect groups fileStatuses sel start_ end_ prev in
    let conflicting :=
      holdsValue groups fileStatuses sel page f true
      /\ holdsValue groups fileStatuses sel page f false in
    (onPage groups page f -> (f ∈ conflicts <-> conflicting))
    /\ (page <> [] -> (f ∈ conflicts <-> conflicting))
    /\ (f ∈ conflicts -> f ∉ prev -> conflicting).
Proof.
  intros groups fileStatuses sel start_ end_ prev f page conflicts conflicting.
  pose proof (reordered_page_perm groups start_ end_) as Hperm. fold page in Hperm.
  assert (Hiff : page <> [] -> (f ∈ conflicts <-> conflicting)).
  { intros Hne. subst conflicts. unfold detectConflictsEffect.
    destruct (decide (length _ = 0%nat)) as [Hz|_].
    { rewrite Hperm in Hz. by apply length_zero_iff_nil in Hz. }
    rewrite elem_of_conflictsOf. subst conflicting.
    split; intros [Ht Hf]; split;
      (eapply holdsValue_perm; [|done]); done. }
  split; [|split; [done|]].
  - intros (gi & g & Hin & _). apply Hiff. intros Hnil.
    rewrite Hnil in Hin. by inversion Hin.
  - intros Hin Hnot. destruct (decide (page = [])) as [Hnil|Hne].
    + exfalso. apply Hnot. subst conflicts.
      unfold detectConflictsEffect in Hin.
      rewrite decide_True in Hin; [done|].
      rewrite Hperm. fold page. by rewrite Hnil.
    + by apply Hiff.
Qed.

Lemma C8_conflict_iff_both_values_witness :
  onPage groups_shared (getGroupsForCurrentPage groups_shared 100 0) "2.json"
  /\ "2.json" ∈ detectConflictsEffect groups_shared ∅ sel_shared 100 0 ∅.
Proof.
  assert (onPage groups_shared (getGroupsForCurrentPage groups_shared 100 0)
            "2.json") as Hon.
  { exists 0%nat, (mkGroup ["1.json"; "2.json"] 0.999).
    split; [vm_compute; by left|]. split; [reflexivity|].
    right. by left. }
  split; [exact Hon|].
  destruct (C8_conflict_iff_both_values groups_shared ∅ sel_shared 100%Q 0%Q
              ∅ "2.json") as (Hpage & _ & _).
  apply (Hpage Hon). split.
  - exists 2%nat, (mkGroup ["2.json"; "5.json"] 0.998).
    split; [vm_compute; right; right; by left|]. split; [reflexivity|].
    split; [by left|reflexivity].
  - exists 0%nat, (mkGroup ["1.json"; "2.json"] 0.999).
    split; [vm_compute; by left|]. split; [reflexivity|].
    split; [by right; left|reflexivity].
Defined.

(** * Further properties *)

(** ** Session store *)

Lemma loadSession_saveSession_eq now s ls subj :
  subject s = subj ->
  loadSession subj (saveSession now s ls) = Some (stamp now s).
Proof. intros <-. apply loadSession_saveSession. Qed.

Lemma loadSession_Some_inv subj ls s :
  loadSession subj ls = Some s -> ls !! STORAGE_KEY = Some s /\ subject s = subj.
Proof.
  unfold loadSession. destruct (ls !! STORAGE_KEY) as [s'|]; [|done].
  case_decide; [|done]. by intros [= ->].
Qed.

(** X1. [clearSession(subject)] removes the session of that subject and,
    for a subject that is not the empty string, leaves what any other
    subject loads as it was; [clearSession()] without a subject removes
    the session whatever its subject. *)
Theorem X1_clearSession_only_own_subject :
  forall (subj other : string) (ls : LocalStorage),
    loadSession subj (clearSession (Some subj) ls) = None
    /\ (subj <> EmptyString -> other <> subj ->
        loadSession other (clearSession (Some subj) ls) = loadSession other ls)
    /\ loadSession other (clearSession None ls) = None.
Proof.
  intros subj other ls. unfold clearSession, loadSession.
  split; [|split].
  - destruct (decide (subj = EmptyString)) as [_|_];
      [by rewrite lookup_delete_eq|].
    destruct (ls !! STORAGE_KEY) as [s|] eqn:E.
    + destruct (decide (subject s = subj)) as [Hs|Hs].
      * by rewrite lookup_delete_eq.
      * rewrite E. by rewrite decide_False.
    + by rewrite E.
  - intros Hsubj Hne. rewrite decide_False by done. destruct (ls !! STORAGE_KEY) as [s|] eqn:E; [|by rewrite E].
    destruct (decide (subject s = subj)) as [Hs|Hs]; [|by rewrite E].
    rewrite lookup_delete_eq. rewrite decide_False; [done|congruence].
  - by rewrite lookup_delete_eq.
Qed.

Lemma X1_clearSession_only_own_subject_witness :
  loadSession "physics"
    (clearSession (Some "chemistry") (saveSession 10 physicsSession ∅))
  = loadSession "physics" (saveSession 10 physicsSession ∅).
Proof.
  apply (X1_clearSession_only_own_subject "chemistry" "physics");
    discriminate.
Defined.

(** X2. [updateCheckedFiles] changes nothing when no session of the
    subject is stored; otherwise the stored session gets the new value for
    the file and keeps the checked state of every other file, its
    completed groups, its range and its metadata. *)
Theorem X2_updateCheckedFiles_frame :
  forall (now : Z) (subj filename : string) (chk : bool) (ls : LocalStorage),
    (loadSession subj ls = None ->
     updateCheckedFiles now subj filename chk ls = ls)
    /\ (forall session, loadSession subj ls = Some session ->
          exists session',
            loadSession subj (updateCheckedFiles now subj filename chk ls)
            = Some session'
            /\ checkedFiles session' !! filename = Some chk
            /\ (forall other, other <> filename ->
                  checkedFiles session' !! other
                  = checkedFiles session !! other)
            /\ completedGroups session' = completedGroups session
            /\ currentGroupIndex session' = currentGroupIndex session
            /\ similarityRangeStart session' = similarityRangeStart session
            /\ similarityRangeEnd session' = similarityRangeEnd session
            /\ targetGroupsPerPage session' = targetGroupsPerPage session
            /\ isManualRange session' = isManualRange session
            /\ mcqMetadata session' = mcqMetadata session
            /\ lastUpdated session' = now).
Proof.
  intros now subj filename chk ls. unfold updateCheckedFiles. split.
  - by intros ->.
  - intros session Hload. rewrite Hload.
    pose proof (loadSession_subject _ _ _ Hload) as Hsubj.
    eexists. split; [by apply loadSession_saveSession_eq|]. simpl.
    split; [by rewrite lookup_insert_eq|].
    split; [intros other Hne; by rewrite lookup_insert_ne|].
    repeat split.
Qed.

Lemma X2_updateCheckedFiles_frame_witness :
  updateCheckedFiles 30 "chemistry" "12.json" false
    (saveSession 10 physicsSession ∅)
  = saveSession 10 physicsSession ∅.
Proof.
  apply (X2_updateCheckedFiles_frame 30 "chemistry" "12.json" false).
  reflexivity.
Defined.

(** X3. [markGroupCompleted] changes nothing when no session of the
    subject is stored; otherwise the group is among the completed groups
    afterwards, no other group is added or lost, a group already completed
    is not listed a second time, and the current group index is the one
    after the group. *)
Theorem X3_markGroupCompleted_adds_once :
  forall (now : Z) (subj : string) (groupIndex : nat) (ls : LocalStorage),
    (loadSession subj ls = None ->
     markGroupCompleted now subj groupIndex ls = ls)
    /\ (forall session, loadSession subj ls = Some session ->
          exists session',
            loadSession subj (markGroupCompleted now subj groupIndex ls)
            = Some session'
            /\ (forall g, g ∈ completedGroups session' <->
                          g ∈ completedGroups session \/ g = groupIndex)
            /\ (NoDup (completedGroups session) ->
                NoDup (completedGroups session'))
            /\ (groupIndex ∈ completedGroups session ->
                completedGroups session' = completedGroups session)
            /\ currentGroupIndex session' = (groupIndex + 1)%nat
            /\ checkedFiles session' = checkedFiles session).
Proof.
  intros now subj groupIndex ls. unfold markGroupCompleted. split.
  - by intros ->.
  - intros session Hload. rewrite Hload.
    pose proof (loadSession_subject _ _ _ Hload) as Hsubj.
    eexists. split; [by apply loadSession_saveSession_eq|]. simpl.
    destruct (decide (groupIndex ∈ completedGroups session)) as [Hin|Hnin].
    + split; [|done]. intros g. split; [by left|].
      intros [H| ->]; done.
    + split; [|split; [|done]].
      * intros g. rewrite elem_of_app, list_elem_of_singleton. done.
      * intros Hnd. apply NoDup_app. split; [done|].
        split; [|apply NoDup_singleton].
        intros g Hg ->%list_elem_of_singleton. done.
Qed.

Lemma X3_markGroupCompleted_adds_once_witness :
  exists session',
    loadSession "physics"
      (markGroupCompleted 30 "physics" 4
         (markGroupCompleted 20 "physics" 4 (saveSession 10 physicsSession ∅)))
    = Some session'
    /\ completedGroups session' = [4%nat].
Proof.
  destruct (X3_markGroupCompleted_adds_once 30 "physics" 4
              (markGroupCompleted 20 "physics" 4
                 (saveSession 10 physicsSession ∅)))
    as [_ Hsome].
  destruct (Hsome _ eq_refl) as (session' & Hload & _ & _ & Hsame & _).
  exists session'. split; [exact Hload|].
  rewrite Hsame; [reflexivity|].
  vm_compute. by left.
Defined.

(** X4. After [updateMCQMetadata] the metadata read back for the subject
    holds every new entry, and for every file without a new entry what was
    stored before; the session is created when none was stored. *)
Theorem X4_updateMCQMetadata_merges :
  forall (now : Z) (subj : string) (metadata : gmap string McqMeta)
         (ls : LocalStorage) (filename : string),
    is_Some (loadSession subj (updateMCQMetadata now subj metadata ls))
    /\ storedMetadata subj (updateMCQMetadata now subj metadata ls) !! filename
       = match metadata !! filename with
         | Some entry => Some entry
         | None => storedMetadata subj ls !! filename
         end
    /\ (forall session, loadSession subj ls = Some session ->
          exists session',
            loadSession subj (updateMCQMetadata now subj metadata ls)
            = Some session'
            /\ checkedFiles session' = checkedFiles session
            /\ completedGroups session' = completedGroups session
            /\ similarityRangeStart session' = similarityRangeStart session
            /\ similarityRangeEnd session' = similarityRangeEnd session).
Proof.
  intros now subj metadata ls filename.
  assert (Hsubj : subject match loadSession subj ls with
                          | Some session => session
                          | None => freshSession subj now
                          end = subj).
  { destruct (loadSession subj ls) as [s|] eqn:E; [|done].
    by apply loadSession_subject in E. }
  unfold updateMCQMetadata, storedMetadata.
  rewrite loadSession_saveSession_eq by done.
  split; [done|]. split.
  - simpl. rewrite lookup_union.
    destruct (loadSession subj ls) as [s|]; simpl;
      destruct (metadata !! filename) as [entry|]; simpl;
      try rewrite lookup_empty; try done;
      match goal with |- context [?m !! filename] =>
        by destruct (m !! filename) end.
  - intros session Hload. rewrite Hload. eexists. split; [done|]. done.
Qed.

(** X5. The range written by the range-saving effect is the range
    [loadSavedRange] restores, with its target and its manual flag,
    whatever was stored before; and without a session of the subject
    [loadSavedRange] gives the default range 100.0 - 99.9 with target 100. *)
Theorem X5_saved_range_round_trip :
  forall (now : Z) (subj : string) (rangeStart_ rangeEnd_ target : Q)
         (manual : bool) (ls : LocalStorage),
    loadSavedRange subj
      (saveRangeEffect now subj rangeStart_ rangeEnd_ target manual ls)
    = {| saved_start := rangeStart_; saved_end := rangeEnd_;
         saved_isManual := manual; saved_targetGroups := target;
         hasSaved := true |}
    /\ (loadSession subj ls = None ->
        loadSavedRange subj ls
        = {| saved_start := 100.0; saved_end := 99.9;
             saved_isManual := false; saved_targetGroups := 100;
             hasSaved := false |}).
Proof.
  intros now subj rangeStart_ rangeEnd_ target manual ls. split.
  - unfold loadSavedRange, saveRangeEffect.
    rewrite loadSession_saveSession_eq; [done|]. simpl.
    destruct (loadSession subj ls) as [s|] eqn:E; [|done].
    by apply loadSession_subject in E.
  - intros Hnone. unfold loadSavedRange. by rewrite Hnone.
Qed.

Lemma X5_saved_range_round_trip_witness :
  loadSavedRange "chemistry" (saveSession 10 physicsSession ∅)
  = {| saved_start := 100.0; saved_end := 99.9;
       saved_isManual := false; saved_targetGroups := 100;
       hasSaved := false |}.
Proof.
  apply (X5_saved_range_round_trip 0 "chemistry" 0 0 0 false
           (saveSession 10 physicsSession ∅)).
  reflexivity.
Defined.

Lemma X4_updateMCQMetadata_merges_witness :
  exists session',
    loadSession "physics"
      (updateMCQMetadata 20 "physics" metadata_three
         (saveSession 10 physicsSession ∅)) = Some session'
    /\ checkedFiles session' = checkedFiles (stamp 10 physicsSession).
Proof.
  destruct (X4_updateMCQMetadata_merges 20 "physics" metadata_three
              (saveSession 10 physicsSession ∅) "3.json")
    as (_ & _ & Hkeep).
  destruct (Hkeep (stamp 10 physicsSession) eq_refl)
    as (session' & Hload & Hchecked & _).
  exists session'. split; [exact Hload|exact Hchecked].
Defined.

(** ** Groups of a range *)

Section RangeLoop.

Variables start_ end_ : Q.

Lemma groupsInRangeFrom_acc gs i acc :
  groupsInRangeFrom start_ end_ None gs i acc
  = acc ++ groupsInRangeFrom start_ end_ None gs i [].
Proof.
  revert i acc. induction gs as [|g gs IH]; intros i acc; simpl.
  - by rewrite app_nil_r.
  - destruct (Qleb (roundedSimilarity g) start_
              && Qleb end_ (roundedSimilarity g)); simpl; [|apply IH].
    rewrite (IH (S i) (acc ++ [i])), (IH (S i) [i]).
    by rewrite <- app_assoc.
Qed.

Lemma groupsInRangeFrom_bounds gs i x :
  x ∈ groupsInRangeFrom start_ end_ None gs i [] -> (i <= x)%nat.
Proof.
  intros [H|(k & g & _ & -> & _)]%elem_of_groupsInRangeFrom;
    [by inversion H|lia].
Qed.

Lemma groupsInRangeFrom_increasing gs i :
  increasing (groupsInRangeFrom start_ end_ None gs i []).
Proof.
  revert i. induction gs as [|g gs IH]; intros i; simpl; [constructor|].
  destruct (Qleb (roundedSimilarity g) start_
            && Qleb end_ (roundedSimilarity g)); simpl; [|apply IH].
  rewrite groupsInRangeFrom_acc. simpl. constructor; [apply IH|].
  apply Forall_forall. intros x Hx%groupsInRangeFrom_bounds. lia.
Qed.

Lemma limitReached_nat n l :
  (0 < n)%nat ->
  limitReached (Some (inject_Z (Z.of_nat n))) l
  = bool_decide (n <= length l)%nat.
Proof.
  intros Hn. unfold limitReached.
  assert (Qeq_bool (inject_Z (Z.of_nat n)) 0 = false) as ->.
  { apply not_true_is_false. intros H%Qeq_bool_iff.
    unfold Qeq in H. simpl in H. lia. }
  simpl. destruct (bool_decide (n <= length l)%nat) eqn:E.
  - apply bool_decide_eq_true in E. apply Qleb_le.
    rewrite <- Zle_Qle. lia.
  - apply bool_decide_eq_false in E. apply Qleb_gt.
    rewrite <- Zlt_Qlt. lia.
Qed.

Lemma groupsInRangeFrom_limit n gs i acc :
  (0 < n)%nat -> (length acc < n)%nat ->
  groupsInRangeFrom start_ end_ (Some (inject_Z (Z.of_nat n))) gs i acc
  = take n (groupsInRangeFrom start_ end_ None gs i acc).
Proof.
  intros Hn. revert i acc.
  induction gs as [|g gs IH]; intros i acc Hlen; cbn [groupsInRangeFrom].
  - rewrite take_ge; [done|lia].
  - destruct (Qleb (roundedSimilarity g) start_
              && Qleb end_ (roundedSimilarity g)); [|by apply IH].
    cbv zeta. change (limitReached None (acc ++ [i])) with false. cbv iota.
    rewrite limitReached_nat by done.
    destruct (bool_decide (n <= length (acc ++ [i]))%nat) eqn:E.
    + apply bool_decide_eq_true in E. rewrite length_app in E. simpl in E.
      rewrite groupsInRangeFrom_acc.
      rewrite take_app_length'; [done|]. rewrite length_app. simpl. lia.
    + apply bool_decide_eq_false in E. apply IH. lia.
Qed.

Lemma groupsInRangeFrom_limit_zero gs i acc :
  groupsInRangeFrom start_ end_ (Some 0%Q) gs i acc
  = groupsInRangeFrom start_ end_ None gs i acc.
Proof.
  revert i acc. induction gs as [|g gs IH]; intros i acc; simpl; [done|].
  destruct (Qleb (roundedSimilarity g) start_
            && Qleb end_ (roundedSimilarity g)); simpl; apply IH.
Qed.

End RangeLoop.

(** X6. Without a limit [calculateGroupsInRange] returns, in increasing
    order and without repetition, exactly the indices of the groups whose
    similarity level lies in the closed range; a range whose start is
    below its end holds no group. *)
Theorem X6_groups_in_range_exact :
  forall (groups : list Group) (start_ end_ : Q),
    increasing (calculateGroupsInRange groups start_ end_ None)
    /\ (forall i, i ∈ calculateGroupsInRange groups start_ end_ None <->
                  exists g, groups !! i = Some g /\ inRange start_ end_ g)
    /\ ((start_ < end_)%Q ->
        calculateGroupsInRange groups start_ end_ None = []).
Proof.
  intros groups start_ end_. split; [|split].
  - apply groupsInRangeFrom_increasing.
  - intros i. apply elem_of_calculateGroupsInRange.
  - intros Hlt.
    destruct (calculateGroupsInRange groups start_ end_ None) as [|x l] eqn:E;
      [done|].
    assert (x ∈ calculateGroupsInRange groups start_ end_ None) as Hx.
    { rewrite E. by left. }
    apply elem_of_calculateGroupsInRange in Hx as (g & _ & [H1 H2]). lra.
Qed.

Lemma X6_groups_in_range_exact_witness :
  calculateGroupsInRange groups_shared 99.8 99.9 None = [].
Proof.
  apply (X6_groups_in_range_exact groups_shared 99.8%Q 99.9%Q).
  reflexivity.
Defined.

(** X7. With a positive whole limit [n], [calculateGroupsInRange] returns
    the first [n] groups of the unlimited result (all of them when there
    are fewer), so never more than [n]; a limit of 0 counts as no limit. *)
Theorem X7_groups_in_range_limit :
  forall (groups : list Group) (start_ end_ : Q) (n : nat),
    ((0 < n)%nat ->
     calculateGroupsInRange groups start_ end_
       (Some (inject_Z (Z.of_nat n)))
     = take n (calculateGroupsInRange groups start_ end_ None)
     /\ (length (calculateGroupsInRange groups start_ end_
                   (Some (inject_Z (Z.of_nat n)))) <= n)%nat)
    /\ calculateGroupsInRange groups start_ end_ (Some 0%Q)
       = calculateGroupsInRange groups start_ end_ None.
Proof.
  intros groups start_ end_ n. split.
  - intros Hn. unfold calculateGroupsInRange.
    rewrite groupsInRangeFrom_limit by (done || simpl; lia).
    split; [done|]. rewrite length_take. lia.
  - apply groupsInRangeFrom_limit_zero.
Qed.

Lemma X7_groups_in_range_limit_witness :
  calculateGroupsInRange groups_shared 100 0 (Some (inject_Z (Z.of_nat 3)))
  = take 3 (calculateGroupsInRange groups_shared 100 0 None).
Proof.
  apply (X7_groups_in_range_limit groups_shared 100%Q 0%Q 3). lia.
Defined.

(** ** The group index *)

Lemma count_zero (a : Q) (l : list Q) :
  length (List.filter (Qeq_bool a) l) = 0%nat <->
  forall x, x ∈ l -> Qeq_bool a x = false.
Proof.
  induction l as [|y l IH]; simpl.
  - split; [intros _ x H; by inversion H|done].
  - destruct (Qeq_bool a y) eqn:E; simpl.
    + split; [done|]. intros H. specialize (H y ltac:(by left)). congruence.
    + rewrite IH. split.
      * intros H x [->|Hx]%elem_of_cons; [done|by apply H].
      * intros H x Hx. apply H. by right.
Qed.

Lemma filter_cons_length {A} (p : A -> bool) (x : A) (l : list A) :
  length (List.filter p (x :: l))
  = ((if p x then 1 else 0) + length (List.filter p l))%nat.
Proof. simpl. by destruct (p x). Qed.

Lemma pushIndex_distinct key index grouped :
  (forall a, (length (List.filter (Qeq_bool a) grouped.*1) <= 1)%nat) ->
  forall a,
    (length (List.filter (Qeq_bool a) (pushIndex key index grouped).*1)
     <= 1)%nat.
Proof.
  induction grouped as [|[k indices] rest IH]; intros Hd a.
  - simpl. destruct (Qeq_bool a key); simpl; lia.
  - cbn [pushIndex]. destruct (Qeq_bool k key) eqn:Ek; [apply (Hd a)|].
    assert (Hrest : forall b,
              (length (List.filter (Qeq_bool b) rest.*1) <= 1)%nat).
    { intros b. specialize (Hd b).
      rewrite fmap_cons, filter_cons_length in Hd. lia. }
    specialize (IH Hrest a).
    rewrite fmap_cons, filter_cons_length. cbn [fst].
    destruct (Qeq_bool a k) eqn:Ea; [|lia].
    assert (length (List.filter (Qeq_bool a)
                      (pushIndex key index rest).*1) = 0%nat) as ->; [|lia].
    apply count_zero. intros x [Hx| ->]%pushIndex_keys.
    + specialize (Hd a).
      rewrite fmap_cons, filter_cons_length in Hd. cbn [fst] in Hd.
      rewrite Ea in Hd.
      assert (length (List.filter (Qeq_bool a) rest.*1) = 0%nat) as Hz by lia.
      by apply (proj1 (count_zero a rest.*1) Hz).
    + apply not_true_is_false. intros E%Qeq_bool_iff.
      apply Qeq_bool_iff in Ea. apply not_true_iff_false in Ek.
      apply Ek, Qeq_bool_iff. by rewrite <- Ea.
Qed.

Lemma groupBySimilarity_distinct gs index grouped :
  (forall a, (length (List.filter (Qeq_bool a) grouped.*1) <= 1)%nat) ->
  forall a,
    (length (List.filter (Qeq_bool a) (groupBySimilarity gs index grouped).*1)
     <= 1)%nat.
Proof.
  revert index grouped. induction gs as [|g gs IH]; intros index grouped Hd;
    simpl; [done|].
  by apply IH, pushIndex_distinct.
Qed.

Lemma sort_insert_count {A} (le : A -> A -> bool) (p : A -> bool) x l :
  length (List.filter p (sort_insert le x l))
  = length (List.filter p (x :: l)).
Proof.
  induction l as [|y l IH]; simpl; [done|].
  destruct (le x y); simpl; [done|].
  simpl in IH. destruct (p y), (p x); simpl in *; lia.
Qed.

Lemma js_sort_count {A} (le : A -> A -> bool) (p : A -> bool) l :
  length (List.filter p (js_sort le l)) = length (List.filter p l).
Proof.
  induction l as [|x l IH]; simpl; [done|].
  rewrite sort_insert_count. simpl. destruct (p x); simpl; lia.
Qed.

Lemma sorted_distinct_strict levels :
  StronglySorted (fun a b => descending a b = true) levels ->
  (forall a, (length (List.filter (Qeq_bool a) levels) <= 1)%nat) ->
  strictlyDescending levels.
Proof.
  induction 1 as [|a l Hs IH Hall]; intros Hd; [constructor|].
  constructor.
  - apply IH. intros b. specialize (Hd b).
    rewrite filter_cons_length in Hd. lia.
  - apply Forall_forall. intros b Hb.
    rewrite Forall_forall in Hall. specialize (Hall b Hb).
    apply descending_le in Hall.
    destruct (Qle_lt_or_eq _ _ Hall) as [Hlt|Heq]; [done|].
    exfalso. specialize (Hd a). rewrite filter_cons_length in Hd.
    assert (Qeq_bool a a = true) as Haa by (by apply Qeq_bool_iff).
    rewrite Haa in Hd.
    assert (length (List.filter (Qeq_bool a) l) = 0%nat) as Hz by lia.
    pose proof (proj1 (count_zero a l) Hz b Hb) as Hab.
    apply not_true_iff_false in Hab. apply Hab, Qeq_bool_iff. by symmetry.
Qed.

Lemma levels_strict groups :
  strictlyDescending (similarityLevels (initializeGroups groups)).
Proof.
  apply sorted_distinct_strict; [apply levels_sorted|].
  intros a. unfold initializeGroups. simpl.
  rewrite js_sort_count. apply groupBySimilarity_distinct.
  intros b. simpl. lia.
Qed.

Lemma elem_of_groupsInLevel_pushIndex key index grouped level x :
  x ∈ groupsInLevel (pushIndex key index grouped) level <->
  x ∈ groupsInLevel grouped level \/ (x = index /\ (key == level)%Q).
Proof.
  induction grouped as [|[k indices] rest IH]; simpl.
  - destruct (Qeq_bool key level) eqn:E.
    + apply Qeq_bool_iff in E. rewrite list_elem_of_singleton. split.
      * intros ->. by right.
      * intros [H|[-> _]]; [by inversion H|done].
    + split; [by inversion 1|]. intros [H|[_ H]]; [by inversion H|].
      apply Qeq_bool_iff in H. congruence.
  - destruct (Qeq_bool k key) eqn:E; simpl.
    + apply Qeq_bool_iff in E.
      destruct (Qeq_bool k level) eqn:E1.
      * apply Qeq_bool_iff in E1.
        rewrite elem_of_app, list_elem_of_singleton. split.
        -- intros [H| ->]; [by left|]. right. split; [done|].
           by rewrite <- E.
        -- intros [H|[-> _]]; [by left|by right].
      * split; [by left|]. intros [H|[_ H]]; [done|].
        exfalso. apply not_true_iff_false in E1. apply E1, Qeq_bool_iff.
        by rewrite E.
    + destruct (Qeq_bool k level) eqn:E1; [|apply IH].
      split; [by left|]. intros [H|[_ H]]; [done|].
      exfalso. apply Qeq_bool_iff in E1.
      apply not_true_iff_false in E. apply E, Qeq_bool_iff.
      by rewrite E1, H.
Qed.

Lemma elem_of_groupsInLevel_groupBySimilarity gs index grouped level x :
  x ∈ groupsInLevel (groupBySimilarity gs index grouped) level <->
  x ∈ groupsInLevel grouped level
  \/ exists k g, gs !! k = Some g /\ x = (index + k)%nat
                 /\ (roundedSimilarity g == level)%Q.
Proof.
  revert index grouped. induction gs as [|g gs IH]; intros index grouped; simpl.
  - split; [by left|]. intros [H|(k & g & Hk & _)]; [done|].
    by rewrite lookup_nil in Hk.
  - rewrite IH, elem_of_groupsInLevel_pushIndex. split.
    + intros [[H|[-> Heq]]|(k & g' & Hk & -> & Heq)]; [by left| |].
      * right. exists 0%nat, g. split; [done|]. split; [lia|done].
      * right. exists (S k), g'. split; [done|]. split; [lia|done].
    + intros [H|(k & g' & Hk & -> & Heq)]; [by left; left|].
      destruct k as [|k]; simpl in Hk.
      * inversion Hk; subst g'. left; right. split; [lia|done].
      * right. exists k, g'. split; [done|]. split; [lia|done].
Qed.

(** X8. [initializeGroups] lists the similarity levels in strictly
    descending order (so none twice); the levels listed are exactly the
    levels of the groups; the bucket of a level holds exactly the indices
    of the groups at that level; and an empty group list gives no level. *)
Theorem X8_initializeGroups_index :
  forall (groups : list Group),
    let idx := initializeGroups groups in
    strictlyDescending (similarityLevels idx)
    /\ (forall level, level ∈ similarityLevels idx ->
          exists g, g ∈ groups /\ level = roundedSimilarity g)
    /\ (forall g, g ∈ groups ->
          exists level, level ∈ similarityLevels idx
                        /\ (level == roundedSimilarity g)%Q)
    /\ (forall level i,
          i ∈ groupsInLevel (groupsBySimilarity idx) level <->
          exists g, groups !! i = Some g /\ (roundedSimilarity g == level)%Q)
    /\ (groups = [] -> similarityLevels idx = []).
Proof.
  intros groups idx. split; [apply levels_strict|].
  split; [apply levels_of_groups|]. split; [apply levels_complete|].
  split; [|by intros ->].
  intros level i. subst idx. unfold initializeGroups. simpl.
  rewrite elem_of_groupsInLevel_groupBySimilarity. split.
  - intros [H|(k & g & Hk & -> & Heq)]; [by inversion H|]. by exists g.
  - intros (g & Hg & Heq). right. by exists i, g.
Qed.

Lemma X8_initializeGroups_index_witness :
  exists level,
    level ∈ similarityLevels (initializeGroups groups_shared)
    /\ (level == 99.8)%Q.
Proof.
  destruct (X8_initializeGroups_index groups_shared) as (_ & _ & Hall & _).
  destruct (Hall (mkGroup ["6.json"; "7.json"] 0.998)) as (level & Hin & Heq).
  - right; right; right; by left.
  - exists level. split; [exact Hin|]. rewrite Heq. reflexivity.
Defined.

(** ** The computed range *)

Lemma StronglySorted_lookup {A} (R : A -> A -> Prop) (l : list A) i j a b :
  StronglySorted R l -> (i < j)%nat ->
  l !! i = Some a -> l !! j = Some b -> R a b.
Proof.
  intros Hs. revert i j. induction Hs as [|x l Hs IH Hall]; intros i j Hij Hi Hj.
  - by rewrite lookup_nil in Hi.
  - destruct j as [|j]; [lia|]. simpl in Hj.
    destruct i as [|i]; simpl in Hi.
    + inversion Hi; subst x. rewrite Forall_forall in Hall.
      apply Hall. by eapply list_elem_of_lookup_2.
    + eapply IH; [|done|done]. lia.
Qed.

Lemma levels_lookup_le groups i j a b :
  (i <= j)%nat ->
  similarityLevels (initializeGroups groups) !! i = Some a ->
  similarityLevels (initializeGroups groups) !! j = Some b ->
  (b <= a)%Q.
Proof.
  intros Hij Hi Hj. destruct (decide (i = j)) as [->|Hne].
  - rewrite Hi in Hj. inversion Hj. apply Qle_refl.
  - apply Qlt_le_weak.
    apply (StronglySorted_lookup _ _ i j a b (levels_strict groups));
      [lia|done|done].
Qed.

(** X9. For a non-empty group list the range that
    [calculateRangeFromTargetGroups] returns is well formed: its start and
    its end are levels of the index, the end is not above the start, and
    at least one group lies in the range, whatever the start point and the
    target; for an empty group list the range is the default 100.0 - 99.9. *)
Theorem X9_computed_range_well_formed :
  forall (groups : list Group) (startPoint target : Q),
    let idx := initializeGroups groups in
    let r := calculateRangeFromTargetGroups groups idx startPoint target in
    (groups <> [] ->
     start r ∈ similarityLevels idx
     /\ end_ r ∈ similarityLevels idx
     /\ (end_ r <= start r)%Q
     /\ calculateGroupsInRange groups (start r) (end_ r) None <> [])
    /\ (groups = [] -> r = {| start := 100.0; end_ := 99.9 |}).
Proof.
  intros groups startPoint target idx r. split; [|by intros ->].
  intros Hne.
  destruct (calculateRange_spec groups startPoint target Hne)
    as (i0 & j & Hij & _ & Hi0 & Hj & _).
  fold idx in Hi0, Hj. fold r in Hi0, Hj.
  assert (end_ r <= start r)%Q as Hle.
  { eapply (levels_lookup_le groups i0 j); [lia|done|done]. }
  split; [by eapply list_elem_of_lookup_2|].
  split; [by eapply list_elem_of_lookup_2|]. split; [done|].
  apply list_elem_of_lookup_2, levels_of_groups in Hi0 as (g & Hg & Heq).
  apply list_elem_of_lookup in Hg as [i Hi].
  intros Hnil.
  assert (i ∈ calculateGroupsInRange groups (start r) (end_ r) None) as Hin.
  { apply elem_of_calculateGroupsInRange. exists g. split; [done|].
    split; rewrite <- Heq; [done|apply Qle_refl]. }
  rewrite Hnil in Hin. by inversion Hin.
Qed.

Lemma X9_computed_range_well_formed_witness :
  groups_shared <> []
  /\ (end_ (calculateRangeFromTargetGroups groups_shared
              (initializeGroups groups_shared) 99.85 3)
      <= start (calculateRangeFromTargetGroups groups_shared
                  (initializeGroups groups_shared) 99.85 3))%Q.
Proof.
  assert (groups_shared <> []) as Hne by discriminate.
  split; [exact Hne|].
  destruct (X9_computed_range_well_formed groups_shared 99.85%Q 3%Q)
    as [Hwf _].
  destruct (Hwf Hne) as (_ & _ & Hle & _). exact Hle.
Defined.

(** ** Navigation *)

Lemma goToNextPage_history groups idx target st :
  hasNextPage groups idx (rangeStart st) (rangeEnd st) = true ->
  pageHistory (goToNextPage groups idx target st)
  = pageHistory st ++ [rangeOf st].
Proof.
  intros Hnext. unfold goToNextPage. rewrite Hnext. simpl.
  destruct (nearlyEqual (rangeEnd st) _); [|done].
  by destruct (Qltb _ _).
Qed.

(** X10. Going to the next page and then back restores the range and the
    history: when there is a next page, [goToPreviousPage] after
    [goToNextPage] gives the start, the end and the history held before.
    Without a next page [goToNextPage] changes nothing, and with an empty
    history [goToPreviousPage] changes nothing. *)
Theorem X10_next_then_previous_restores :
  forall (groups : list Group) (idx : GroupIndex) (target : Q)
         (st : PageState),
    (hasNextPage groups idx (rangeStart st) (rangeEnd st) = true ->
     let back := goToPreviousPage (goToNextPage groups idx target st) in
     rangeStart back = rangeStart st
     /\ rangeEnd back = rangeEnd st
     /\ pageHistory back = pageHistory st)
    /\ (hasNextPage groups idx (rangeStart st) (rangeEnd st) = false ->
        goToNextPage groups idx target st = st)
    /\ (pageHistory st = [] -> goToPreviousPage st = st).
Proof.
  intros groups idx target st. split; [|split].
  - intros Hnext back.
    pose proof (goToNextPage_history groups idx target st Hnext) as Hh.
    subst back. unfold goToPreviousPage, hasPreviousPage.
    rewrite Hh, length_app. simpl.
    rewrite bool_decide_eq_true_2 by lia. simpl.
    rewrite last_snoc. simpl. by rewrite removelast_last.
  - intros Hnone. unfold goToNextPage. by rewrite Hnone.
  - intros Hnil. unfold goToPreviousPage, hasPreviousPage.
    rewrite Hnil. reflexivity.
Qed.

Lemma X10_next_then_previous_restores_witness :
  rangeStart (goToPreviousPage
                (goToNextPage groups_50_80 (initializeGroups groups_50_80)
                   100 state_first_page)) = 100.0%Q.
Proof.
  destruct (X10_next_then_previous_restores groups_50_80
              (initializeGroups groups_50_80) 100%Q state_first_page)
    as (Hback & _ & _).
  apply Hback. vm_compute. reflexivity.
Defined.

Lemma level_ge_lastLevel groups level :
  level ∈ similarityLevels (initializeGroups groups) ->
  (lastLevel (similarityLevels (initializeGroups groups)) <= level)%Q.
Proof.
  intros (g & Hg & ->)%levels_of_groups. by apply lastLevel_least.
Qed.

Lemma firstLevelBelow_Some bound levels m :
  firstLevelBelow bound levels = Some m ->
  exists k, levels !! k = Some m /\ (m < bound)%Q
    /\ forall k' level, (k' < k)%nat -> levels !! k' = Some level ->
                        (bound <= level)%Q.
Proof.
  induction levels as [|level rest IH]; simpl; [done|].
  destruct (Qltb level bound) eqn:E.
  - intros [= <-]. apply Qltb_lt in E. exists 0%nat.
    split; [done|]. split; [done|]. intros k' ? Hk'. lia.
  - intros (k & Hk & Hlt & Hbefore)%IH. apply Qltb_ge in E.
    exists (S k). split; [done|]. split; [done|].
    intros [|k'] l Hlt' Hl; simpl in Hl.
    + by inversion Hl; subst.
    + eapply Hbefore; [|done]. lia.
Qed.

Lemma firstLevelBelow_None bound levels :
  firstLevelBelow bound levels = None ->
  forall level, level ∈ levels -> (bound <= level)%Q.
Proof.
  induction levels as [|level rest IH]; simpl.
  - intros _ l H. by inversion H.
  - destruct (Qltb level bound) eqn:E; [done|].
    intros H l [->|Hin]%elem_of_cons; [by apply Qltb_ge|by apply IH].
Qed.

Lemma lowestAvailableLevel_ge rangeEnd_ gs bound candidate :
  (bound <= candidate)%Q ->
  (forall g, g ∈ gs -> (bound <= roundedSimilarity g)%Q) ->
  (bound <= lowestAvailableLevel rangeEnd_ gs candidate)%Q.
Proof.
  revert candidate. induction gs as [|g gs IH]; intros candidate Hc Hgs; simpl;
    [done|].
  destruct (Qltb (roundedSimilarity g) rangeEnd_
            && Qltb (roundedSimilarity g) candidate).
  - apply IH; [apply Hgs; by left|]. intros g' Hg'. apply Hgs. by right.
  - apply IH; [done|]. intros g' Hg'. apply Hgs. by right.
Qed.

(** The start computed from a point [nextStart] that is the end of the
    range, or the first level below it, lies at or above every group below
    the end. *)
Lemma next_start_covers groups rangeEnd_ nextStart target g0 :
  g0 ∈ groups -> (roundedSimilarity g0 < rangeEnd_)%Q ->
  nextStart = rangeEnd_
  \/ firstLevelBelow rangeEnd_ (similarityLevels (initializeGroups groups))
     = Some nextStart ->
  let r := calculateRangeFromTargetGroups groups (initializeGroups groups)
             nextStart target in
  (start r <= rangeEnd_)%Q
  /\ forall g, g ∈ groups -> (roundedSimilarity g < rangeEnd_)%Q ->
               (roundedSimilarity g <= start r)%Q.
Proof.
  intros Hg0 Hlt0 Hnext r.
  assert (groups <> []) as Hne by (intros ->; inversion Hg0).
  set (levels := similarityLevels (initializeGroups groups)) in *.
  destruct (calculateRange_spec groups nextStart target Hne)
    as (i0 & j & Hij & [Hbefore Hat] & Hi0 & _).
  fold levels in Hij, Hbefore, Hat, Hi0. fold r in Hi0.
  assert (Hns : (nextStart <= rangeEnd_)%Q).
  { destruct Hnext as [->|Hf]; [apply Qle_refl|].
    apply firstLevelBelow_Some in Hf as (k & _ & Hlt & _). lra. }
  (* a level above [nextStart] is not below the end *)
  assert (Habove : forall k level, levels !! k = Some level ->
            (nextStart < level)%Q -> (rangeEnd_ <= level)%Q).
  { intros k level Hk Hgt. destruct Hnext as [->|Hf]; [lra|].
    apply firstLevelBelow_Some in Hf as (m & Hm & Hltm & Hbm).
    destruct (decide (k < m)%nat) as [Hkm|Hkm]; [by eapply Hbm|].
    assert (level <= nextStart)%Q; [|lra].
    by eapply (levels_lookup_le groups m k); [lia| |]. }
  split.
  - destruct Hat as [(level & Hl & Hle)|[Hlast Hall]].
    + rewrite Hi0 in Hl. inversion Hl; subst level. lra.
    + assert (start r = lastLevel levels) as ->.
      { symmetry. by eapply lastLevel_lookup. }
      pose proof (lastLevel_least groups g0 Hg0). fold levels in H. lra.
  - intros g Hg Hlt.
    destruct (levels_complete groups g Hg) as (level & Hin & Heq).
    fold levels in Hin.
    apply list_elem_of_lookup in Hin as [k Hk].
    destruct (decide (i0 <= k)%nat) as [Hik|Hik].
    + rewrite <- Heq. by eapply (levels_lookup_le groups i0 k).
    + assert (nextStart < level)%Q as Hgt.
      { eapply Hbefore; [|done]. lia. }
      pose proof (Habove k level Hk Hgt). rewrite Heq in H. lra.
Qed.

Lemma calculateRange_levels groups startPoint target :
  groups <> [] ->
  let r := calculateRangeFromTargetGroups groups (initializeGroups groups)
             startPoint target in
  start r ∈ similarityLevels (initializeGroups groups)
  /\ end_ r ∈ similarityLevels (initializeGroups groups)
  /\ (end_ r <= start r)%Q.
Proof.
  intros Hne r.
  destruct (calculateRange_spec groups startPoint target Hne)
    as (i0 & j & Hij & _ & Hi0 & Hj & _).
  fold r in Hi0, Hj.
  split; [by eapply list_elem_of_lookup_2|].
  split; [by eapply list_elem_of_lookup_2|].
  eapply (levels_lookup_le groups i0 j); [lia|done|done].
Qed.

(** Starting from the end of the range itself, the computed start also
    lies at or above every group at the end. *)
Lemma next_start_covers_end groups rangeEnd_ target g :
  g ∈ groups -> (roundedSimilarity g <= rangeEnd_)%Q ->
  (roundedSimilarity g
   <= start (calculateRangeFromTargetGroups groups (initializeGroups groups)
               rangeEnd_ target))%Q.
Proof.
  intros Hg Hle.
  assert (groups <> []) as Hne by (intros ->; inversion Hg).
  destruct (calculateRange_spec groups rangeEnd_ target Hne)
    as (i0 & j & Hij & [Hbefore _] & Hi0 & _).
  destruct (levels_complete groups g Hg) as (level & Hin & Heq).
  apply list_elem_of_lookup in Hin as [k Hk].
  destruct (decide (i0 <= k)%nat) as [Hik|Hik].
  - rewrite <- Heq. by eapply (levels_lookup_le groups i0 k).
  - assert (rangeEnd_ < level)%Q as Hgt.
    { eapply Hbefore; [|done]. lia. }
    rewrite Heq in Hgt. lra.
Qed.

(** X11. On a loaded group list, when there is a next page,
    [goToNextPage] pushes the current range onto the history.  Unless the
    end of the range is within 0.01 of the lowest level, the new range is
    marked automatic, its start and end are levels with the end not above
    the start, the new start is not above the old end, and no group is
    skipped: every group below the old end lies at or below the new start,
    and so does every group at the old end unless the old range was a
    single level.  When the end is within 0.01 of the lowest level the
    range stays as it is. *)
Theorem X11_goToNextPage_leaves_no_gap :
  forall (groups : list Group) (target : Q) (st : PageState),
    let idx := initializeGroups groups in
    let levels := similarityLevels idx in
    let st' := goToNextPage groups idx target st in
    hasNextPage groups idx (rangeStart st) (rangeEnd st) = true ->
    pageHistory st' = pageHistory st ++ [rangeOf st]
    /\ (nearlyEqual (rangeEnd st) (lastLevel levels) = false ->
        manualRange st' = false
        /\ pageCompleted st' = false
        /\ rangeStart st' ∈ levels
        /\ rangeEnd st' ∈ levels
        /\ (rangeEnd st' <= rangeStart st')%Q
        /\ (rangeStart st' <= rangeEnd st)%Q
        /\ (forall g, g ∈ groups ->
              (roundedSimilarity g < rangeEnd st)%Q ->
              (roundedSimilarity g <= rangeStart st')%Q)
        /\ (nearlyEqual (rangeStart st) (rangeEnd st) = false ->
            forall g, g ∈ groups ->
              (roundedSimilarity g <= rangeEnd st)%Q ->
              (roundedSimilarity g <= rangeStart st')%Q))
    /\ (nearlyEqual (rangeEnd st) (lastLevel levels) = true ->
        rangeStart st' = rangeStart st /\ rangeEnd st' = rangeEnd st).
Proof.
  intros groups target st idx levels st' Hnext.
  split; [by apply goToNextPage_history|].
  pose proof Hnext as (i & g0 & Hi & Hlt0)%hasNextPage_iff.
  apply list_elem_of_lookup_2 in Hi as Hg0.
  assert (groups <> []) as Hne by (intros ->; inversion Hg0).
  pose proof (levels_nonempty groups Hne) as Hlv. fold idx levels in Hlv.
  assert (bool_decide (0 < length levels)%nat = true) as Hlen.
  { apply bool_decide_eq_true. destruct levels; [done|simpl; lia]. }
  subst st'. unfold goToNextPage. fold idx levels.
  rewrite Hnext, Hlen. cbn [negb]. cbv iota zeta.
  split.
  - intros Hfar. rewrite Hfar.
    set (nextStart :=
           if nearlyEqual (rangeStart st) (rangeEnd st)
           then default (rangeEnd st) (firstLevelBelow (rangeEnd st) levels)
           else rangeEnd st).
    assert (Hchoice : nextStart = rangeEnd st
              \/ firstLevelBelow (rangeEnd st) levels = Some nextStart).
    { unfold nextStart.
      destruct (nearlyEqual (rangeStart st) (rangeEnd st)); [|by left].
      destruct (firstLevelBelow (rangeEnd st) levels) as [m|];
        [by right|by left]. }
    destruct (calculateRange_levels groups nextStart target Hne)
      as (Hs & He & Hle).
    destruct (next_start_covers groups (rangeEnd st) nextStart target g0
                Hg0 Hlt0 Hchoice) as [Hcont Hcover].
    fold idx in Hs, He, Hle, Hcont, Hcover. fold levels in Hs, He.
    assert (Qltb (end_ (calculateRangeFromTargetGroups groups idx nextStart
                          target)) (lastLevel levels) = false) as Hclamp.
    { apply Qltb_ge. by apply level_ge_lastLevel. }
    rewrite Hclamp. simpl.
    repeat (split; [done|]).
    intros Hwide g Hg Hge. unfold nextStart. rewrite Hwide.
    by apply next_start_covers_end.
  - intros Hnear. rewrite Hnear.
    assert (Qltb (lowestAvailableLevel (rangeEnd st) groups
                    (lastLevel levels)) (lastLevel levels) = false) as ->.
    { apply Qltb_ge. apply lowestAvailableLevel_ge; [apply Qle_refl|].
      intros g Hg. by apply lastLevel_least. }
    done.
Qed.

Lemma X11_goToNextPage_leaves_no_gap_witness :
  pageHistory (goToNextPage groups_50_80 (initializeGroups groups_50_80) 100
                 state_first_page)
  = pageHistory state_first_page ++ [rangeOf state_first_page].
Proof.
  apply (X11_goToNextPage_leaves_no_gap groups_50_80 100%Q state_first_page).
  vm_compute. reflexivity.
Defined.

(** ** The jumps and the manual steps *)

Lemma levels_lookup_lt groups i j a b :
  (i < j)%nat ->
  similarityLevels (initializeGroups groups) !! i = Some a ->
  similarityLevels (initializeGroups groups) !! j = Some b ->
  (b < a)%Q.
Proof.
  intros Hij Hi Hj.
  exact (StronglySorted_lookup _ _ i j a b (levels_strict groups) Hij Hi Hj).
Qed.

(** The range computed from the lowest level is that level alone. *)
Lemma calculateRange_from_lowest groups target :
  groups <> [] ->
  let levels := similarityLevels (initializeGroups groups) in
  calculateRangeFromTargetGroups groups (initializeGroups groups)
    (lastLevel levels) target
  = {| start := lastLevel levels; end_ := lastLevel levels |}.
Proof.
  intros Hne levels.
  pose proof (levels_nonempty groups Hne) as Hlv. fold levels in Hlv.
  pose proof (lookup_lastLevel levels Hlv) as Hlast.
  destruct (calculateRange_spec groups (lastLevel levels) target Hne)
    as (i0 & j & Hij & [_ Hat] & Hi0 & Hj & _).
  fold levels in Hij, Hat, Hi0, Hj.
  assert (i0 = (length levels - 1)%nat) as Hi0last.
  { destruct Hat as [(level & Hlevel & Hle)|[Hlen _]]; [|lia].
    destruct (decide (i0 = (length levels - 1)%nat)) as [|Hlow]; [done|].
    assert (lastLevel levels < level)%Q.
    { eapply (levels_lookup_lt groups i0 (length levels - 1));
        [lia|done|done]. }
    lra. }
  assert (j = (length levels - 1)%nat) as Hjlast by lia.
  rewrite Hi0last, Hlast in Hi0. rewrite Hjlast, Hlast in Hj.
  destruct (calculateRangeFromTargetGroups _ _ _ _) as [s e].
  simpl in Hi0, Hj. congruence.
Qed.

(** X12. On a loaded group list, [jumpToMin] shows the lowest level
    alone: start and end are the lowest level, the history is cleared, so
    that there is neither a next nor a previous page, and the manual flag
    is left as it was. *)
Theorem X12_jumpToMin_is_last_page :
  forall (groups : list Group) (target : Q) (st : PageState),
    let idx := initializeGroups groups in
    let st' := jumpToMin groups idx target st in
    groups <> [] ->
    rangeStart st' = lastLevel (similarityLevels idx)
    /\ rangeEnd st' = lastLevel (similarityLevels idx)
    /\ hasNextPage groups idx (rangeStart st') (rangeEnd st') = false
    /\ hasPreviousPage st' = false
    /\ manualRange st' = manualRange st.
Proof.
  intros groups target st idx st' Hne.
  pose proof (levels_nonempty groups Hne) as Hlv. fold idx in Hlv.
  subst st'. unfold jumpToMin, jumpTo.
  rewrite bool_decide_eq_true_2
    by (destruct (similarityLevels idx); [done|simpl; lia]).
  unfold idx. rewrite calculateRange_from_lowest by done. simpl.
  repeat (split; [done|]).
  split; [apply hasNextPage_at_lowest|done].
Qed.

Lemma X12_jumpToMin_is_last_page_witness :
  rangeStart (jumpToMin groups_50_80 (initializeGroups groups_50_80) 100
                state_first_page)
  = lastLevel (similarityLevels (initializeGroups groups_50_80)).
Proof.
  apply (X12_jumpToMin_is_last_page groups_50_80 100%Q state_first_page).
  discriminate.
Defined.

(** X13. On a loaded group list, [jumpToMax] starts the range at the
    highest level, so that no group lies above the start; the end is a
    level not above the start, the history is cleared and the manual flag
    is left as it was. *)
Theorem X13_jumpToMax_starts_at_top :
  forall (groups : list Group) (target : Q) (st : PageState),
    let idx := initializeGroups groups in
    let st' := jumpToMax groups idx target st in
    groups <> [] ->
    similarityLevels idx !! 0%nat = Some (rangeStart st')
    /\ (forall g, g ∈ groups -> (roundedSimilarity g <= rangeStart st')%Q)
    /\ rangeEnd st' ∈ similarityLevels idx
    /\ (rangeEnd st' <= rangeStart st')%Q
    /\ pageHistory st' = []
    /\ manualRange st' = manualRange st.
Proof.
  intros groups target st idx st' Hne.
  pose proof (levels_nonempty groups Hne) as Hlv. fold idx in Hlv.
  subst st'. unfold jumpToMax, jumpTo.
  destruct (similarityLevels idx) as [|maxLevel rest] eqn:Hlevels; [done|].
  destruct (calculateRange_spec groups maxLevel target Hne)
    as (i0 & j & Hij & [Hbefore _] & Hi0 & Hj & _).
  destruct (calculateRange_levels groups maxLevel target Hne)
    as (_ & He & Hle).
  fold idx in Hij, Hbefore, Hi0, Hj, He, Hle.
  rewrite Hlevels in Hij, Hbefore, Hi0, Hj, He.
  assert (i0 = 0%nat) as ->.
  { destruct i0 as [|i0]; [done|].
    assert (maxLevel < maxLevel)%Q by (eapply (Hbefore 0%nat); [lia|done]).
    lra. }
  simpl in Hi0. simpl.
  split; [done|]. split.
  - intros g Hg.
    destruct (levels_complete groups g Hg) as (level & Hin & Heq).
    apply list_elem_of_lookup in Hin as [k Hk]. rewrite <- Heq.
    eapply (levels_lookup_le groups 0 k); [lia| |done].
    fold idx. by rewrite Hlevels.
  - done.
Qed.

Lemma X13_jumpToMax_starts_at_top_witness :
  pageHistory (jumpToMax groups_50_80 (initializeGroups groups_50_80) 100
                 state_first_page) = [].
Proof.
  apply (X13_jumpToMax_starts_at_top groups_50_80 100%Q state_first_page).
  discriminate.
Defined.

Lemma Math_max_spec a b :
  (a <= Math_max a b)%Q /\ (b <= Math_max a b)%Q
  /\ (Math_max a b = a \/ Math_max a b = b).
Proof.
  unfold Math_max. destruct (Qleb a b) eqn:E.
  - apply Qleb_le in E. split; [done|]. split; [apply Qle_refl|by right].
  - apply Qleb_gt in E. split; [apply Qle_refl|].
    split; [by apply Qlt_le_weak|by left].
Qed.

Lemma Math_min_spec a b :
  (Math_min a b <= a)%Q /\ (Math_min a b <= b)%Q
  /\ (Math_min a b = a \/ Math_min a b = b).
Proof.
  unfold Math_min. destruct (Qleb a b) eqn:E.
  - apply Qleb_le in E. split; [apply Qle_refl|]. split; [done|by left].
  - apply Qleb_gt in E. split; [by apply Qlt_le_weak|].
    split; [apply Qle_refl|by right].
Qed.

(** X14. The four step buttons of the manual range keep a range that lies
    between the lowest and the highest level, with its end not above its
    start, in that shape, for any step that is not negative; each marks
    the range manual and clears the history. *)
Theorem X14_manual_steps_stay_within_levels :
  forall (groups : list Group) (delta : Q) (st st' : PageState),
    let idx := initializeGroups groups in
    withinLevels (similarityLevels idx) st ->
    (0 <= delta)%Q ->
    st' ∈ [decreaseStart delta st; increaseStart idx delta st;
           decreaseEnd idx delta st; increaseEnd delta st] ->
    withinLevels (similarityLevels idx) st'
    /\ manualRange st' = true
    /\ pageHistory st' = [].
Proof.
  intros groups delta st st' idx.
  unfold decreaseStart, increaseStart, decreaseEnd, increaseEnd.
  generalize (similarityLevels idx).
  intros levels (Hle & Hlow & maxLevel & Hmax & Hhigh) Hdelta Hin.
  repeat (apply elem_of_cons in Hin as [->|Hin]);
    [| | | |by apply elem_of_nil in Hin];
    (split; [|done]); unfold withinLevels; simpl.
  - destruct (Math_max_spec (rangeEnd st) (rangeStart st - delta))
      as (H1 & H2 & [E | E]); rewrite E in H1, H2 |- *;
      (split; [lra|]); (split; [done|]); exists maxLevel; (split; [done|lra]).
  - rewrite Hmax. simpl.
    destruct (Math_min_spec maxLevel (rangeStart st + delta))
      as (H1 & H2 & [E | E]); rewrite E in H1, H2 |- *;
      (split; [lra|]); (split; [done|]); exists maxLevel; (split; [done|lra]).
  - destruct (Math_max_spec (lastLevel levels)
                (rangeEnd st - delta)) as (H1 & H2 & [E | E]); rewrite E in H1, H2 |- *;
      (split; [lra|]); (split; [lra|]); exists maxLevel; (split; [done|lra]).
  - destruct (Math_min_spec (rangeStart st) (rangeEnd st + delta))
      as (H1 & H2 & [E | E]); rewrite E in H1, H2 |- *;
      (split; [lra|]); (split; [lra|]); exists maxLevel; (split; [done|lra]).
Qed.

Lemma X14_manual_steps_stay_within_levels_witness :
  manualRange (decreaseEnd (initializeGroups groups_50_80) 0.1
                 state_first_page) = true.
Proof.
  apply (X14_manual_steps_stay_within_levels groups_50_80 0.1%Q
           state_first_page).
  - split; [vm_compute; discriminate|].
    split; [vm_compute; discriminate|].
    exists 100.0%Q. split; [vm_compute; reflexivity|vm_compute; discriminate].
  - vm_compute; discriminate.
  - do 2 apply list_elem_of_further. apply list_elem_of_here.
Defined.

(** ** The heuristic and the reconciler, continued *)

Lemma autoSelect_domain fileStatuses metadata files_ mode f :
  is_Some (autoSelectBestMCQ fileStatuses files_ metadata mode !! f)
  <-> f ∈ files_.
Proof.
  destruct (decide (files_ = [])) as [->|Hne].
  { unfold autoSelectBestMCQ. simpl. rewrite lookup_empty.
    split; [by intros [? ?]|by intros ?%elem_of_nil]. }
  destruct mode.
  - unfold autoSelectBestMCQ.
    destruct (decide (length files_ = 0%nat)) as [Hz|_];
      [by apply length_zero_iff_nil in Hz|].
    unfold checkAllSelections. rewrite checkAll_lookup.
    destruct (decide (f ∈ files_)); [done|].
    rewrite lookup_empty. split; [by intros [? ?]|done].
  - destruct (autoSelect_normal fileStatuses metadata files_ Hne)
      as (sel & Hsel & ->).
    destruct (js_sort byPriority _) as [|first rest] eqn:Hsort.
    + rewrite Hsel. destruct (decide (f ∈ files_)); [done|].
      split; [by intros [? ?]|done].
    + assert (first.1 ∈ files_) as Hfirst.
      { assert (first ∈ js_sort byPriority
                  (map (fun f => (f, priorityOf metadata f))
                     (unknownsOf fileStatuses files_))) as Hin
          by (rewrite Hsort; apply list_elem_of_here).
        apply elem_of_js_sort, list_elem_of_fmap in Hin as (x & -> & Hx).
        by apply elem_of_unknownsOf in Hx as [? _]. }
      destruct (decide (first.1 = f)) as [<-|Hother].
      * by rewrite lookup_insert_eq.
      * rewrite lookup_insert_ne by done. rewrite Hsel.
        destruct (decide (f ∈ files_)); [done|].
        split; [by intros [? ?]|done].
Qed.

(** X15. [autoSelectBestMCQ] returns an entry for exactly the files it
    is called with, in both modes; in check-all mode the entry of a file is
    true unless its status is removed. *)
Theorem X15_autoSelect_entries :
  forall (fileStatuses : gmap string FileStatus)
         (metadata : gmap string McqMeta) (files_ : list string)
         (mode : bool) (f : string),
    (is_Some (autoSelectBestMCQ fileStatuses files_ metadata mode !! f)
     <-> f ∈ files_)
    /\ (f ∈ files_ ->
        autoSelectBestMCQ fileStatuses files_ metadata true !! f
        = Some (negb (bool_decide (statusOf fileStatuses f = removed)))).
Proof.
  intros fileStatuses metadata files_ mode f.
  split; [apply autoSelect_domain|].
  intros Hf. unfold autoSelectBestMCQ.
  destruct (decide (length files_ = 0%nat)) as [Hz|_].
  { apply length_zero_iff_nil in Hz. subst. by apply elem_of_nil in Hf. }
  unfold checkAllSelections. rewrite checkAll_lookup.
  by destruct (decide (f ∈ files_)).
Qed.

Lemma X15_autoSelect_entries_witness :
  autoSelectBestMCQ statuses_shared ["2.json"; "5.json"; "9.json"] ∅ true
    !! "9.json"
  = Some (negb (bool_decide (statusOf statuses_shared "9.json" = removed))).
Proof.
  apply (X15_autoSelect_entries statuses_shared ∅
           ["2.json"; "5.json"; "9.json"] true "9.json").
  do 2 apply list_elem_of_further. apply list_elem_of_here.
Defined.

Lemma applyAutoSelection_some fileStatuses groupSelections
  (merged : gmap string bool) x f :
  is_Some (merged !! f) \/ x = f ->
  is_Some (applyAutoSelection fileStatuses groupSelections merged x !! f).
Proof.
  intros H. unfold applyAutoSelection. cbv zeta.
  destruct (decide (x = f)) as [->|Hne].
  - destruct (_ || _); [by rewrite lookup_insert_eq|].
    destruct (decide (is_Some (merged !! f))); [done|].
    by rewrite lookup_insert_eq.
  - destruct H as [H|H]; [|done].
    destruct (_ || _); [by rewrite lookup_insert_ne|].
    destruct (decide (is_Some (merged !! x))); [done|].
    by rewrite lookup_insert_ne.
Qed.

Lemma apply_fold_some fileStatuses groupSelections l
  (merged : gmap string bool) f :
  is_Some (merged !! f) \/ f ∈ l ->
  is_Some (foldl (applyAutoSelection fileStatuses groupSelections) merged l
             !! f).
Proof.
  revert merged. induction l as [|x l IH]; intros merged H; simpl.
  - destruct H as [H|H]; [done|by apply elem_of_nil in H].
  - apply IH. destruct H as [H|H].
    + left. apply applyAutoSelection_some. by left.
    + apply elem_of_cons in H as [->|H]; [|by right].
      left. apply applyAutoSelection_some. by right.
Qed.

(** The recomputation leaves an entry for every file of the group that is
    not user-modified, and keeps the entries there are. *)
Lemma reconcileGroup_some fileStatuses metadata mode userModified existing
  groupFiles f :
  is_Some (existing !! f) \/ (f ∈ groupFiles /\ f ∉ userModified) ->
  is_Some (reconcileGroup fileStatuses metadata mode userModified existing
             groupFiles !! f).
Proof.
  intros H. unfold reconcileGroup. cbv zeta.
  destruct (decide (0 < length _)%nat) as [Hlen|Hlen].
  - apply apply_fold_some. destruct H as [H|H]; [by left|right].
    by apply elem_of_filesForAutoSelect.
  - destruct H as [H|H]; [done|].
    apply elem_of_filesForAutoSelect in H.
    destruct (List.filter _ groupFiles); [by apply elem_of_nil in H|].
    simpl in Hlen. lia.
Qed.

(** X16. After a recomputation of the selections the page is ready as
    soon as it has a group, no group is without files, and every
    user-modified file already had an entry in each group that lists it;
    in particular when no file is user-modified. *)
Theorem X16_recompute_makes_page_ready :
  forall (fileStatuses : gmap string FileStatus)
         (metadata : gmap string McqMeta) (mode : bool)
         (userModified : gset string) (groups : list Group)
         (prev : Selections) (start_ end_ : Q),
    getGroupsForCurrentPage groups start_ end_ <> [] ->
    (forall g, g ∈ groups -> files g <> []) ->
    (forall gi g f, groups !! gi = Some g -> f ∈ files g ->
                    f ∈ userModified -> is_Some (selectionOf prev gi f)) ->
    allGroupsHaveAutoSelections groups
      (recomputeSelections fileStatuses metadata mode userModified groups
         prev) start_ end_ = true.
Proof.
  intros fileStatuses metadata mode userModified groups prev start_ end_
    Hpage Hfiles Huser.
  unfold allGroupsHaveAutoSelections. cbv zeta.
  destruct (decide (length _ = 0%nat)) as [Hz|_];
    [by apply length_zero_iff_nil in Hz|].
  apply forallb_forall. intros gi Hgi%list_elem_of_In.
  apply page_lookup in Hgi as [g Hg].
  apply groupHasAutoSelections_true.
  rewrite (recompute_lookup _ _ _ _ _ _ _ _ Hg).
  eexists. split; [reflexivity|].
  assert (forall f, f ∈ files g ->
            is_Some (reconcileGroup fileStatuses metadata mode userModified
                       (default ∅ (prev !! gi)) (files g) !! f)) as Hall.
  { intros f Hf. apply reconcileGroup_some.
    destruct (decide (f ∈ userModified)) as [Hu|Hu]; [left|by right].
    specialize (Huser gi g f Hg Hf Hu). unfold selectionOf in Huser.
    by destruct (prev !! gi). }
  split.
  - destruct (files g) as [|f0 fs] eqn:Hfs.
    { exfalso. eapply Hfiles; [by eapply list_elem_of_lookup_2|done]. }
    intros Hempty.
    destruct (Hall f0 ltac:(apply list_elem_of_here)) as [b Hb].
    rewrite Hempty, lookup_empty in Hb. done.
  - intros g' f Hg' Hf. rewrite Hg in Hg'. inversion Hg'; subst g'.
    by apply Hall.
Qed.

Lemma X16_recompute_makes_page_ready_witness :
  allGroupsHaveAutoSelections groups_shared
    (recomputeSelections statuses_shared ∅ false ∅ groups_shared ∅)
    100 0 = true.
Proof.
  apply (X16_recompute_makes_page_ready statuses_shared ∅ false ∅
           groups_shared ∅ 100%Q 0%Q).
  - vm_compute. discriminate.
  - intros g Hg. repeat (apply elem_of_cons in Hg as [->|Hg]);
      [discriminate..|by apply elem_of_nil in Hg].
  - intros gi g f _ _ Hf. by apply elem_of_empty in Hf.
Defined.

Lemma applyAutoSelection_keeps_unknown fileStatuses groupSelections
  (merged : gmap string bool) x f b :
  statusOf fileStatuses f = unknown -> merged !! f = Some b ->
  applyAutoSelection fileStatuses groupSelections merged x !! f = Some b.
Proof.
  intros Hst Hb. destruct (decide (x = f)) as [->|Hne].
  - unfold applyAutoSelection. cbv zeta. rewrite Hst.
    rewrite (bool_decide_eq_false_2 (unknown = saved)) by done.
    rewrite (bool_decide_eq_false_2 (unknown = removed)) by done.
    simpl. by rewrite decide_True by (by rewrite Hb).
  - by rewrite applyAutoSelection_other.
Qed.

Lemma apply_fold_keeps_unknown fileStatuses groupSelections l
  (merged : gmap string bool) f b :
  statusOf fileStatuses f = unknown -> merged !! f = Some b ->
  foldl (applyAutoSelection fileStatuses groupSelections) merged l !! f
  = Some b.
Proof.
  intros Hst. revert merged.
  induction l as [|x l IH]; intros merged Hb; simpl; [done|].
  by apply IH, applyAutoSelection_keeps_unknown.
Qed.

Lemma reconcileGroup_keeps_unknown fileStatuses metadata mode userModified
  existing groupFiles f b :
  statusOf fileStatuses f = unknown -> existing !! f = Some b ->
  reconcileGroup fileStatuses metadata mode userModified existing groupFiles
    !! f = Some b.
Proof.
  intros Hst Hb. unfold reconcileGroup. cbv zeta.
  destruct (decide (0 < length _)%nat); [|done].
  by apply apply_fold_keeps_unknown.
Qed.

Lemma reconcileGroup_other fileStatuses metadata mode userModified existing
  groupFiles f :
  f ∉ groupFiles ->
  reconcileGroup fileStatuses metadata mode userModified existing groupFiles
    !! f = existing !! f.
Proof.
  intros Hf. unfold reconcileGroup. cbv zeta.
  destruct (decide (0 < length _)%nat); [|done].
  apply apply_fold_other. by intros [? _]%elem_of_filesForAutoSelect.
Qed.

Lemma recompute_outside fileStatuses metadata mode userModified groups
  (prev : Selections) gi :
  groups !! gi = None ->
  recomputeSelections fileStatuses metadata mode userModified groups prev
    !! gi = prev !! gi.
Proof.
  intros Hnone%lookup_ge_None. unfold recomputeSelections.
  apply reconcileFrom_lookup. right. lia.
Qed.

(** X17. A recomputation of the selections, in either mode, never
    changes a selection that a file of unknown status already has in a
    group: switching the check-all mode only reaches the unknown files
    that have no selection yet. *)
Theorem X17_recompute_keeps_unknown_selections :
  forall (fileStatuses : gmap string FileStatus)
         (metadata : gmap string McqMeta) (mode : bool)
         (userModified : gset string) (groups : list Group)
         (prev : Selections) (gi : nat) (f : string) (b : bool),
    statusOf fileStatuses f = unknown ->
    selectionOf prev gi f = Some b ->
    selectionOf
      (recomputeSelections fileStatuses metadata mode userModified groups
         prev) gi f = Some b.
Proof.
  intros fileStatuses metadata mode userModified groups prev gi f b Hst Hb.
  unfold selectionOf in *.
  destruct (groups !! gi) as [g|] eqn:Hg.
  - rewrite (recompute_lookup _ _ _ _ _ _ _ _ Hg).
    apply reconcileGroup_keeps_unknown; [done|].
    by destruct (prev !! gi).
  - by rewrite recompute_outside.
Qed.

Lemma X17_recompute_keeps_unknown_selections_witness :
  selectionOf
    (recomputeSelections statuses_shared ∅ true ∅ groups_shared sel_shared)
    0 "1.json" = Some false.
Proof.
  apply (X17_recompute_keeps_unknown_selections statuses_shared ∅ true ∅
           groups_shared sel_shared 0 "1.json" false);
    vm_compute; reflexivity.
Defined.

Lemma reconcileGroup_idempotent fileStatuses metadata mode userModified
  existing groupFiles :
  reconcileGroup fileStatuses metadata mode userModified
    (reconcileGroup fileStatuses metadata mode userModified existing
       groupFiles) groupFiles
  = reconcileGroup fileStatuses metadata mode userModified existing
      groupFiles.
Proof.
  apply map_eq. intros f.
  destruct (decide (f ∈ userModified)) as [Hu|Hu].
  { by rewrite !reconcileGroup_userModified. }
  destruct (decide (f ∈ groupFiles)) as [Hf|Hf].
  2:{ by rewrite !reconcileGroup_other. }
  pose proof (reconcileGroup_status fileStatuses metadata mode userModified
                existing groupFiles f Hf Hu) as [Hs1 Hr1].
  pose proof (reconcileGroup_status fileStatuses metadata mode userModified
                (reconcileGroup fileStatuses metadata mode userModified
                   existing groupFiles) groupFiles f Hf Hu) as [Hs2 Hr2].
  destruct (statusOf fileStatuses f) eqn:Hst.
  - by rewrite Hs1, Hs2.
  - by rewrite Hr1, Hr2.
  - destruct (reconcileGroup_some fileStatuses metadata mode userModified
                existing groupFiles f) as [b Hb]; [by right|].
    rewrite Hb. by apply reconcileGroup_keeps_unknown.
Qed.

(** X18. Recomputing the selections is idempotent: under the same
    statuses, metadata, mode and user-modified files a second run changes
    nothing. *)
Theorem X18_recompute_idempotent :
  forall (fileStatuses : gmap string FileStatus)
         (metadata : gmap string McqMeta) (mode : bool)
         (userModified : gset string) (groups : list Group)
         (prev : Selections),
    recomputeSelections fileStatuses metadata mode userModified groups
      (recomputeSelections fileStatuses metadata mode userModified groups
         prev)
    = recomputeSelections fileStatuses metadata mode userModified groups
        prev.
Proof.
  intros fileStatuses metadata mode userModified groups prev.
  apply map_eq. intros gi.
  destruct (groups !! gi) as [g|] eqn:Hg.
  - rewrite !(recompute_lookup _ _ _ _ _ _ _ _ Hg). simpl.
    by rewrite reconcileGroup_idempotent.
  - by rewrite !recompute_outside.
Qed.

(** ** Toggles and conflicts *)

Lemma toggleStep_frame groups filename chk (prev updated : Selections) x gi f :
  (forall s, prev !! gi = Some s -> is_Some (updated !! gi)) ->
  f <> filename ->
  selectionOf (toggleStep groups filename chk prev updated x) gi f
  = selectionOf updated gi f
  \/ (updated !! gi = None /\ prev !! gi = None
      /\ selectionOf (toggleStep groups filename chk prev updated x) gi f
         = None).
Proof.
  intros Hprev Hf. unfold toggleStep.
  destruct (groups !! x) as [g|]; [|by left].
  destruct (decide (filename ∈ files g)); [|by left].
  unfold selectionOf. destruct (decide (x = gi)) as [->|Hne].
  - rewrite lookup_insert_eq, lookup_insert_ne by done.
    destruct (updated !! gi) as [s|] eqn:Hu; [by left|].
    destruct (prev !! gi) as [s|] eqn:Hp.
    + destruct (Hprev s eq_refl) as [? ?]. done.
    + right. simpl. by rewrite lookup_empty.
  - left. by rewrite lookup_insert_ne.
Qed.

Lemma toggleStep_domain groups filename chk (prev updated : Selections) x gi :
  is_Some (updated !! gi) ->
  is_Some (toggleStep groups filename chk prev updated x !! gi).
Proof.
  intros H. unfold toggleStep.
  destruct (groups !! x) as [g|]; [|done].
  destruct (decide (filename ∈ files g)); [|done].
  destruct (decide (x = gi)) as [->|Hne].
  - by rewrite lookup_insert_eq.
  - by rewrite lookup_insert_ne.
Qed.

Lemma toggle_fold_frame groups filename chk (prev : Selections) xs updated
  gi f :
  (forall s, prev !! gi = Some s -> is_Some (updated !! gi)) ->
  f <> filename ->
  selectionOf updated gi f = selectionOf prev gi f ->
  selectionOf (foldl (toggleStep groups filename chk prev) updated xs) gi f
  = selectionOf prev gi f.
Proof.
  intros Hprev Hf. revert updated Hprev.
  induction xs as [|x xs IH]; intros updated Hprev Heq; simpl; [done|].
  apply IH.
  - intros s Hs. apply toggleStep_domain. by eapply Hprev.
  - destruct (toggleStep_frame groups filename chk prev updated x gi f
                Hprev Hf) as [->|(_ & Hp & ->)]; [done|].
    unfold selectionOf. by rewrite Hp.
Qed.

Lemma toggleStep_untouched groups filename chk (prev updated : Selections)
  x gi :
  x <> gi ->
  toggleStep groups filename chk prev updated x !! gi = updated !! gi.
Proof.
  intros Hne. unfold toggleStep.
  destruct (groups !! x) as [g|]; [|done].
  destruct (decide (filename ∈ files g)); [|done].
  by rewrite lookup_insert_ne.
Qed.

Lemma toggleStep_skips groups filename chk (prev updated : Selections) x :
  (forall g, groups !! x = Some g -> filename ∉ files g) ->
  toggleStep groups filename chk prev updated x = updated.
Proof.
  intros H. unfold toggleStep.
  destruct (groups !! x) as [g|] eqn:Hg; [|done].
  destruct (decide (filename ∈ files g)) as [Hin|]; [|done].
  by destruct (H g eq_refl).
Qed.

Lemma toggle_fold_untouched groups filename chk (prev : Selections) xs
  updated gi :
  gi ∉ xs \/ (forall g, groups !! gi = Some g -> filename ∉ files g) ->
  foldl (toggleStep groups filename chk prev) updated xs !! gi
  = updated !! gi.
Proof.
  intros H. revert updated.
  induction xs as [|x xs IH]; intros updated; simpl; [done|].
  rewrite IH.
  - destruct (decide (x = gi)) as [->|Hne].
    + destruct H as [H|H]; [by destruct H; left|].
      by rewrite toggleStep_skips.
    + by apply toggleStep_untouched.
  - destruct H as [H|H]; [left|by right].
    intros Hin. apply H. by right.
Qed.

(** X19. A toggle touches nothing but the toggled file: the selection
    of every other file stays as it was in every group, a group that is
    not on the page or does not list the file keeps its whole entry, and
    the set of user-modified files grows by the toggled file only. *)
Theorem X19_toggle_frame :
  forall (now : Z) (subj : string) (groups : list Group) (start_ end_ : Q)
         (filename : string) (chk : bool) (st : ReviewState),
    let page := getGroupsForCurrentPage groups start_ end_ in
    let st' := handleFileToggleAll now subj groups start_ end_ filename chk
                 st in
    (forall gi f, f <> filename ->
       selectionOf (autoSelections st') gi f
       = selectionOf (autoSelections st) gi f)
    /\ (forall gi,
          gi ∉ page
          \/ (forall g, groups !! gi = Some g -> filename ∉ files g) ->
          autoSelections st' !! gi = autoSelections st !! gi)
    /\ (forall f, f ∈ userModifiedFiles st' <->
                  f = filename \/ f ∈ userModifiedFiles st).
Proof.
  intros now subj groups start_ end_ filename chk st page st'.
  subst st'. simpl. unfold toggleSelections. fold page.
  split; [|split].
  - intros gi f Hf. by apply toggle_fold_frame.
  - intros gi H. by apply toggle_fold_untouched.
  - intros f. rewrite elem_of_union, elem_of_singleton. done.
Qed.

Lemma X19_toggle_frame_witness :
  selectionOf
    (autoSelections
       (handleFileToggleAll 30 "physics" groups_shared 100 0 "2.json" true
          state_shared)) 0 "1.json"
  = selectionOf (autoSelections state_shared) 0 "1.json".
Proof.
  apply (X19_toggle_frame 30 "physics" groups_shared 100%Q 0%Q "2.json" true
           state_shared).
  discriminate.
Defined.

Lemma detect_on_page groups fileStatuses sel start_ end_ prev f :
  getGroupsForCurrentPage groups start_ end_ <> [] ->
  f ∈ detectConflictsEffect groups fileStatuses sel start_ end_ prev <->
  holdsValue groups fileStatuses sel
    (getGroupsForCurrentPage groups start_ end_) f true
  /\ holdsValue groups fileStatuses sel
       (getGroupsForCurrentPage groups start_ end_) f false.
Proof.
  intros Hne.
  pose proof (reordered_page_perm groups start_ end_) as Hperm.
  unfold detectConflictsEffect. cbv zeta.
  destruct (decide (length _ = 0%nat)) as [Hz|_].
  { rewrite Hperm in Hz. by apply length_zero_iff_nil in Hz. }
  rewrite elem_of_conflictsOf.
  split; intros [Ht Hf]; split; (eapply holdsValue_perm; [|done]); done.
Qed.

(** A file whose selection is [b] in every group of the page that lists
    it holds no other value. *)
Lemma holdsValue_uniform groups fileStatuses sel page f b b' :
  (forall gi g, gi ∈ page -> groups !! gi = Some g -> f ∈ files g ->
                selectionOf sel gi f = Some b) ->
  holdsValue groups fileStatuses sel page f b' -> b' = b.
Proof.
  intros Hall (gi & g & Hin & Hg & Hf & <-).
  specialize (Hall gi g Hin Hg Hf). unfold selectionOf in Hall.
  unfold isCheckedIn. destruct (sel !! gi) as [s|]; [|done]. simpl.
  by rewrite Hall.
Qed.

(** X20. Right after a toggle the toggled file is not in conflict: on a
    page with a group, the detection run on the new selections does not
    report it, whatever the statuses and whatever it reported before. *)
Theorem X20_toggle_resolves_conflict :
  forall (now : Z) (subj : string) (groups : list Group) (start_ end_ : Q)
         (filename : string) (chk : bool) (st : ReviewState)
         (fileStatuses : gmap string FileStatus) (prev : gset string),
    let st' := handleFileToggleAll now subj groups start_ end_ filename chk
                 st in
    getGroupsForCurrentPage groups start_ end_ <> [] ->
    filename ∉ detectConflictsEffect groups fileStatuses (autoSelections st')
                 start_ end_ prev.
Proof.
  intros now subj groups start_ end_ filename chk st fileStatuses prev st'
    Hne [Ht Hf]%detect_on_page; [|done].
  assert (forall gi g,
            gi ∈ getGroupsForCurrentPage groups start_ end_ ->
            groups !! gi = Some g -> filename ∈ files g ->
            selectionOf (autoSelections st') gi filename = Some chk) as Hall.
  { intros gi g Hin Hg Hfile. subst st'. simpl. unfold toggleSelections.
    by eapply toggle_fold_sets. }
  apply (holdsValue_uniform _ _ _ _ _ chk) in Ht; [|done].
  apply (holdsValue_uniform _ _ _ _ _ chk) in Hf; [|done].
  congruence.
Qed.

Lemma X20_toggle_resolves_conflict_witness :
  "2.json" ∉ detectConflictsEffect groups_shared statuses_shared
               (autoSelections
                  (handleFileToggleAll 30 "physics" groups_shared 100 0
                     "2.json" true state_shared))
               100 0 {[ "2.json" ]}.
Proof.
  apply (X20_toggle_resolves_conflict 30 "physics" groups_shared 100%Q 0%Q
           "2.json" true state_shared statuses_shared {[ "2.json" ]}).
  vm_compute. discriminate.
Defined.

(** X21. After a recomputation of the selections, a file whose status is
    saved or removed and which is not user-modified is not in conflict on
    a page with a group: the status fixes its selection in every group. *)
Theorem X21_status_files_never_conflict :
  forall (fileStatuses : gmap string FileStatus)
         (metadata : gmap string McqMeta) (mode : bool)
         (userModified : gset string) (groups : list Group)
         (prev : Selections) (start_ end_ : Q) (before : gset string)
         (f : string),
    getGroupsForCurrentPage groups start_ end_ <> [] ->
    f ∉ userModified ->
    statusOf fileStatuses f = saved \/ statusOf fileStatuses f = removed ->
    f ∉ detectConflictsEffect groups fileStatuses
          (recomputeSelections fileStatuses metadata mode userModified groups
             prev) start_ end_ before.
Proof.
  intros fileStatuses metadata mode userModified groups prev start_ end_
    before f Hne Hu Hst [Ht Hf]%detect_on_page; [|done].
  set (b := bool_decide (statusOf fileStatuses f = saved)).
  assert (forall gi g,
            gi ∈ getGroupsForCurrentPage groups start_ end_ ->
            groups !! gi = Some g -> f ∈ files g ->
            selectionOf
              (recomputeSelections fileStatuses metadata mode userModified
                 groups prev) gi f = Some b) as Hall.
  { intros gi g _ Hg Hfile. unfold selectionOf.
    rewrite (recompute_lookup _ _ _ _ _ _ _ _ Hg).
    destruct (reconcileGroup_status fileStatuses metadata mode userModified
                (default ∅ (prev !! gi)) (files g) f Hfile Hu) as [Hs Hr].
    subst b. destruct Hst as [Hst|Hst].
    - rewrite Hs by done. by rewrite Hst.
    - rewrite Hr by done. by rewrite Hst. }
  apply (holdsValue_uniform _ _ _ _ _ b) in Ht; [|done].
  apply (holdsValue_uniform _ _ _ _ _ b) in Hf; [|done].
  congruence.
Qed.

Lemma X21_status_files_never_conflict_witness :
  "2.json" ∉ detectConflictsEffect groups_shared statuses_shared
               (recomputeSelections statuses_shared ∅ false ∅ groups_shared
                  sel_shared) 100 0 {[ "2.json" ]}.
Proof.
  apply (X21_status_files_never_conflict statuses_shared ∅ false ∅
           groups_shared sel_shared 100%Q 0%Q {[ "2.json" ]} "2.json").
  - vm_compute. discriminate.
  - apply not_elem_of_empty.
  - left. vm_compute. reflexivity.
Defined.

(** X22. On a page with a group, a file in conflict is listed by two
    different groups of the page: a file that only one group of the page
    lists is never reported. *)
Theorem X22_conflict_needs_two_groups :
  forall (groups : list Group) (fileStatuses : gmap string FileStatus)
         (sel : Selections) (start_ end_ : Q) (prev : gset string)
         (f : string),
    let page := getGroupsForCurrentPage groups start_ end_ in
    page <> [] ->
    f ∈ detectConflictsEffect groups fileStatuses sel start_ end_ prev ->
    exists gi1 gi2 g1 g2,
      gi1 <> gi2 /\ gi1 ∈ page /\ gi2 ∈ page
      /\ groups !! gi1 = Some g1 /\ groups !! gi2 = Some g2
      /\ f ∈ files g1 /\ f ∈ files g2.
Proof.
  intros groups fileStatuses sel start_ end_ prev f page Hne
    [Ht Hf]%detect_on_page; [|done].
  destruct Ht as (gi1 & g1 & Hin1 & Hg1 & Hf1 & Hv1).
  destruct Hf as (gi2 & g2 & Hin2 & Hg2 & Hf2 & Hv2).
  exists gi1, gi2, g1, g2. repeat (split; [|done]).
  intros ->. rewrite Hv1 in Hv2. done.
Qed.

Lemma X22_conflict_needs_two_groups_witness :
  exists gi1 gi2 g1 g2,
    gi1 <> gi2
    /\ gi1 ∈ getGroupsForCurrentPage groups_shared 100 0
    /\ gi2 ∈ getGroupsForCurrentPage groups_shared 100 0
    /\ groups_shared !! gi1 = Some g1 /\ groups_shared !! gi2 = Some g2
    /\ "2.json" ∈ files g1 /\ "2.json" ∈ files g2.
Proof.
  apply (X22_conflict_needs_two_groups groups_shared ∅ sel_shared 100%Q 0%Q
           ∅ "2.json").
  - vm_compute. discriminate.
  - vm_compute. reflexivity.
Defined.

(** ** The preview of a submission *)

Lemma liveFinalStep_spec (s m : gmap string bool) x f :
  (liveFinalStep s m x !! f = Some true <->
   m !! f = Some true \/ (x = f /\ s !! f = Some true))
  /\ (is_Some (liveFinalStep s m x !! f) <-> is_Some (m !! f) \/ x = f).
Proof.
  unfold liveFinalStep. cbv zeta.
  destruct (decide (x = f)) as [->|Hne].
  - destruct (s !! f) as [[|]|] eqn:Hs; simpl.
    + rewrite lookup_insert_eq. split; split; eauto.
    + destruct (decide (is_Some (m !! f))) as [Hm|Hm].
      * split; [|split; eauto]. split; [by left|]. by intros [?|[_ ?]].
      * rewrite lookup_insert_eq. apply eq_None_not_Some in Hm. rewrite Hm.
        split; split; eauto; try done. by intros [?|[_ ?]].
    + destruct (decide (is_Some (m !! f))) as [Hm|Hm].
      * split; [|split; eauto]. split; [by left|]. by intros [?|[_ ?]].
      * rewrite lookup_insert_eq. apply eq_None_not_Some in Hm. rewrite Hm.
        split; split; eauto; try done. by intros [?|[_ ?]].
  - assert (liveFinalStep s m x !! f = m !! f) as Heq.
    { unfold liveFinalStep. cbv zeta.
      destruct (default false (s !! x)); [by rewrite lookup_insert_ne|].
      destruct (decide (is_Some (m !! x))); [done|].
      by rewrite lookup_insert_ne. }
    unfold liveFinalStep in Heq. cbv zeta in Heq. rewrite Heq.
    split; (split; [by left|]); by intros [?|[? ?]] || by intros [?|?].
Qed.

Lemma live_files (s m : gmap string bool) (fs : list string) (f : string) :
  (foldl (liveFinalStep s) m fs !! f = Some true <->
   m !! f = Some true \/ (f ∈ fs /\ s !! f = Some true))
  /\ (is_Some (foldl (liveFinalStep s) m fs !! f) <->
      is_Some (m !! f) \/ f ∈ fs).
Proof.
  revert m. induction fs as [|x fs IH]; intros m; simpl.
  - split; (split; [by left|]).
    + by intros [?|[?%elem_of_nil _]].
    + by intros [?|?%elem_of_nil].
  - destruct (IH (liveFinalStep s m x)) as [H1 H2].
    destruct (liveFinalStep_spec s m x f) as [G1 G2].
    rewrite H1, H2, G1, G2, elem_of_cons. split; split.
    + intros [[?|[-> ?]]|[? ?]]; eauto.
    + intros [?|[[->|?] ?]]; eauto.
    + intros [[?| ->]|?]; eauto.
    + intros [?|[-> |?]]; eauto.
Qed.

Lemma live_groups groups (sel : Selections) (page : list nat)
  (m : gmap string bool) :
  (forall gi, gi ∈ page -> is_Some (groups !! gi)) ->
  exists m',
    foldl (fun acc groupIndex =>
             fileFinalStates ← acc;
             group ← groups !! groupIndex;
             let selections := default ∅ (sel !! groupIndex) in
             Some (foldl (liveFinalStep selections) fileFinalStates
                     (files group)))
          (Some m) page = Some m'
    /\ forall f,
         (m' !! f = Some true <->
          m !! f = Some true \/ checkedSomewhere groups sel page f)
         /\ (is_Some (m' !! f) <-> is_Some (m !! f) \/ onPage groups page f).
Proof.
  revert m. induction page as [|gi page IH]; intros m Hvalid; simpl.
  - exists m. split; [done|]. intros f. split; (split; [by left|]).
    + intros [H|(gi & g & Hin & _)]; [done|by inversion Hin].
    + intros [H|(gi & g & Hin & _)]; [done|by inversion Hin].
  - destruct (Hvalid gi ltac:(by left)) as [g Hg]. rewrite Hg. simpl.
    destruct (IH (foldl (liveFinalStep (default ∅ (sel !! gi))) m (files g)))
      as (m' & Hm' & Hspec).
    { intros gi' Hin. apply Hvalid. by right. }
    exists m'. split; [done|]. intros f.
    destruct (Hspec f) as [H1 H2].
    destruct (live_files (default ∅ (sel !! gi)) m (files g) f) as [G1 G2].
    assert (Hsel : default ∅ (sel !! gi) !! f = selectionOf sel gi f).
    { unfold selectionOf. by destruct (sel !! gi). }
    rewrite Hsel in G1.
    rewrite H1, H2, G1, G2, checkedSomewhere_cons, onPage_cons.
    split; split.
    + intros [[?|[? ?]]|?];
        [by left|right; left; by exists g|by right; right].
    + intros [?|[(g' & Hg' & ? & ?)|?]]; [by left; left| |by right].
      left; right. rewrite Hg in Hg'. by inversion Hg'; subst.
    + intros [[?|?]|?]; [by left|right; left; by exists g|by right; right].
    + intros [?|[(g' & Hg' & ?)|?]]; [by left; left| |by right].
      left; right. rewrite Hg in Hg'. by inversion Hg'; subst.
Qed.

(** The single pass of the preview yields the final states of the
    submission. *)
Lemma liveFinalStates_eq groups (sel : Selections) (page : list nat) :
  (forall gi, gi ∈ page -> is_Some (groups !! gi)) ->
  liveFinalStates groups sel page = computeFinalStates groups sel page.
Proof.
  intros Hvalid.
  destruct (computeFinalStates_spec groups sel page Hvalid)
    as (final & -> & Hfinal).
  destruct (live_groups groups sel page ∅ Hvalid) as (m' & Hm' & Hlive).
  transitivity (Some m'); [exact Hm'|]. f_equal.
  apply map_eq. intros f.
  destruct (Hlive f) as [L1 L2]. destruct (Hfinal f) as [F1 F2].
  rewrite lookup_empty in L1, L2.
  destruct (m' !! f) as [[|]|] eqn:Hm.
  - assert (checkedSomewhere groups sel page f) as Hc.
    { destruct (proj1 L1 eq_refl) as [?|?]; done. }
    symmetry. apply F1; [by eapply checkedSomewhere_onPage|done].
  - assert (onPage groups page f) as Hon.
    { destruct (proj1 L2 ltac:(by eexists)) as [[? ?]|?]; done. }
    symmetry. apply (F1 Hon). intros Hc.
    assert (Some false = Some true) by (apply L1; by right). done.
  - symmetry. apply F2. intros Hon.
    assert (is_Some (@None bool)) as [? ?] by (apply L2; by right). done.
Qed.

Lemma page_valid groups start_ end_ gi :
  gi ∈ getGroupsForCurrentPage groups start_ end_ -> is_Some (groups !! gi).
Proof. intros [g Hg]%page_lookup. by exists g. Qed.

(** X23. The counts shown before a submission are taken from exactly
    the final states the submission itself computes for the page: the
    preview returns, and its two numbers are the sizes of the sets of
    files whose final state is kept while their status is removed, and
    whose final state is dropped while their status is saved. *)
Theorem X23_preview_uses_submission_states :
  forall (groups : list Group) (fileStatuses : gmap string FileStatus)
         (sel : Selections) (start_ end_ : Q),
    exists final,
      computeFinalStates groups sel
        (getGroupsForCurrentPage groups start_ end_) = Some final
      /\ calculateLiveCounts groups fileStatuses sel start_ end_
         = Some {| willMoveToSaved := size (filesToSave fileStatuses final);
                   willMoveToRemoved :=
                     size (filesToRemove fileStatuses final) |}.
Proof.
  intros groups fileStatuses sel start_ end_.
  pose proof (page_valid groups start_ end_) as Hvalid.
  destruct (computeFinalStates_spec groups sel _ Hvalid)
    as (final & Hfinal & _).
  exists final. split; [done|].
  unfold calculateLiveCounts. rewrite liveFinalStates_eq by done.
  by rewrite Hfinal.
Qed.

Lemma filesToSave_none fileStatuses (final : gmap string bool) :
  (forall f, final !! f = Some true -> statusOf fileStatuses f <> removed) ->
  size (filesToSave fileStatuses final) = 0%nat.
Proof.
  intros H. apply size_empty_iff, elem_of_equiv_empty. intros f Hf.
  unfold filesToSave in Hf. apply elem_of_dom in Hf as [v Hv].
  apply map_lookup_filter_Some in Hv as [Hv [Hb Hst]]. simpl in Hb, Hst.
  subst v. by apply (H f).
Qed.

Lemma filesToRemove_none fileStatuses (final : gmap string bool) :
  (forall f, final !! f = Some false -> statusOf fileStatuses f <> saved) ->
  size (filesToRemove fileStatuses final) = 0%nat.
Proof.
  intros H. apply size_empty_iff, elem_of_equiv_empty. intros f Hf.
  unfold filesToRemove in Hf. apply elem_of_dom in Hf as [v Hv].
  apply map_lookup_filter_Some in Hv as [Hv [Hb Hst]]. simpl in Hb, Hst.
  subst v. by apply (H f).
Qed.

(** X24. As long as no file with a saved or removed status is
    user-modified, the preview that follows a recomputation of the
    selections announces no change: both counts are zero. *)
Theorem X24_preview_is_zero_after_recompute :
  forall (fileStatuses : gmap string FileStatus)
         (metadata : gmap string McqMeta) (mode : bool)
         (userModified : gset string) (groups : list Group)
         (prev : Selections) (start_ end_ : Q),
    (forall f, f ∈ userModified -> statusOf fileStatuses f = unknown) ->
    calculateLiveCounts groups fileStatuses
      (recomputeSelections fileStatuses metadata mode userModified groups
         prev) start_ end_
    = Some {| willMoveToSaved := 0; willMoveToRemoved := 0 |}.
Proof.
  intros fileStatuses metadata mode userModified groups prev start_ end_ Hum.
  set (sel := recomputeSelections fileStatuses metadata mode userModified
                groups prev).
  set (page := getGroupsForCurrentPage groups start_ end_).
  pose proof (page_valid groups start_ end_) as Hvalid. fold page in Hvalid.
  destruct (computeFinalStates_spec groups sel page Hvalid)
    as (final & Hfinal & Hspec).
  unfold calculateLiveCounts. fold page.
  rewrite liveFinalStates_eq by done. rewrite Hfinal. simpl.
  assert (Hsel : forall gi g f, groups !! gi = Some g -> f ∈ files g ->
            statusOf fileStatuses f <> unknown ->
            selectionOf sel gi f
            = Some (bool_decide (statusOf fileStatuses f = saved))).
  { intros gi g f Hg Hf Hst. unfold selectionOf, sel.
    rewrite (recompute_lookup _ _ _ _ _ _ _ _ Hg).
    assert (f ∉ userModified) as Hu by (intros Hu; by apply Hst, Hum).
    destruct (reconcileGroup_status fileStatuses metadata mode userModified
                (default ∅ (prev !! gi)) (files g) f Hf Hu) as [Hs Hr].
    destruct (statusOf fileStatuses f) eqn:E; [by apply Hs|by apply Hr|done]. }
  rewrite filesToSave_none, filesToRemove_none; [done| |].
  - intros f Hfalse Hst.
    assert (~ ~ onPage groups page f) as Hnn.
    { intros Hoff. destruct (Hspec f) as [_ Hnone].
      rewrite Hnone in Hfalse; done. }
    apply Hnn. intros Hon.
    destruct (Hspec f) as [[_ Hno] _]; [done|].
    apply Hno in Hfalse. apply Hfalse.
    destruct Hon as (gi & g & Hin & Hg & Hf).
    exists gi, g. repeat (split; [done|]).
    rewrite (Hsel gi g f Hg Hf) by (by rewrite Hst). by rewrite Hst.
  - intros f Htrue Hst.
    assert (~ ~ onPage groups page f) as Hnn.
    { intros Hoff. destruct (Hspec f) as [_ Hnone].
      rewrite Hnone in Htrue; done. }
    apply Hnn. intros Hon.
    destruct (Hspec f) as [[Hyes _] _]; [done|].
    apply Hyes in Htrue as (gi & g & Hin & Hg & Hf & Hchk).
    rewrite (Hsel gi g f Hg Hf) in Hchk by (by rewrite Hst).
    rewrite Hst in Hchk. done.
Qed.

Lemma X24_preview_is_zero_after_recompute_witness :
  calculateLiveCounts groups_shared statuses_shared
    (recomputeSelections statuses_shared ∅ false ∅ groups_shared sel_shared)
    100 0
  = Some {| willMoveToSaved := 0; willMoveToRemoved := 0 |}.
Proof.
  apply (X24_preview_is_zero_after_recompute statuses_shared ∅ false ∅
           groups_shared sel_shared 100%Q 0%Q).
  intros f Hf. by apply elem_of_empty in Hf.
Defined.

(** ** The status context after a submission *)

Section Recorded.

Variable now : Z.
Variable subj : string.
Variable groups : list Group.
Variable final : gmap string bool.

Lemma recordSubmitted_statuses fs ctx f :
  ctxStatuses
    (foldl (fun ctx filename =>
              let finalState :=
                bool_decide (final !! filename = Some true) in
              setFileChecked now subj filename finalState
                {| ctxStatuses :=
                     setFileStatus filename (submittedStatus final filename)
                       (ctxStatuses ctx);
                   ctxStorage := ctxStorage ctx |}) ctx fs) !! f
  = if decide (f ∈ fs) then Some (submittedStatus final f)
    else ctxStatuses ctx !! f.
Proof.
  revert ctx. induction fs as [|x fs IH]; intros ctx.
  - simpl. destruct (decide (f ∈ [])) as [H|_]; [by apply elem_of_nil in H|done].
  - cbn [foldl]. rewrite IH. cbv zeta.
    unfold setFileChecked, setFileCheckedState, setFileStatus. simpl.
    rewrite lookup_insert_eq. simpl. rewrite insert_insert_eq.
    destruct (decide (f ∈ fs)) as [Hin|Hout].
    + rewrite decide_True by (by right). done.
    + destruct (decide (x = f)) as [->|Hne].
      * rewrite decide_True by (by left). by rewrite lookup_insert_eq.
      * rewrite decide_False by (by intros [?|?]%elem_of_cons).
        by rewrite lookup_insert_ne.
Qed.

Lemma recordSubmitted_step gi ctx f :
  ctxStatuses
    (match groups !! gi with
     | Some group => recordSubmitted now subj final group ctx
     | None => ctx
     end) !! f
  = match groups !! gi with
    | Some g => if decide (f ∈ files g)
                then Some (submittedStatus final f)
                else ctxStatuses ctx !! f
    | None => ctxStatuses ctx !! f
    end.
Proof.
  destruct (groups !! gi) as [g|]; [|done].
  apply recordSubmitted_statuses.
Qed.

Lemma recordSubmissions_covered order ctx f :
  onPage groups order f
  \/ ctxStatuses ctx !! f = Some (submittedStatus final f) ->
  ctxStatuses (recordSubmissions now subj groups final order ctx) !! f
  = Some (submittedStatus final f).
Proof.
  unfold recordSubmissions. revert ctx.
  induction order as [|gi order IH]; intros ctx H; simpl.
  - destruct H as [(gi & g & Hin%elem_of_nil & _)|H]; done.
  - apply IH. rewrite recordSubmitted_step.
    destruct H as [[(g & Hg & Hf)|Hon]%onPage_cons|H].
    + right. rewrite Hg. by rewrite decide_True.
    + by left.
    + right. destruct (groups !! gi) as [g|]; [|done].
      by destruct (decide (f ∈ files g)).
Qed.

Lemma recordSubmissions_frame order ctx f :
  ~ onPage groups order f ->
  ctxStatuses (recordSubmissions now subj groups final order ctx) !! f
  = ctxStatuses ctx !! f.
Proof.
  unfold recordSubmissions. revert ctx.
  induction order as [|gi order IH]; intros ctx Hoff; simpl; [done|].
  rewrite IH.
  - rewrite recordSubmitted_step.
    destruct (groups !! gi) as [g|] eqn:Hg; [|done].
    destruct (decide (f ∈ files g)) as [Hf|]; [|done].
    exfalso. apply Hoff, onPage_cons. left. by exists g.
  - intros Hon. apply Hoff, onPage_cons. by right.
Qed.

End Recorded.

Lemma onPage_perm groups page page' f :
  page ≡ₚ page' -> onPage groups page f -> onPage groups page' f.
Proof.
  intros Hperm (gi & g & Hin & H). exists gi, g. split; [|done].
  by rewrite <- Hperm.
Qed.

(** X25. After the groups of a submission have been recorded, every file
    of a recorded group whose final state is defined has status saved and
    is checked when that state is kept, and has status removed and is
    unchecked otherwise; the entries of the files of no recorded group are
    untouched; and the statuses do not depend on the order in which the
    requests of the groups completed. *)
Theorem X25_recorded_statuses_follow_final_states :
  forall (now : Z) (subj : string) (groups : list Group)
         (final : gmap string bool) (order : list nat) (ctx : ContextState)
         (f : string),
    let ctx' := recordSubmissions now subj groups final order ctx in
    (onPage groups order f -> is_Some (final !! f) ->
     ctxStatuses ctx' !! f = Some (submittedStatus final f)
     /\ (statusOf (ctxStatuses ctx') f = saved <-> final !! f = Some true)
     /\ (statusOf (ctxStatuses ctx') f = removed <-> final !! f = Some false)
     /\ getFileChecked (ctxStatuses ctx') f
        = bool_decide (final !! f = Some true))
    /\ (~ onPage groups order f ->
        ctxStatuses ctx' !! f = ctxStatuses ctx !! f)
    /\ (forall order', order ≡ₚ order' -> onPage groups order f ->
          is_Some (final !! f) ->
          ctxStatuses (recordSubmissions now subj groups final order' ctx)
            !! f
          = ctxStatuses ctx' !! f).
Proof.
  intros now subj groups final order ctx f ctx'.
  split; [|split].
  - intros Hon [b Hb].
    assert (ctxStatuses ctx' !! f = Some (submittedStatus final f)) as Heq
      by (apply recordSubmissions_covered; by left).
    split; [done|]. unfold statusOf, getFileChecked. rewrite Heq.
    unfold submittedStatus. simpl. rewrite Hb. by destruct b.
  - apply recordSubmissions_frame.
  - intros order' Hperm Hon _. subst ctx'.
    rewrite !recordSubmissions_covered; [done|by left|left].
    by eapply onPage_perm.
Qed.

Lemma X25_recorded_statuses_follow_final_states_witness :
  ctxStatuses
    (recordSubmissions 40 "physics" groups_shared final_two [0; 2]%nat
       context_shared) !! "5.json"
  = Some (submittedStatus final_two "5.json").
Proof.
  destruct (X25_recorded_statuses_follow_final_states 40 "physics"
              groups_shared final_two [0; 2]%nat context_shared "5.json")
    as [Hrecorded _].
  apply Hrecorded.
  - exists 2%nat, (mkGroup ["2.json"; "5.json"] 0.998).
    split; [by right; left|]. split; [reflexivity|]. by right; left.
  - by exists false.
Defined.

(** X26. Once a page has been submitted and its groups recorded, in any
    order that covers the page, the preview of the same selections
    announces no change: both counts are zero. *)
Theorem X26_preview_is_zero_after_submission :
  forall (now : Z) (subj : string) (groups : list Group) (sel : Selections)
         (start_ end_ : Q) (order : list nat) (ctx : ContextState)
         (final : gmap string bool),
    let page := getGroupsForCurrentPage groups start_ end_ in
    computeFinalStates groups sel page = Some final ->
    order ≡ₚ page ->
    calculateLiveCounts groups
      (ctxStatuses (recordSubmissions now subj groups final order ctx))
      sel start_ end_
    = Some {| willMoveToSaved := 0; willMoveToRemoved := 0 |}.
Proof.
  intros now subj groups sel start_ end_ order ctx final page Hfinal Hperm.
  pose proof (page_valid groups start_ end_) as Hvalid. fold page in Hvalid.
  destruct (computeFinalStates_spec groups sel page Hvalid)
    as (final' & Hfinal' & Hspec).
  rewrite Hfinal in Hfinal'. inversion Hfinal'; subst final'.
  unfold calculateLiveCounts. fold page.
  rewrite liveFinalStates_eq by done. rewrite Hfinal. simpl.
  assert (Hst : forall (f : string) (b : bool), final !! f = Some b ->
            statusOf
              (ctxStatuses (recordSubmissions now subj groups final order ctx))
              f = if b then saved else removed).
  { intros f b Hb.
    destruct (decide (statusOf
                        (ctxStatuses
                           (recordSubmissions now subj groups final order ctx))
                        f = if b then saved else removed)) as [|Hno]; [done|].
    exfalso. destruct (Hspec f) as [_ Hnone].
    assert (~ ~ onPage groups page f) as Hnn.
    { intros Hoff. rewrite Hnone in Hb; done. }
    apply Hnn. intros Hon. apply Hno. unfold statusOf.
    rewrite recordSubmissions_covered
      by (left; by apply (onPage_perm groups page order)).
    unfold submittedStatus. simpl. rewrite Hb. by destruct b. }
  rewrite filesToSave_none, filesToRemove_none; [done| |].
  - intros f Hb. by rewrite (Hst f false Hb).
  - intros f Hb. by rewrite (Hst f true Hb).
Qed.

Lemma X26_preview_is_zero_after_submission_witness :
  calculateLiveCounts groups_shared
    (ctxStatuses
       (recordSubmissions 40 "physics" groups_shared
          (default ∅ (computeFinalStates groups_shared sel_shared
                        [0; 1; 2; 3]%nat))
          [1; 0; 2; 3]%nat context_shared))
    sel_shared 100 0
  = Some {| willMoveToSaved := 0; willMoveToRemoved := 0 |}.
Proof.
  apply (X26_preview_is_zero_after_submission 40 "physics" groups_shared
           sel_shared 100%Q 0%Q).
  - vm_compute. reflexivity.
  - replace (getGroupsForCurrentPage groups_shared 100 0)
      with [0; 1; 2; 3]%nat by (vm_compute; reflexivity).
    apply perm_swap.
Defined.

(** ** The batches of a submission *)

Lemma batchesFrom_concat fuel batchSize i (l : list nat) :
  (0 < batchSize)%nat -> (length l - i <= fuel)%nat ->
  concat (batchesFrom fuel batchSize i l) = drop i l.
Proof.
  intros Hpos. revert i.
  induction fuel as [|fuel IH]; intros i Hfuel; simpl.
  - symmetry. apply drop_ge. lia.
  - destruct (decide (i < length l)%nat) as [Hlt|Hge].
    + rewrite bool_decide_eq_true_2 by done. simpl.
      rewrite IH by lia. rewrite <- drop_drop. apply take_drop.
    + rewrite bool_decide_eq_false_2 by done. simpl.
      symmetry. apply drop_ge. lia.
Qed.

Lemma batchesFrom_sizes fuel batchSize i (l : list nat) :
  (0 < batchSize)%nat ->
  Forall (fun batch => (0 < length batch <= batchSize)%nat)
    (batchesFrom fuel batchSize i l).
Proof.
  intros Hpos. revert i.
  induction fuel as [|fuel IH]; intros i; simpl; [constructor|].
  destruct (decide (i < length l)%nat) as [Hlt|Hge].
  - rewrite bool_decide_eq_true_2 by done. constructor; [|apply IH].
    rewrite length_take, length_drop. lia.
  - rewrite bool_decide_eq_false_2 by done. constructor.
Qed.

Lemma batchSizeFor_pos n : (0 < batchSizeFor n)%nat.
Proof. unfold batchSizeFor. destruct (bool_decide _); lia. Qed.

(** X27. The batches of a submission cut the page into consecutive
    pieces: put together in order they give the page again, so that every
    group of the page is sent exactly once, and no batch is empty or
    larger than the batch size (30 for more than 505 groups, 5
    otherwise). *)
Theorem X27_batches_partition_the_page :
  forall (groupsInPage : list nat),
    concat (submissionBatches groupsInPage) = groupsInPage
    /\ Forall (fun batch =>
                 (0 < length batch <= batchSizeFor (length groupsInPage))%nat)
         (submissionBatches groupsInPage)
    /\ ((505 < length groupsInPage)%nat ->
        batchSizeFor (length groupsInPage) = 30%nat)
    /\ ((length groupsInPage <= 505)%nat ->
        batchSizeFor (length groupsInPage) = 5%nat).
Proof.
  intros groupsInPage. unfold submissionBatches.
  split; [|split; [|split]].
  - rewrite batchesFrom_concat; [done|apply batchSizeFor_pos|lia].
  - apply batchesFrom_sizes, batchSizeFor_pos.
  - intros H. unfold batchSizeFor. by rewrite bool_decide_eq_true_2.
  - intros H. unfold batchSizeFor. rewrite bool_decide_eq_false_2; [done|lia].
Qed.

Lemma X27_batches_partition_the_page_witness :
  batchSizeFor (length (seq 0 7)) = 5%nat.
Proof.
  apply (X27_batches_partition_the_page (seq 0 7)).
  simpl. lia.
Defined.

(** ** The number read from a file name *)

Lemma digitsOf_nonneg s : Forall (fun d => 0 <= d <= 9) (digitsOf s).
Proof.
  induction s as [|c s IH]; simpl; [constructor|].
  destruct (isDigit c) eqn:Hd; [|done].
  constructor; [|done]. unfold isDigit in Hd. cbv zeta in Hd.
  apply andb_true_iff in Hd as [H1%Nat.leb_le H2%Nat.leb_le]. lia.
Qed.

Lemma digits_value_nonneg ds acc :
  Forall (fun d => 0 <= d <= 9) ds -> 0 <= acc ->
  0 <= foldl (fun acc d => acc * 10 + d) acc ds.
Proof.
  intros Hds. revert acc.
  induction Hds as [|d ds Hd Hds IH]; intros acc Hacc; simpl; [done|].
  apply IH. lia.
Qed.

(** X28. The number read from a file name is always positive: a name
    without digits, and a name whose digits read as zero, both give
    999999. *)
Theorem X28_fileNumOfName_positive :
  forall (filename : string),
    0 < fileNumOfName filename
    /\ (digitsOf filename = [] -> fileNumOfName filename = 999999)
    /\ (Forall (fun d => d = 0) (digitsOf filename) ->
        fileNumOfName filename = 999999).
Proof.
  intros filename. unfold fileNumOfName.
  pose proof (digitsOf_nonneg filename) as Hds.
  destruct (digitsOf filename) as [|d ds] eqn:E.
  - split; [lia|]. done.
  - split; [|split; [done|]].
    + pose proof (digits_value_nonneg (d :: ds) 0 Hds ltac:(lia)) as Hn.
      destruct (decide (_ = 0)); lia.
    + intros Hzero.
      assert (forall l acc, Forall (fun d => d = 0) l -> acc = 0 ->
                foldl (fun acc d => acc * 10 + d) acc l = 0) as Hfold.
      { intros l. induction l as [|x l IH]; intros acc Hl Hacc; simpl;
          [done|].
        inversion Hl; subst. by apply IH. }
      rewrite decide_True; [done|]. by apply Hfold.
Qed.

Lemma X28_fileNumOfName_positive_witness :
  fileNumOfName "notes.json" = 999999.
Proof.
  destruct (X28_fileNumOfName_positive "notes.json") as (_ & Hnone & _).
  apply Hnone. vm_compute. reflexivity.
Defined.

(** ** The display order, continued *)

Lemma addGroup_head p x y :
  head (reordered p) = Some x -> head (reordered (addGroup p y)) = Some x.
Proof.
  intros H. unfold addGroup. destruct (decide (y ∈ placedGroups p)); [done|].
  simpl. destruct (reordered p); [done|]. done.
Qed.

Lemma foldl_addGroup_head ys p x :
  head (reordered p) = Some x ->
  head (reordered (foldl addGroup p ys)) = Some x.
Proof.
  revert p. induction ys as [|y ys IH]; intros p H; simpl; [done|].
  by apply IH, addGroup_head.
Qed.

Lemma placeGroup_head groups fileToGroups groupIndices p x y :
  head (reordered p) = Some x ->
  head (reordered (placeGroup groups fileToGroups groupIndices p y)) = Some x.
Proof.
  intros H. unfold placeGroup.
  destruct (decide (y ∈ placedGroups p)); [done|].
  destruct (groups !! y) as [g|]; [|by apply addGroup_head].
  cbv zeta. destruct (decide (0 < length _)%nat).
  - by apply foldl_addGroup_head, addGroup_head.
  - by apply addGroup_head.
Qed.

Lemma foldl_placeGroup_head groups fileToGroups groupIndices ys p x :
  head (reordered p) = Some x ->
  head (reordered (foldl (placeGroup groups fileToGroups groupIndices) p ys))
  = Some x.
Proof.
  revert p. induction ys as [|y ys IH]; intros p H; simpl; [done|].
  by apply IH, placeGroup_head.
Qed.

Lemma foldl_pushUnplaced_head ys p x :
  head (reordered p) = Some x ->
  head (reordered (foldl pushUnplaced p ys)) = Some x.
Proof.
  revert p. induction ys as [|y ys IH]; intros p H; simpl; [done|].
  apply IH. unfold pushUnplaced.
  destruct (decide (y ∈ placedGroups p)); [done|].
  simpl. destruct (reordered p); [done|]. done.
Qed.

(** X29. The display order never moves the first group of the page: the
    reordered list starts with the group the page starts with. *)
Theorem X29_reorder_keeps_first_group :
  forall (groups : list Group) (groupIndices : list nat),
    head (reorderGroupsByFileAppearances groups groupIndices)
    = head groupIndices.
Proof.
  intros groups groupIndices. unfold reorderGroupsByFileAppearances.
  destruct (decide (length groupIndices = 0%nat)); [done|].
  cbv zeta. destruct (decide (multiAppearanceFiles _ = ∅)); [done|].
  destruct groupIndices as [|x xs]; [done|].
  change (head (x :: xs)) with (Some x).
  apply foldl_pushUnplaced_head. cbn [foldl].
  apply foldl_placeGroup_head.
  unfold placeGroup. simpl.
  destruct (groups !! x) as [g|]; [|done].
  destruct (decide (0 < length _)%nat); [|done].
  by apply foldl_addGroup_head.
Qed.

(** ** Checked state: the context and the store *)

(** X30. [setFileChecked] changes the status context only for a file
    that has an entry there, and then only its checked state; for a file
    without an entry the context stays as it is and the file keeps reading
    as unchecked.  In both cases the stored session of the subject
    records the new checked state. *)
Theorem X30_setFileChecked_context_and_store :
  forall (now : Z) (subj : string) (filename : string) (chk : bool)
         (ctx : ContextState) (session : SessionState),
    let ctx' := setFileChecked now subj filename chk ctx in
    loadSession subj (ctxStorage ctx) = Some session ->
    (ctxStatuses ctx !! filename = None ->
     ctxStatuses ctx' = ctxStatuses ctx
     /\ getFileChecked (ctxStatuses ctx') filename = false)
    /\ (is_Some (ctxStatuses ctx !! filename) ->
        getFileChecked (ctxStatuses ctx') filename = chk
        /\ statusOf (ctxStatuses ctx') filename
           = statusOf (ctxStatuses ctx) filename)
    /\ (forall f, f <> filename ->
          ctxStatuses ctx' !! f = ctxStatuses ctx !! f)
    /\ exists session',
         loadSession subj (ctxStorage ctx') = Some session'
         /\ checkedFiles session' !! filename = Some chk.
Proof.
  intros now subj filename chk ctx session ctx' Hload.
  subst ctx'. unfold setFileChecked, setFileCheckedState. simpl.
  split; [|split; [|split]].
  - intros Hnone. rewrite Hnone. split; [done|].
    unfold getFileChecked. by rewrite Hnone.
  - intros [fileStatus Hsome]. rewrite Hsome.
    unfold getFileChecked, statusOf. by rewrite lookup_insert_eq, Hsome.
  - intros f Hf. destruct (ctxStatuses ctx !! filename); [|done].
    by rewrite lookup_insert_ne.
  - destruct (updateCheckedFiles_persists now subj filename chk _ _ Hload)
      as (session' & Hload' & Hchecked & _).
    exists session'. split; [done|]. by rewrite Hchecked, lookup_insert_eq.
Qed.

Lemma X30_setFileChecked_context_and_store_witness :
  exists session',
    loadSession "physics"
      (ctxStorage
         (setFileChecked 40 "physics" "9.json" true context_shared))
    = Some session'
    /\ checkedFiles session' !! "9.json" = Some true.
Proof.
  destruct (X30_setFileChecked_context_and_store 40 "physics" "9.json" true
              context_shared (stamp 10 physicsSession))
    as (_ & _ & _ & Hstore).
  - vm_compute. reflexivity.
  - exact Hstore.
Defined.
